(** * Loss Guardian: a shallow embedding of the position-risk loop

    The repository holds two rewrites of the same guardian:
    - Guardian 3.0 ([index.ts], compiled as [unnamed/part_000]);
    - Guardian 4.0 (second document of [debug_orders.ts], compiled as
      [dist.js]), which adds the pause flag, the retry helper and the
      three-way classification of the close order's status.

    Both share the exchange client ([BinanceAPI]), the throttle
    ([shouldNotify] / [clearSymbol]) and the detection routine ([checkSL]).
    They are embedded below as pure functions over an explicit program
    state, in a state-and-exception monad; the exchange and the Telegram
    transport are an oracle indexed by the number of HTTP requests issued
    so far.  JavaScript numbers are IEEE-754 binary64 values
    ([spec_float] of the standard library, with [prec = 53] and
    [emax = 1024]). *)

From Stdlib Require Import ZArith NArith Bool List Ascii SpecFloat Lia.
From stdpp Require Import base option list strings pretty gmap.

Local Open Scope Z_scope.

(** ** JavaScript numbers *)

Module JS.

Abbreviation number := spec_float.

Definition prec : Z := 53.
Definition emax : Z := 1024.
(** Exponent of the least subnormal, [-1074]. *)
Definition emin : Z := 3 - emax - prec.
(** Largest exponent of a finite binary64, [971]. *)
Definition etop : Z := emax - prec.

(** Comparison operators of the language on numbers; every comparison
    with [NaN] is false, [!==] with [NaN] is true. *)
Definition lt (x y : number) : bool := SFltb x y.
Definition gt (x y : number) : bool := SFltb y x.
Definition ge (x y : number) : bool := SFleb y x.
Definition strict_ne (x y : number) : bool := negb (SFeqb x y).
Definition Math_abs (x : number) : number := SFabs x.

Definition zero : number := S754_zero false.

(** *** Correctly rounded conversion of a rational to binary64 *)

(** The fraction [(a / b) / 2^e] as a pair numerator, denominator. *)
Definition scale2 (a b e : Z) : Z * Z :=
  if 0 <=? e then (a, b * 2 ^ e) else (a * 2 ^ (- e), b).

(** Nearest integer to [a / b], ties to the even one. *)
Definition round_half_even (a b : Z) : Z :=
  let q := a / b in
  match 2 * (a mod b) ?= b with
  | Lt => q
  | Eq => if Z.even q then q else q + 1
  | Gt => q + 1
  end.

(** The exponent [e] of the binade of [a / b]:
    [2^52 <= (a / b) / 2^e < 2^53], or [emin] in the subnormal range. *)
Definition binade (a b : Z) : Z :=
  let e0 := Z.log2 a - Z.log2 b - 53 in
  let '(n, d) := scale2 a b e0 in
  let e1 := if n <? d * 2 ^ 53 then e0 else e0 + 1 in
  Z.max e1 emin.

(** The binary64 nearest to [a / b] (for [0 <= a], [0 < b]), ties to
    even, with the sign [s]; overflow gives the infinity. *)
Definition round_to_double (s : bool) (a b : Z) : number :=
  if a =? 0 then S754_zero s else
  let e := binade a b in
  let '(n, d) := scale2 a b e in
  let m := round_half_even n d in
  let '(m, e) := if m =? 2 ^ 53 then (2 ^ 52, e + 1) else (m, e) in
  match m with
  | Zpos p => if e <=? etop then S754_finite s p e else S754_infinity s
  | _ => S754_zero s
  end.

(** *** Decimal digits *)

Definition is_digit (c : ascii) : bool :=
  let n := nat_of_ascii c in (48 <=? n)%nat && (n <=? 57)%nat.

Definition digit_value (c : ascii) : Z := Z.of_nat (nat_of_ascii c) - 48.

(** Longest prefix of decimal digits, and the rest. *)
Fixpoint span_digits (s : string) : string * string :=
  match s with
  | String c r =>
      if is_digit c then let '(d, r') := span_digits r in (String c d, r')
      else (EmptyString, s)
  | EmptyString => (EmptyString, EmptyString)
  end.

(** Value of a string of decimal digits, most significant first. *)
Fixpoint digits_value (acc : Z) (s : string) : Z :=
  match s with
  | String c r => digits_value (10 * acc + digit_value c) r
  | EmptyString => acc
  end.

Definition string_of_Z (n : Z) : string := pretty (Z.to_N n).

Fixpoint zeros (k : nat) : string :=
  match k with
  | O => EmptyString
  | S k' => String "0" (zeros k')
  end.

(** *** [parseFloat] *)

Definition is_space (c : ascii) : bool :=
  let n := nat_of_ascii c in
  ((9 <=? n)%nat && (n <=? 13)%nat) || (n =? 32)%nat.

Fixpoint skip_spaces (s : string) : string :=
  match s with
  | String c r => if is_space c then skip_spaces r else s
  | EmptyString => s
  end.

(** An optional sign; [true] stands for a minus. *)
Definition read_sign (s : string) : bool * string :=
  match s with
  | String "-" r => (true, r)
  | String "+" r => (false, r)
  | _ => (false, s)
  end.

(** The exponent part [e[+-]digits], when present and well formed. *)
Definition read_exponent (s : string) : Z :=
  match s with
  | String c r =>
      if (Ascii.eqb c "e" || Ascii.eqb c "E")%bool then
        let '(neg, r1) := read_sign r in
        let '(d, _) := span_digits r1 in
        match d with
        | EmptyString => 0
        | _ => if neg then - digits_value 0 d else digits_value 0 d
        end
      else 0
  | EmptyString => 0
  end.

(** The number denoted by [digits * 10^e10], correctly rounded. *)
Definition decimal_to_double (s : bool) (digits e10 : Z) : number :=
  if 0 <=? e10 then round_to_double s (digits * 10 ^ e10) 1
  else round_to_double s digits (10 ^ (- e10)).

(** [parseFloat]: leading blanks are skipped, the longest prefix that is
    a decimal literal is converted, anything else gives [NaN]. *)
Definition parseFloat (str : string) : number :=
  let '(neg, s) := read_sign (skip_spaces str) in
  if String.prefix "Infinity" s then S754_infinity neg else
  let '(ip, r1) := span_digits s in
  let '(fp, r2) :=
    match r1 with
    | String "." r => span_digits r
    | _ => (EmptyString, r1)
    end in
  match (ip +:+ fp)%string with
  | EmptyString => S754_nan
  | ds =>
      decimal_to_double neg (digits_value 0 ds)
        (read_exponent r2 - Z.of_nat (String.length fp))
  end.

(** *** [Number.prototype.toFixed] *)

(** The integer [n] for which [n / 10^f - m * 2^e] is as close to zero
    as possible, the larger one when there are two. *)
Definition scaled_round (m : positive) (e : Z) (f : nat) : Z :=
  if 0 <=? e then Zpos m * 2 ^ e * 10 ^ Z.of_nat f
  else (2 * Zpos m * 10 ^ Z.of_nat f + 2 ^ (- e)) / (2 * 2 ^ (- e)).

(** [10^k <= m * 2^e]. *)
Definition ge_pow10 (m : positive) (e : Z) (k : Z) : bool :=
  if 0 <=? e then 10 ^ k <=? Zpos m * 2 ^ e
  else 10 ^ k * 2 ^ (- e) <=? Zpos m.

(** Digits of [n] with the decimal point placed [f] digits from the
    right (steps 9 and 10 of the algorithm). *)
Definition place_point (n : Z) (f : nat) : string :=
  let m := string_of_Z n in
  match f with
  | O => m
  | _ =>
      let k := String.length m in
      let m' := if (k <=? f)%nat then (zeros (f + 1 - k) +:+ m)%string else m in
      let k' := String.length m' in
      (String.substring 0 (k' - f) m' +:+ "." +:+ String.substring (k' - f) f m')%string
  end.

(** *** [Number::toString] (radix 10) *)

Definition same_double (x y : number) : bool :=
  match x, y with
  | S754_zero s1, S754_zero s2 => Bool.eqb s1 s2
  | S754_infinity s1, S754_infinity s2 => Bool.eqb s1 s2
  | S754_nan, S754_nan => true
  | S754_finite s1 m1 e1, S754_finite s2 m2 e2 =>
      Bool.eqb s1 s2 && (m1 =? m2)%positive && (e1 =? e2)
  | _, _ => false
  end.

(** The fraction [(a / b) / 10^t]. *)
Definition scale10 (a b t : Z) : Z * Z :=
  if 0 <=? t then (a, b * 10 ^ t) else (a * 10 ^ (- t), b).

(** Least [n], searched upwards from [n], with [a / b < 10^n]. *)
Fixpoint magnitude10 (fuel : nat) (a b n : Z) : Z :=
  match fuel with
  | O => n
  | S fuel' =>
      let '(p, q) := scale10 a b n in
      if p <? q then n else magnitude10 fuel' a b (n + 1)
  end.

(** All the digits of [m * 2^e]: the decimal [s * 10^(n - k)] that is
    equal to it, with [k] the number of digits of [s]. *)
Definition all_decimals (m : positive) (e : Z) : Z * Z * Z :=
  let '(s, t) := if 0 <=? e then (Zpos m * 2 ^ e, 0) else (Zpos m * 5 ^ (- e), e) in
  let k := Z.of_nat (String.length (string_of_Z s)) in
  (s, k, t + k).

(** The shortest decimal [s * 10^(n - k)], with [10^(k-1) <= s < 10^k],
    that converts back to [x = m * 2^e]; among several, the closest to
    [x].  Seventeen digits are always enough; past them, all digits. *)
Fixpoint shortest (fuel : nat) (x : number) (m : positive) (e : Z)
    (a b n0 : Z) (k : Z) : Z * Z * Z :=
  let t := n0 - k in
  let '(p, q) := scale10 a b t in
  let lo := p / q in
  let best := round_half_even p q in
  let other := if best =? lo then lo + 1 else lo in
  let norm s := if s =? 10 ^ k then (10 ^ (k - 1), k, n0 + 1) else (s, k, n0) in
  let fits (c : Z * Z * Z) :=
    let '(s, k, n) := c in
    (10 ^ (k - 1) <=? s) && (s <? 10 ^ k)
    && same_double (decimal_to_double false s (n - k)) x in
  if fits (norm best) then norm best
  else if fits (norm other) then norm other
  else match fuel with
       | O => all_decimals m e
       | S fuel' => shortest fuel' x m e a b n0 (k + 1)
       end.

Definition format_digits (s k n : Z) : string :=
  let ds := string_of_Z s in
  if (k <=? n) && (n <=? 21) then (ds +:+ zeros (Z.to_nat (n - k)))%string
  else if (0 <? n) && (n <=? 21) then
    (String.substring 0 (Z.to_nat n) ds +:+ "." +:+
     String.substring (Z.to_nat n) (Z.to_nat (k - n)) ds)%string
  else if (-6 <? n) && (n <=? 0) then
    ("0." +:+ zeros (Z.to_nat (- n)) +:+ ds)%string
  else
    let mark : string := if n - 1 <? 0 then "e-" else "e+" in
    let ex := (mark +:+ string_of_Z (Z.abs (n - 1)))%string in
    if k =? 1 then (ds +:+ ex)%string
    else (String.substring 0 1 ds +:+ "." +:+
          String.substring 1 (Z.to_nat (k - 1)) ds +:+ ex)%string.

Definition Number_toString (x : number) : string :=
  match x with
  | S754_nan => "NaN"
  | S754_zero _ => "0"
  | S754_infinity s => if s then "-Infinity" else "Infinity"
  | S754_finite s m e =>
      let '(a, b) := scale2 (Zpos m) 1 (- e) in
      let guess := (Z.log2 a - Z.log2 b - 1) * 30103 / 100000 in
      let n0 := magnitude10 4 a b guess in
      let '(d, k, n) := shortest 16 (S754_finite false m e) m e a b n0 1 in
      ((if s then "-" else "") +:+ format_digits d k n)%string
  end.

(** [x.toFixed(f)] for [0 <= f <= 100]; the caller checks the range. *)
Definition toFixed (x : number) (f : nat) : string :=
  match x with
  | S754_finite s m e =>
      if ge_pow10 m e 21 then Number_toString x
      else ((if s then "-" else "") +:+ place_point (scaled_round m e f) f)%string
  | S754_zero _ => place_point 0 f
  | _ => Number_toString x
  end.

End JS.

(** ** Data model *)

(** Entries of [GET /fapi/v2/positionRisk]. *)
Record PositionRisk := {
  pr_symbol : string;
  positionAmt : string;
  unRealizedProfit : string;
}.

Inductive PosSide := LONG | SHORT.

Record Position := {
  symbol : string;
  amt : JS.number;
  pnl : JS.number;
  side : PosSide;
}.

(** Entries of [GET /fapi/v1/openAlgoOrders]; an absent property is [None]. *)
Record AlgoOrder := {
  algoId : Z;
  algo_symbol : string;
  algo_side : string;
  algo_quantity : option string;
  orderType : string;
  algoStatus : string;
  algo_closePosition : option bool;
}.

(** The close flag of a conventional order comes as a boolean or as a string. *)
Inductive flag := FlagAbsent | FlagBool (b : bool) | FlagString (s : string).

(** Entries of [GET /fapi/v1/openOrders]. *)
Record OpenOrder := {
  status : string;
  order_side : string;
  type : string;
  closePosition : flag;
  origQty : option string;
  quantity : option string;
}.

Record Filter := { filterType : string; stepSize : option string }.
Record ExchangeInfoSymbol := { info_symbol : string; filters : list Filter }.

(** Answer of [POST /fapi/v1/order]. *)
Record OrderResult := { orderId : Z; result_status : string }.

Record SLState := { hasSL : bool; lastCheck : Z }.

(** Values that the program throws: [Error] objects with their message, and
    the [null] that [retry] throws when it was given no attempt. *)
Inductive error := Error (message : string) | ThrownNull.

Inductive outcome (A : Type) := Ok (a : A) | Throw (e : error).
Arguments Ok {A} a.
Arguments Throw {A} e.

Inductive level := INFO | WARN | ERR | SUCCESS | PLAIN.

(** What the program does to the outside: HTTP requests to the exchange
    and to Telegram, console lines, and timed waits. *)
Inductive event :=
  | EvPositionRisk
  | EvOpenAlgoOrders (sym : string)
  | EvOpenOrders (sym : string)
  | EvCancelAllOrders (sym : string)
  | EvCancelAlgoOrder (sym : string) (id : Z)
  | EvMarketClose (sym : string) (side : string) (qty : string)
  | EvExchangeInfo
  | EvTelegram (text : string)
  | EvLog (l : level) (msg : string)
  | EvSleep (ms : Z)
  (** entry into [closePosition]: a marker of the call, not an effect *)
  | EvClosePosition (pos : Position).

(** What comes back from one HTTP request: the parsed body, or a failure
    (a rejected [fetch], or a non-success status, which [request] turns
    into [HTTP <status>: <body excerpt>]) with the message of the
    [Error] that is thrown. *)
Inductive response (A : Type) := Body (a : A) | Failed (message : string).
Arguments Body {A} a.
Arguments Failed {A} message.

(** The exchange and the Telegram transport.  Every field answers the
    request issued as the [n]-th HTTP request of the process. *)
Record Exchange := {
  positionRisk : nat → response (list PositionRisk);
  (** [None]: the body is not an array *)
  openAlgoOrders : nat → string → response (option (list AlgoOrder));
  openOrders : nat → string → response (list OpenOrder);
  allOpenOrders : nat → string → response unit;
  algoOrder : nat → string → Z → response unit;
  order : nat → string → string → string → response OrderResult;
  exchangeInfo : nat → response (list ExchangeInfoSymbol);
  (** [res.ok] of [sendMessage] *)
  sendMessage : nat → string → response bool;
}.

(** What [parseInt] gives for a setting: an integer, an infinity when the
    numeral is beyond the range of binary64, or NaN when the text does
    not start with a numeral. *)
Inductive parsed_int := PInt (i : Z) | PInfinity (negative : bool) | PNaN.

(** [x >= y] and [x < y] for an integer [x]: both are false against NaN. *)
Definition at_least (x : Z) (y : parsed_int) : bool :=
  match y with
  | PInt i => i <=? x
  | PInfinity negative => negative
  | PNaN => false
  end.
Definition less_than (x : Z) (y : parsed_int) : bool :=
  match y with
  | PInt i => x <? i
  | PInfinity negative => negb negative
  | PNaN => false
  end.

(** The settings object [cfg] (the fields the core reads). *)
Record Config := {
  maxLossUsd : JS.number;
  dryRun : bool;
  (** [parseInt(getEnv('INTERVAL_MS') || '1000')], taken as an integer: it
      is only ever the length of a wait *)
  intervalMs : Z;
  (** [parseInt(getEnv('TELEGRAM_NOTIFICATION_INTERVAL_MS') || '30000')] *)
  telegramInterval : parsed_int;
  (** [!!(cfg.telegramBotToken && cfg.telegramChatId)] *)
  configured : bool;
}.

Record Env := { cfg : Config; exchange : Exchange }.

(** The mutable state of the process. *)
Record State := mkState {
  (** [BinanceAPI.symbolInfo]: symbol to step-size precision *)
  symbolInfo : gmap string nat;
  (** [lastNotify] of the Telegram object *)
  lastNotify : gmap string Z;
  (** [SLChecker.cache] *)
  cache : gmap string SLState;
  (** [PositionMonitor.positions] *)
  positions : list Position;
  (** the global [paused] of Guardian 4.0 *)
  paused : bool;
  errors : nat;
  lastTick : Z;
  lastPrint : Z;
  (** number of HTTP requests issued so far *)
  requests : nat;
  (** [Date.now()] *)
  now : Z;
}.

Definition set_symbolInfo (f : gmap string nat → gmap string nat) (st : State) : State :=
  mkState (f (symbolInfo st)) (lastNotify st) (cache st) (positions st) (paused st)
    (errors st) (lastTick st) (lastPrint st) (requests st) (now st).
Definition set_lastNotify (f : gmap string Z → gmap string Z) (st : State) : State :=
  mkState (symbolInfo st) (f (lastNotify st)) (cache st) (positions st) (paused st)
    (errors st) (lastTick st) (lastPrint st) (requests st) (now st).
Definition set_cache (f : gmap string SLState → gmap string SLState) (st : State) : State :=
  mkState (symbolInfo st) (lastNotify st) (f (cache st)) (positions st) (paused st)
    (errors st) (lastTick st) (lastPrint st) (requests st) (now st).
Definition set_positions (ps : list Position) (st : State) : State :=
  mkState (symbolInfo st) (lastNotify st) (cache st) ps (paused st)
    (errors st) (lastTick st) (lastPrint st) (requests st) (now st).
Definition set_paused (b : bool) (st : State) : State :=
  mkState (symbolInfo st) (lastNotify st) (cache st) (positions st) b
    (errors st) (lastTick st) (lastPrint st) (requests st) (now st).
Definition set_errors (n : nat) (st : State) : State :=
  mkState (symbolInfo st) (lastNotify st) (cache st) (positions st) (paused st)
    n (lastTick st) (lastPrint st) (requests st) (now st).
Definition set_lastTick (t : Z) (st : State) : State :=
  mkState (symbolInfo st) (lastNotify st) (cache st) (positions st) (paused st)
    (errors st) t (lastPrint st) (requests st) (now st).
Definition set_lastPrint (t : Z) (st : State) : State :=
  mkState (symbolInfo st) (lastNotify st) (cache st) (positions st) (paused st)
    (errors st) (lastTick st) t (requests st) (now st).
Definition set_requests (n : nat) (st : State) : State :=
  mkState (symbolInfo st) (lastNotify st) (cache st) (positions st) (paused st)
    (errors st) (lastTick st) (lastPrint st) n (now st).
Definition set_now (t : Z) (st : State) : State :=
  mkState (symbolInfo st) (lastNotify st) (cache st) (positions st) (paused st)
    (errors st) (lastTick st) (lastPrint st) (requests st) t.

(** ** The monad of the program: state, exceptions and emitted events *)

Definition M (A : Type) : Type := Env → State → outcome A * State * list event.

Definition ret {A} (a : A) : M A := λ _ st, (Ok a, st, []).

Definition bind {A B} (m : M A) (k : A → M B) : M B := λ env st,
  match m env st with
  | (Ok a, st1, ev1) => let '(r, st2, ev2) := k a env st1 in (r, st2, ev1 ++ ev2)
  | (Throw e, st1, ev1) => (Throw e, st1, ev1)
  end.

Global Instance M_ret : MRet M := @ret.
Global Instance M_bind : MBind M := λ A B k m, bind m k.

Definition throw {A} (e : error) : M A := λ _ st, (Throw e, st, []).

(** [try { m } catch (e) { h e }] *)
Definition try_catch {A} (m : M A) (h : error → M A) : M A := λ env st,
  match m env st with
  | (Ok a, st1, ev1) => (Ok a, st1, ev1)
  | (Throw e, st1, ev1) => let '(r, st2, ev2) := h e env st1 in (r, st2, ev1 ++ ev2)
  end.

Definition emit (e : event) : M unit := λ _ st, (Ok (), st, [e]).
Definition get : M State := λ _ st, (Ok st, st, []).
Definition modify (f : State → State) : M unit := λ _ st, (Ok (), f st, []).
Definition ask : M Env := λ env st, (Ok env, st, []).

(** [for (const x of l) { f x }] *)
Fixpoint for_of {A} (l : list A) (f : A → M unit) : M unit :=
  match l with
  | [] => mret ()
  | x :: l' => f x;; for_of l' f
  end.

Definition log (l : level) (msg : string) : M unit := emit (EvLog l msg).

(** [await sleep(ms)]: the clock moves on by [ms]. *)
Definition sleep (ms : Z) : M unit :=
  emit (EvSleep ms);; modify (λ st, set_now (now st + ms) st).

(** One HTTP request: the oracle answers by the request's rank. *)
Definition thrown {A} (r : response A) : outcome A :=
  match r with
  | Body a => Ok a
  | Failed msg => Throw (Error msg)
  end.

Definition http {A} (ev : event) (answer : Exchange → nat → response A) : M A :=
  λ env st,
    (thrown (answer (exchange env) (requests st)), set_requests (S (requests st)) st, [ev]).

(** [e.message] of a caught value; reading it off [null] is a [TypeError]. *)
Definition message_of (e : error) : M string :=
  match e with
  | Error msg => mret msg
  | ThrownNull => throw (Error "null is not an object (evaluating 'e.message')")
  end.

Definition nl : string := String (ascii_of_nat 10) "".

(** ** The exchange client ([BinanceAPI]), shared by both rewrites *)

(** The [filter] and [map] of [getPositions]. *)
Definition parse_positions (rs : list PositionRisk) : list Position :=
  map (λ p, {| symbol := pr_symbol p;
               amt := JS.parseFloat (positionAmt p);
               pnl := JS.parseFloat (unRealizedProfit p);
               side := if JS.gt (JS.parseFloat (positionAmt p)) JS.zero
                       then LONG else SHORT |})
    (List.filter (λ p, JS.strict_ne (JS.parseFloat (positionAmt p)) JS.zero) rs).

Definition getPositions : M (list Position) :=
  rs ← http EvPositionRisk positionRisk;
  mret (parse_positions rs).

(** [Array.isArray(res) ? res : []] *)
Definition getAlgoOrders (sym : string) : M (list AlgoOrder) :=
  res ← http (EvOpenAlgoOrders sym) (λ ex n, openAlgoOrders ex n sym);
  mret (default [] res).

Definition getOpenOrders (sym : string) : M (list OpenOrder) :=
  http (EvOpenOrders sym) (λ ex n, openOrders ex n sym).

Definition cancelAllOrders (sym : string) : M unit :=
  http (EvCancelAllOrders sym) (λ ex n, allOpenOrders ex n sym).

Definition cancelAlgoOrder (sym : string) (id : Z) : M unit :=
  http (EvCancelAlgoOrder sym id) (λ ex n, algoOrder ex n sym id).

Definition marketClose (sym sd qty : string) : M OrderResult :=
  http (EvMarketClose sym sd qty) (λ ex n, order ex n sym sd qty).

(** [s.split(sep)] *)
Fixpoint split (sep : ascii) (s : string) : list string :=
  match s with
  | EmptyString => [EmptyString]
  | String c r =>
      if Ascii.eqb c sep then EmptyString :: split sep r
      else match split sep r with
           | p :: ps => String c p :: ps
           | [] => [String c EmptyString]
           end
  end.

(** [(stepSize.split('.')[1] || '').length] *)
Definition fraction_digits (step : string) : nat :=
  String.length (default EmptyString (nth_error (split "." step) 1)).

(** Body of the loop over [info.symbols] in [roundQty]. *)
Definition load_symbol (m : gmap string nat) (s : ExchangeInfoSymbol) : gmap string nat :=
  match List.find (λ f, String.eqb (filterType f) "LOT_SIZE") (filters s) with
  | Some lot =>
      match stepSize lot with
      | Some (String c r) => <[info_symbol s := fraction_digits (String c r)]> m
      | _ => m
      end
  | None => m
  end.

(** [x.toFixed(f)], with its range check. *)
Definition Number_toFixed (x : JS.number) (f : nat) : M string :=
  if (100 <? f)%nat
  then throw (Error "toFixed() digits argument must be between 0 and 100")
  else mret (JS.toFixed x f).

Definition roundQty (sym : string) (qty : JS.number) : M JS.number :=
  st ← get;
  (if decide (is_Some (symbolInfo st !! sym)) then mret ()
   else info ← http EvExchangeInfo exchangeInfo;
        modify (set_symbolInfo (λ m, fold_left load_symbol info m)));;
  st ← get;
  (* [this.symbolInfo.get(symbol) || 6] *)
  let precision := match symbolInfo st !! sym with
                   | Some (S p) => S p
                   | _ => 6%nat
                   end in
  s ← Number_toFixed qty precision;
  mret (JS.parseFloat s).

(** ** The throttle and the Telegram transport *)

(** [send]; [tag] is the prefix of the console line on a rejected [fetch]
    (["Telegram: "] in 3.0, ["Telegram send: "] in 4.0). *)
Definition send (tag text : string) : M bool :=
  env ← ask;
  if configured (cfg env) then
    try_catch (http (EvTelegram text) (λ ex n, sendMessage ex n text))
      (λ e, msg ← message_of e; log ERR (tag +:+ msg);; mret false)
  else mret false.

Definition shouldNotify (sym : string) : M bool :=
  env ← ask;
  st ← get;
  let now := now st in
  let last := default 0 (lastNotify st !! sym) in
  if at_least (now - last) (telegramInterval (cfg env)) then
    modify (set_lastNotify (<[sym := now]>));; mret true
  else mret false.

Definition clearSymbol (sym : string) : M unit :=
  modify (set_lastNotify (delete sym)).

(** ** Stop-loss detection ([SLChecker.checkSL]), shared by both rewrites *)

Definition is_stop (t : string) : bool :=
  String.eqb t "STOP" || String.eqb t "STOP_MARKET".

(** [a || b] on an optional string: absent and empty are falsy. *)
Definition or_else (a : option string) (b : string) : string :=
  match a with
  | Some (String c r) => String c r
  | _ => b
  end.

(** The test that the loop over the conditional orders applies. *)
Definition algo_protects (expectedSide : string) (o : AlgoOrder) : bool :=
  String.eqb (algoStatus o) "NEW"
  && String.eqb (algo_side o) expectedSide
  && is_stop (orderType o)
  && (match algo_closePosition o with Some true => true | _ => false end
      || JS.gt (JS.parseFloat (or_else (algo_quantity o) "0")) JS.zero).

(** The test that the loop over the conventional orders applies. *)
Definition order_protects (expectedSide : string) (o : OpenOrder) : bool :=
  String.eqb (status o) "NEW"
  && String.eqb (order_side o) expectedSide
  && is_stop (type o)
  && (match closePosition o with
      | FlagString s => String.eqb s "true"
      | FlagBool b => b
      | FlagAbsent => false
      end
      || JS.gt (JS.parseFloat (or_else (origQty o) (or_else (quantity o) "0"))) JS.zero).

(** How one of the two [try] blocks of [checkSL] ends: with [return true],
    by falling through, or in its [catch]. *)
Inductive scan := Found | Clean | Caught.

Definition expected_side (sd : PosSide) : string :=
  match sd with LONG => "SELL" | SHORT => "BUY" end.

(** [checkSL]; [msg] is the message of the error thrown at the end
    (["Network error during SL check"] in 3.0, ["Network error"] in 4.0). *)
Definition checkSL (msg : string) (sym : string) (sd : PosSide) : M bool :=
  let expectedSide := expected_side sd in
  r1 ← try_catch
         (orders ← getAlgoOrders sym;
          mret (if existsb (algo_protects expectedSide) orders then Found else Clean))
         (λ _, mret Caught);
  match r1 with
  | Found => mret true
  | _ =>
      r2 ← try_catch
             (orders ← getOpenOrders sym;
              mret (if existsb (order_protects expectedSide) orders then Found else Clean))
             (λ _, mret Caught);
      match r2 with
      | Found => mret true
      | _ =>
          match r1, r2 with
          | Clean, Clean => mret false
          | _, _ => throw (Error msg)
          end
      end
  end.

(** The first loop of [check]: entries of symbols that are no longer held
    are dropped from the cache and from the throttle. *)
Definition held (ps : list Position) (sym : string) : bool :=
  existsb (λ p, String.eqb (symbol p) sym) ps.

Definition evict (ps : list Position) : M unit :=
  st ← get;
  for_of (map fst (map_to_list (cache st)))
    (λ sym, if held ps sym then mret ()
            else modify (set_cache (delete sym));; clearSymbol sym).

(** [retry(fn, { attempts, delayMs, name })] of Guardian 4.0;
    [remaining] counts the iterations still to run, [i = attempts - remaining + 1]. *)
Fixpoint retry_loop {A} (fn : M A) (attempts : nat) (delayMs : Z) (name : string)
    (remaining : nat) (lastError : error) : M A :=
  match remaining with
  | O => throw lastError
  | S remaining' =>
      let i := (attempts - remaining')%nat in
      try_catch fn
        (λ e, (if (i <? attempts)%nat then
                 log WARN (name +:+ " failed (" +:+ pretty i +:+ "/" +:+ pretty attempts
                           +:+ "), retry in " +:+ JS.string_of_Z delayMs +:+ "ms");;
                 sleep delayMs
               else mret ());;
              retry_loop fn attempts delayMs name remaining' e)
  end.

Definition retry {A} (fn : M A) (attempts : nat) (delayMs : Z) (name : string) : M A :=
  retry_loop fn attempts delayMs name attempts ThrownNull.

(** ** Text helpers *)

Definition side_name (sd : PosSide) : string :=
  match sd with LONG => "LONG" | SHORT => "SHORT" end.

Fixpoint spaces (k : nat) : string :=
  match k with
  | O => EmptyString
  | S k' => String " " (spaces k')
  end.

Definition padEnd (s : string) (n : nat) : string :=
  s +:+ spaces (n - String.length s).
Definition padStart (s : string) (n : nat) : string :=
  spaces (n - String.length s) +:+ s.

(** [s.slice(0, n)] *)
Definition slice0 (n : nat) (s : string) : string := String.substring 0 n s.

(** The close-trigger test of [tick]:
    [pos.pnl < 0] and then [Math.abs(pos.pnl) >= cfg.maxLossUsd]. *)
Definition triggers (c : Config) (pos : Position) : bool :=
  JS.lt (pnl pos) JS.zero && JS.ge (JS.Math_abs (pnl pos)) (maxLossUsd c).

(** [amt > 0 ? 'SELL' : 'BUY'] *)
Definition close_side (pos : Position) : string :=
  if JS.gt (amt pos) JS.zero then "SELL" else "BUY".

(** The two cancellation steps of [closePosition], each in its own
    [try] with an empty [catch]; [after_cancel] is what the first [try]
    does once the cancellation went through. *)
Definition cancel_orders (pos : Position) (after_cancel : M unit) : M unit :=
  try_catch (cancelAllOrders (symbol pos);; after_cancel) (λ _, mret ());;
  try_catch
    (algoOrders ← getAlgoOrders (symbol pos);
     for_of algoOrders
       (λ o, if String.eqb (algoStatus o) "NEW"
             then cancelAlgoOrder (symbol pos) (algoId o) else mret ()))
    (λ _, mret ()).

(** ** Guardian 4.0 *)

Module V4.

Definition tag : string := "Telegram send: ".

(** Body of the loop over the positions in [SLChecker.check]. *)
Definition checkPosition (pos : Position) : M unit :=
  try_catch
    (has ← checkSL "Network error" (symbol pos) (side pos);
     st ← get;
     let prev := cache st !! symbol pos in
     modify (set_cache (<[symbol pos := {| hasSL := has; lastCheck := now st |}]>));;
     if negb has then
       notify ← shouldNotify (symbol pos);
       if notify : bool then
         log WARN (symbol pos +:+ " NO SL");;
         send tag ("⚠️ <b>" +:+ symbol pos +:+ " НЕТ SL</b>" +:+ nl +:+
                   side_name (side pos) +:+ " | " +:+ JS.toFixed (pnl pos) 2 +:+ "$");;
         mret ()
       else mret ()
     else
       match prev with
       | Some p =>
           if negb (hasSL p) then
             log SUCCESS (symbol pos +:+ " SL ok");; clearSymbol (symbol pos)
           else mret ()
       | None => mret ()
       end)
    (λ _, mret ()).

Definition check : M unit :=
  st ← get;
  let positions := positions st in
  evict positions;;
  for_of positions checkPosition.

Definition sl_label (s : option SLState) : string :=
  match s with
  | Some s => if hasSL s then "[SL]" else "[NO SL]"
  | None => "[?]"
  end.

Definition signed_pnl (x : JS.number) : string :=
  if JS.ge x JS.zero then "+" +:+ JS.toFixed x 2 else JS.toFixed x 2.

(** The console line of one position. *)
Definition position_line (st : State) (pos : Position) : string :=
  symbol pos +:+ " " +:+ side_name (side pos) +:+ " | PnL: "
  +:+ signed_pnl (pnl pos) +:+ " | " +:+ sl_label (cache st !! symbol pos).

Definition printPositions : M unit :=
  st ← get;
  if now st - lastPrint st <? 60000 then mret ()
  else
    modify (set_lastPrint (now st));;
    match positions st with
    | [] => log INFO "Нет открытых позиций"
    | ps => for_of ps (λ pos, log INFO (position_line st pos))
    end.

(** The three Telegram texts that report the status of the close order. *)
Definition closed_text (pos : Position) (result : OrderResult) : string :=
  "🚨 <b>ЗАКРЫТО: " +:+ symbol pos +:+ "</b>" +:+ nl +:+
  "PnL: " +:+ JS.toFixed (pnl pos) 2 +:+ "$ | #" +:+ JS.string_of_Z (orderId result).

Definition partial_text (pos : Position) (result : OrderResult) : string :=
  "⚠️ <b>" +:+ symbol pos +:+ " не полностью закрыт</b>" +:+ nl +:+
  "Status: " +:+ result_status result +:+ " | #" +:+ JS.string_of_Z (orderId result).

Definition unexpected_text (pos : Position) (result : OrderResult) : string :=
  "❌ <b>" +:+ symbol pos +:+ " статус: " +:+ result_status result
  +:+ "</b>" +:+ nl +:+ "#" +:+ JS.string_of_Z (orderId result).

(** The Telegram text of the [catch] of [closePosition]. *)
Definition failure_text (pos : Position) (msg : string) : string :=
  "❌ <b>ОШИБКА " +:+ symbol pos +:+ "</b>" +:+ nl +:+ slice0 100 msg.

(** The branches on [result.status] in [closePosition]. *)
Definition report (pos : Position) (result : OrderResult) : M unit :=
  if String.eqb (result_status result) "FILLED" then
    log SUCCESS (symbol pos +:+ " closed #" +:+ JS.string_of_Z (orderId result));;
    send tag (closed_text pos result);;
    mret ()
  else if String.eqb (result_status result) "PARTIALLY_FILLED"
          || String.eqb (result_status result) "NEW" then
    log WARN (symbol pos +:+ " order " +:+ result_status result +:+ " #"
              +:+ JS.string_of_Z (orderId result));;
    send tag (partial_text pos result);;
    mret ()
  else
    log ERR (symbol pos +:+ " unexpected status: " +:+ result_status result);;
    send tag (unexpected_text pos result);;
    mret ().

(** The mandatory submission, with its retries. *)
Definition submit (pos : Position) (qty : JS.number) : M OrderResult :=
  retry (marketClose (symbol pos) (close_side pos) (JS.Number_toString qty))
    3 500 ("close " +:+ symbol pos).

(** The [catch] of [closePosition]. *)
Definition failed (pos : Position) (e : error) : M unit :=
  msg ← message_of e;
  log ERR ("FAILED " +:+ symbol pos +:+ ": " +:+ msg);;
  send tag (failure_text pos msg);;
  mret ().

Definition closePosition (pos : Position) : M unit :=
  emit (EvClosePosition pos);;
  env ← ask;
  let sd := close_side pos in
  qty ← roundQty (symbol pos) (JS.Math_abs (amt pos));
  if dryRun (cfg env) then
    log WARN ("[DRY] " +:+ symbol pos +:+ " " +:+ sd +:+ " " +:+ JS.Number_toString qty)
  else
    cancel_orders pos (mret ());;
    try_catch
      (result ← submit pos qty;
       report pos result)
      (failed pos).

(** Body of the loop over the positions in [tick]. *)
Definition evaluate (pos : Position) : M unit :=
  env ← ask;
  if JS.lt (pnl pos) JS.zero then
    let loss := JS.Math_abs (pnl pos) in
    if JS.ge loss (maxLossUsd (cfg env)) then
      log ERR (symbol pos +:+ " -" +:+ JS.toFixed loss 0 +:+ "$ >= "
               +:+ JS.Number_toString (maxLossUsd (cfg env)) +:+ "$ CLOSING");;
      closePosition pos
    else mret ()
  else mret ().

Definition tick : M unit :=
  ps ← getPositions;
  modify (set_positions ps);;
  printPositions;;
  st ← get;
  if paused st then mret ()
  else for_of ps evaluate.

(** One turn of the [while (this.running)] loop of [start]. *)
Definition iteration : M unit :=
  env ← ask;
  try_catch (tick;; modify (set_errors 0))
    (λ e, modify (λ st, set_errors (S (errors st)) st);;
          msg ← message_of e;
          log ERR ("Tick: " +:+ slice0 50 msg);;
          st ← get;
          if (10 <=? errors st)%nat then
            log WARN (pretty (errors st) +:+ " errors, sleep 30s");; sleep 30000
          else mret ());;
  sleep (intervalMs (cfg env)).

Record StatusEntry := { st_symbol : string; st_pnl : JS.number; st_hasSL : option bool }.
Record StatusInfo := { st_positions : list StatusEntry; st_errors : nat }.

Definition getStatusInfo (st : State) : StatusInfo :=
  {| st_positions :=
       map (λ p, {| st_symbol := symbol p; st_pnl := pnl p;
                    st_hasSL := hasSL <$> cache st !! symbol p |})
         (positions st);
     st_errors := errors st |}.

Definition status_line (p : StatusEntry) : string :=
  let pnl := if JS.ge (st_pnl p) JS.zero then "+" +:+ JS.toFixed (st_pnl p) 2
             else JS.toFixed (st_pnl p) 2 in
  let sl := match st_hasSL p with
            | Some true => "✅" | Some false => "❌" | None => "❓"
            end in
  st_symbol p +:+ ": " +:+ pnl +:+ "$ " +:+ sl.

(** [lines.join('\n')] *)
Fixpoint join_lines (l : list string) : string :=
  match l with
  | [] => EmptyString
  | [x] => x
  | x :: r => x +:+ nl +:+ join_lines r
  end.

Definition cmdStatus : M unit :=
  env ← ask;
  st ← get;
  let status := getStatusInfo st in
  let posText := match st_positions status with
                 | [] => "Нет позиций"
                 | ps => join_lines (map status_line ps)
                 end in
  send tag ("<b>📊 Статус</b>" +:+ nl +:+ nl +:+
            "Состояние: " +:+ (if paused st then "⏸ ПАУЗА" else "✅ Активен") +:+ nl +:+
            "Макс. убыток: <b>" +:+ JS.Number_toString (maxLossUsd (cfg env)) +:+ " USDT</b>"
            +:+ nl +:+ "Ошибок: " +:+ pretty (st_errors status) +:+ nl +:+ nl +:+
            "<b>Позиции:</b>" +:+ nl +:+ "<code>" +:+ posText +:+ "</code>");;
  mret ().

Definition cmdPause : M unit :=
  modify (set_paused true);;
  send tag ("⏸ <b>Мониторинг приостановлен</b>" +:+ nl +:+ nl +:+
            "Позиции НЕ будут закрываться автоматически.");;
  log INFO "Мониторинг приостановлен через Telegram".

Definition cmdResume : M unit :=
  env ← ask;
  modify (set_paused false);;
  send tag ("▶️ <b>Мониторинг возобновлён</b>" +:+ nl +:+ nl +:+
            "Макс. убыток: " +:+ JS.Number_toString (maxLossUsd (cfg env)) +:+ " USDT");;
  log INFO "Мониторинг возобновлён через Telegram".

End V4.

(** ** Guardian 3.0 *)

Module V3.

Definition tag : string := "Telegram: ".

Definition esc : string := String (ascii_of_nat 27) "".
Definition reset : string := esc +:+ "[0m".
Definition red : string := esc +:+ "[31m".
Definition green : string := esc +:+ "[32m".
Definition yellow : string := esc +:+ "[33m".

Definition formatPnL (x : JS.number) : string :=
  let sign : string := if JS.ge x JS.zero then "+" else "" in
  let color := if JS.ge x JS.zero then green else red in
  color +:+ sign +:+ JS.toFixed x 2 +:+ reset.

(** Body of the loop over the positions in [SLChecker.check]. *)
Definition checkPosition (pos : Position) : M unit :=
  try_catch
    (has ← checkSL "Network error during SL check" (symbol pos) (side pos);
     st ← get;
     let prev := cache st !! symbol pos in
     modify (set_cache (<[symbol pos := {| hasSL := has; lastCheck := now st |}]>));;
     if negb has then
       log WARN (symbol pos +:+ " - НЕТ SL! PnL: " +:+ formatPnL (pnl pos));;
       notify ← shouldNotify (symbol pos);
       if notify : bool then
         send tag ("⚠️ <b>" +:+ symbol pos +:+ " БЕЗ СТОП-ЛОССА!</b>" +:+ nl +:+ nl +:+
                   "Сторона: " +:+ side_name (side pos) +:+ nl +:+
                   "Размер: " +:+ JS.Number_toString (JS.Math_abs (amt pos)) +:+ nl +:+
                   "PnL: " +:+ JS.toFixed (pnl pos) 2 +:+ " USDT" +:+ nl +:+ nl +:+
                   "Установите SL!");;
         mret ()
       else mret ()
     else
       match prev with
       | Some p =>
           if negb (hasSL p) then
             log SUCCESS (symbol pos +:+ " - SL установлен");; clearSymbol (symbol pos)
           else mret ()
       | None => mret ()
       end)
    (λ e, msg ← message_of e;
          log ERR ("Проверка SL " +:+ symbol pos +:+ ": " +:+ msg)).

Definition check : M unit :=
  st ← get;
  let positions := positions st in
  evict positions;;
  for_of positions checkPosition.

Definition sl_label (s : option SLState) : string :=
  match s with
  | Some s => if hasSL s then green +:+ "[SL]" +:+ reset
              else red +:+ "[NO SL]" +:+ reset
  | None => yellow +:+ "[?]" +:+ reset
  end.

(** The console line of one position. *)
Definition position_line (st : State) (pos : Position) : string :=
  let dir : string := match side pos with LONG => "▲" | SHORT => "▼" end in
  padEnd (symbol pos) 12 +:+ " " +:+ dir +:+ " "
  +:+ padEnd (side_name (side pos)) 5 +:+ " | amt: "
  +:+ padStart (JS.toFixed (amt pos) 4) 12 +:+ " | PnL: "
  +:+ padStart (formatPnL (pnl pos)) 20 +:+ " | "
  +:+ sl_label (cache st !! symbol pos).

Definition printPositions : M unit :=
  st ← get;
  match positions st with
  | [] => log INFO "Нет открытых позиций"
  | ps =>
      log PLAIN "";;
      for_of ps (λ pos, log INFO (position_line st pos));;
      log PLAIN ""
  end.

(** The Telegram text sent once the close order went through. *)
Definition closed_text (c : Config) (pos : Position) (qty : JS.number)
    (result : OrderResult) : string :=
  "🚨 <b>ПОЗИЦИЯ ЗАКРЫТА: " +:+ symbol pos +:+ "</b>" +:+ nl +:+ nl +:+
  "Причина: Убыток >= " +:+ JS.Number_toString (maxLossUsd c) +:+ " USDT" +:+ nl +:+
  "PnL: " +:+ JS.toFixed (pnl pos) 2 +:+ " USDT" +:+ nl +:+
  "Сторона: " +:+ close_side pos +:+ nl +:+
  "Количество: " +:+ JS.Number_toString qty +:+ nl +:+
  "Order ID: " +:+ JS.string_of_Z (orderId result).

(** The Telegram text of the [catch] of [closePosition]. *)
Definition failure_text (pos : Position) (msg : string) : string :=
  "❌ <b>ОШИБКА закрытия " +:+ symbol pos +:+ "</b>" +:+ nl +:+ nl +:+ msg.

(** What [closePosition] does once the order went through. *)
Definition report (pos : Position) (qty : JS.number) (result : OrderResult) : M unit :=
  env ← ask;
  log SUCCESS (symbol pos +:+ " ЗАКРЫТ! OrderId: " +:+ JS.string_of_Z (orderId result)
               +:+ ", Status: " +:+ result_status result);;
  send tag (closed_text (cfg env) pos qty result);;
  st ← get;
  match cache st !! symbol pos with
  | Some _ => clearSymbol (symbol pos)
  | None => mret ()
  end.

(** The single submission of the close order. *)
Definition submit (pos : Position) (qty : JS.number) : M OrderResult :=
  marketClose (symbol pos) (close_side pos) (JS.Number_toString qty).

(** The [catch] of [closePosition]. *)
Definition failed (pos : Position) (e : error) : M unit :=
  msg ← message_of e;
  log ERR ("Не удалось закрыть " +:+ symbol pos +:+ ": " +:+ msg);;
  send tag (failure_text pos msg);;
  mret ().

Definition closePosition (pos : Position) : M unit :=
  emit (EvClosePosition pos);;
  env ← ask;
  let sd := close_side pos in
  qty ← roundQty (symbol pos) (JS.Math_abs (amt pos));
  if dryRun (cfg env) then
    log WARN ("[DRY RUN] Закрыли бы " +:+ symbol pos +:+ ": " +:+ sd +:+ " "
              +:+ JS.Number_toString qty)
  else
    try_catch
      (cancel_orders pos (log INFO (symbol pos +:+ " - ордера отменены"));;
       result ← submit pos qty;
       report pos qty result)
      (failed pos).

(** Body of the loop over the positions in [tick]. *)
Definition evaluate (pos : Position) : M unit :=
  env ← ask;
  if JS.lt (pnl pos) JS.zero then
    let loss := JS.Math_abs (pnl pos) in
    if JS.ge loss (maxLossUsd (cfg env)) then
      log ERR (symbol pos +:+ " УБЫТОК " +:+ JS.toFixed loss 2 +:+ " >= "
               +:+ JS.Number_toString (maxLossUsd (cfg env)) +:+ " USDT - ЗАКРЫВАЕМ!");;
      closePosition pos
    else mret ()
  else mret ().

Definition tick : M unit :=
  ps ← getPositions;
  modify (set_positions ps);;
  printPositions;;
  for_of ps evaluate.

(** One turn of the [while (this.running)] loop of [start]. *)
Definition iteration : M unit :=
  env ← ask;
  try_catch (tick;; modify (λ st, set_errors 0 (set_lastTick (now st) st)))
    (λ e, modify (λ st, set_errors (S (errors st)) st);;
          msg ← message_of e;
          log ERR ("Tick: " +:+ msg);;
          st ← get;
          if (10 <=? errors st)%nat then
            log WARN (pretty (errors st) +:+ " ошибок подряд, ждём 30 секунд...");;
            sleep 30000
          else mret ());;
  sleep (intervalMs (cfg env)).

End V3.

(** * Statements: auxiliary definitions *)

(** ** The throttle *)

(** An alert for [sym] was recorded less than one interval ago. *)
Definition recently_notified (env : Env) (st : State) (sym : string) : Prop :=
  ∃ t, lastNotify st !! sym = Some t
       ∧ less_than (now st - t) (telegramInterval (cfg env)) = true.

(** A run of throttle queries: each call [(sym, t)] is made when the clock
    reads [t]; the answers are collected in order. *)
Fixpoint notify_all (calls : list (string * Z)) : M (list bool) :=
  match calls with
  | [] => mret []
  | (sym, t) :: rest =>
      modify (set_now t);;
      b ← shouldNotify sym;
      bs ← notify_all rest;
      mret (b :: bs)
  end.

(** ** Detection *)

(** The three-valued result of one detection cycle on a symbol: [checkSL]
    returns [true], returns [false], or throws. *)
Inductive detection := Protected | Unprotected | Unknown.

Definition detect (r : outcome bool) : detection :=
  match r with
  | Ok true => Protected
  | Ok false => Unprotected
  | Throw _ => Unknown
  end.

(** What the detector reads off an order of either list. *)
Record order_view := {
  ov_status : string;
  ov_side : string;
  ov_kind : string;
  ov_close_all : bool;
  ov_quantity : JS.number;
}.

Definition view_algo (o : AlgoOrder) : order_view :=
  {| ov_status := algoStatus o;
     ov_side := algo_side o;
     ov_kind := orderType o;
     ov_close_all := match algo_closePosition o with Some true => true | _ => false end;
     ov_quantity := JS.parseFloat (or_else (algo_quantity o) "0") |}.

Definition view_order (o : OpenOrder) : order_view :=
  {| ov_status := status o;
     ov_side := order_side o;
     ov_kind := type o;
     ov_close_all := match closePosition o with
                     | FlagBool b => b
                     | FlagString s => String.eqb s "true"
                     | FlagAbsent => false
                     end;
     ov_quantity := JS.parseFloat (or_else (origQty o) (or_else (quantity o) "0")) |}.

(** The protection predicate in the words of the specification: the order
    is active, on the protective side, of a stop kind, and closes the whole
    position or carries a strictly positive quantity. *)
Definition protects_spec (sd : PosSide) (v : order_view) : Prop :=
  ov_status v = "NEW"
  ∧ ov_side v = match sd with LONG => "SELL" | SHORT => "BUY" end
  ∧ (ov_kind v = "STOP" ∨ ov_kind v = "STOP_MARKET")
  ∧ (ov_close_all v = true ∨ JS.gt (ov_quantity v) JS.zero = true).

(** The answers that the exchange gives to the two fetches of a detection
    cycle started in state [st]. *)
Definition algo_answer (env : Env) (st : State) (sym : string) :=
  openAlgoOrders (exchange env) (requests st) sym.
Definition conv_answer (env : Env) (st : State) (sym : string) :=
  openOrders (exchange env) (S (requests st)) sym.

(** ** Protection state *)

(** The state of the process when it starts, the clock reading [t]. *)
Definition initial (t : Z) : State := mkState ∅ ∅ ∅ [] false 0 0 0 0 t.

(** The protection state of a symbol, as [printPositions] and
    [getStatusInfo] read it off the cache. *)
Definition protection (st : State) (sym : string) : detection :=
  match cache st !! sym with
  | Some s => if hasSL s then Protected else Unprotected
  | None => Unknown
  end.

(** The maps after the first loop of [check] ran over the keys [l]. *)
Definition drop_gone {V} (ps : list Position) (l : list string) (m : gmap string V) :=
  foldl (λ m k, if held ps k then m else delete k m) m l.

(** ** Effects of a computation *)

(** The thrown value is an [Error] object. *)
Definition is_error (e : error) : Prop :=
  match e with Error _ => True | ThrownNull => False end.

(** Every event that [m] emits satisfies [P], the state it leaves is
    related by [R] to the one it started in, and what it throws, if
    anything, is an [Error] object; whatever the environment. *)
Definition respects {A} (P : event → Prop) (R : State → State → Prop) (m : M A) : Prop :=
  ∀ env st,
    Forall P (m env st).2 ∧ R st (m env st).1.2
    ∧ ∀ e, (m env st).1.1 = Throw e → is_error e.

(** The monitor's own fields are left alone. *)
Definition same_monitor (st st' : State) : Prop :=
  positions st' = positions st ∧ paused st' = paused st ∧ cache st' = cache st
  ∧ errors st' = errors st.

(** Events other than the marker of a call to [closePosition]. *)
Definition not_marker (e : event) : Prop :=
  match e with EvClosePosition _ => False | _ => True end.

(** Events of the close protocol: the cancellations, the order, and the
    Telegram message that reports the outcome. *)
Definition close_event (e : event) : Prop :=
  match e with
  | EvCancelAllOrders _ | EvCancelAlgoOrder _ _ | EvMarketClose _ _ _
  | EvOpenAlgoOrders _ | EvTelegram _ | EvClosePosition _ | EvExchangeInfo => True
  | _ => False
  end.

(** Number of order submissions among the events. *)
Definition submissions (evs : list event) : nat :=
  length (List.filter (λ e, match e with EvMarketClose _ _ _ => true | _ => false end) evs).

(** What the body of the loop of [tick] does for one position. *)
Definition evaluates (evaluate : Position → M unit) : Prop :=
  ∀ pos env st,
    same_monitor st (evaluate pos env st).1.2
    ∧ if triggers (cfg env) pos then
        ∃ l msg evs, (evaluate pos env st).2 = EvLog l msg :: EvClosePosition pos :: evs
                     ∧ Forall not_marker evs
      else (evaluate pos env st).2 = [] ∧ (evaluate pos env st).1.1 = Ok ().

Definition is_log (e : event) : Prop :=
  match e with EvLog _ _ => True | _ => False end.

(** What [printPositions] of Guardian 4.0 writes for the snapshot of [st]. *)
Definition V4_printed (st : State) : list event :=
  if now st - lastPrint st <? 60000 then []
  else match positions st with
       | [] => [EvLog INFO "Нет открытых позиций"]
       | ps => map (λ pos, EvLog INFO (V4.position_line st pos)) ps
       end.

(** What [printPositions] of Guardian 3.0 writes for the snapshot of [st]. *)
Definition V3_printed (st : State) : list event :=
  match positions st with
  | [] => [EvLog INFO "Нет открытых позиций"]
  | ps => EvLog PLAIN "" :: map (λ pos, EvLog INFO (V3.position_line st pos)) ps
          ++ [EvLog PLAIN ""]
  end.

(** The state in which the loop of [tick] starts, once the positions [rs]
    came in. *)
Definition V4_fetched (rs : list PositionRisk) (st : State) : State :=
  let st1 := set_positions (parse_positions rs) (set_requests (S (requests st)) st) in
  if now st1 - lastPrint st1 <? 60000 then st1 else set_lastPrint (now st1) st1.

Definition V3_fetched (rs : list PositionRisk) (st : State) : State :=
  set_positions (parse_positions rs) (set_requests (S (requests st)) st).

(** ** Independence from the pause flag *)

Definition with_paused {A} (b : bool) (x : outcome A * State * list event) :
    outcome A * State * list event :=
  (x.1.1, set_paused b x.1.2, x.2).

(** [m2], run with the pause flag forced to [b], does what [m1] does, and
    leaves the flag at [b]. *)
Definition blind {A} (b : bool) (m1 m2 : M A) : Prop :=
  ∀ env st, m2 env (set_paused b st) = with_paused b (m1 env st).

(** Events other than an order submission. *)
Definition no_submit (e : event) : Prop :=
  match e with EvMarketClose _ _ _ => False | _ => True end.

Definition any_state (st st' : State) : Prop := True.

(** The Telegram texts among the events. *)
Definition telegrams (evs : list event) : list string :=
  omap (λ e, match e with EvTelegram text => Some text | _ => None end) evs.

(** ** Stages of [closePosition] *)

(** The rounding of the quantity, first step of [closePosition]. *)
Definition rounded (pos : Position) (env : Env) (st : State) :=
  roundQty (symbol pos) (JS.Math_abs (amt pos)) env st.

(** The cancellations, run once the rounding is done. *)
Definition V4_cancelled (pos : Position) (env : Env) (st : State) :=
  cancel_orders pos (mret ()) env (rounded pos env st).1.2.
Definition V3_cancelled (pos : Position) (env : Env) (st : State) :=
  cancel_orders pos (log INFO (symbol pos +:+ " - ордера отменены")) env
    (rounded pos env st).1.2.

(** The submission of the close order, run once the cancellations are done. *)
Definition V4_submitted (pos : Position) (qty : JS.number) (env : Env) (st : State) :=
  V4.submit pos qty env (V4_cancelled pos env st).1.2.
Definition V3_submitted (pos : Position) (qty : JS.number) (env : Env) (st : State) :=
  V3.submit pos qty env (V3_cancelled pos env st).1.2.

(** The text that Guardian 4.0 sends for a close order left with [result]. *)
Definition V4_notification (pos : Position) (result : OrderResult) : string :=
  if String.eqb (result_status result) "FILLED" then V4.closed_text pos result
  else if String.eqb (result_status result) "PARTIALLY_FILLED"
          || String.eqb (result_status result) "NEW"
  then V4.partial_text pos result
  else V4.unexpected_text pos result.

(** The console line of [retry] after the failed attempt [i] of a close. *)
Definition retry_line (pos : Position) (i : nat) : string :=
  "close " +:+ symbol pos +:+ " failed (" +:+ pretty i +:+ "/" +:+ pretty 3%nat
  +:+ "), retry in " +:+ JS.string_of_Z 500 +:+ "ms".

(** The answer of the exchange to the close order of [pos] when it is
    issued as request [k]. *)
Definition order_answer (env : Env) (pos : Position) (qty : JS.number) (k : nat) :=
  order (exchange env) k (symbol pos) (close_side pos) (JS.Number_toString qty).

Definition sent_order (pos : Position) (qty : JS.number) : event :=
  EvMarketClose (symbol pos) (close_side pos) (JS.Number_toString qty).

Definition any_event (e : event) : Prop := True.

Definition no_telegram (e : event) : Prop :=
  match e with EvTelegram _ => False | _ => True end.

(** ** Numbers, digit by digit *)

(** The unit in which every binary64 is an integer: [2^-1074]. *)
Definition grid : Z := 2 ^ 1074.

(** A finite binary64 in units of [1 / grid]. *)
Definition scaled (x : JS.number) : Z :=
  match x with
  | S754_finite _ m e => Zpos m * 2 ^ (e + 1074)
  | _ => 0
  end.

Fixpoint all_digits (s : string) : bool :=
  match s with
  | String c r => JS.is_digit c && all_digits r
  | EmptyString => true
  end.

(** Digits [s], their number [k] and the place [n] of the point that
    stand for the number [x]. *)
Definition denotes (x : JS.number) (c : Z * Z * Z) : Prop :=
  let '(s, k, n) := c in
  0 ≤ s ∧ Z.of_nat (String.length (JS.string_of_Z s)) = k
  ∧ JS.decimal_to_double false s (n - k) = x.

(** What [roundQty] returns for [x] at the precision [f]:
    [parseFloat(x.toFixed(f))]. *)
Definition rounded_to (f : nat) (x : JS.number) : JS.number :=
  JS.parseFloat (JS.toFixed x f).

(** The quantities: the numbers that [Math.abs] gives, a binary64 that is
    not negative, [NaN] included. *)
Definition is_size (x : JS.number) : bool :=
  match x with
  | S754_zero s | S754_infinity s => negb s
  | S754_nan => true
  | S754_finite s m e => negb s && bounded 53 1024 m e
  end.

(** The precision at which [roundQty] rounds for [sym] in the state [st]:
    [symbolInfo.get(sym) || 6]. *)
Definition precision_of (st : State) (sym : string) : nat :=
  match symbolInfo st !! sym with
  | Some (S p) => S p
  | _ => 6%nat
  end.

(** ** Sample inputs *)

Module Sample.

Definition btc_long : Position :=
  {| symbol := "BTCUSDT"; amt := JS.parseFloat "0.1";
     pnl := JS.parseFloat "-150"; side := LONG |}.


(** A conditional stop that closes the whole position. *)
Definition stop_algo : AlgoOrder :=
  {| algoId := 77; algo_symbol := "BTCUSDT"; algo_side := "SELL";
     algo_quantity := Some "0"; orderType := "STOP_MARKET"; algoStatus := "NEW";
     algo_closePosition := Some true |}.

(** A conventional stop with a quantity. *)
Definition stop_order : OpenOrder :=
  {| status := "NEW"; order_side := "SELL"; type := "STOP_MARKET";
     closePosition := FlagString "false"; origQty := Some "0.100"; quantity := None |}.

Definition risk : list PositionRisk :=
  [ {| pr_symbol := "BTCUSDT"; positionAmt := "0.1"; unRealizedProfit := "-150" |};
    {| pr_symbol := "ETHUSDT"; positionAmt := "-2"; unRealizedProfit := "12.5" |};
    {| pr_symbol := "XRPUSDT"; positionAmt := "0.000"; unRealizedProfit := "0" |} ].

Definition info : list ExchangeInfoSymbol :=
  [ {| info_symbol := "BTCUSDT";
       filters := [ {| filterType := "PRICE_FILTER"; stepSize := None |};
                    {| filterType := "LOT_SIZE"; stepSize := Some "0.001" |} ] |};
    {| info_symbol := "SHIBUSDT";
       filters := [ {| filterType := "LOT_SIZE"; stepSize := Some "1" |} ] |} ].

(** An exchange that answers every request; the order is filled. *)
Definition calm : Exchange :=
  {| positionRisk := λ _, Body risk;
     openAlgoOrders := λ _ _, Body (Some [stop_algo]);
     openOrders := λ _ _, Body [];
     allOpenOrders := λ _ _, Body ();
     algoOrder := λ _ _ _, Body ();
     order := λ _ _ _ _, Body {| orderId := 12345; result_status := "FILLED" |};
     exchangeInfo := λ _, Body info;
     sendMessage := λ _ _, Body true |}.

(** The conditional orders cannot be fetched; a conventional stop exists. *)
Definition algo_down : Exchange :=
  {| positionRisk := λ _, Body risk;
     openAlgoOrders := λ _ _, Failed ("HTTP 502: Bad Gateway");
     openOrders := λ _ _, Body [stop_order];
     allOpenOrders := λ _ _, Body ();
     algoOrder := λ _ _ _, Body ();
     order := λ _ _ _ _, Body {| orderId := 12345; result_status := "FILLED" |};
     exchangeInfo := λ _, Body info;
     sendMessage := λ _ _, Body true |}.

(** Neither order list can be fetched and every order is rejected. *)
Definition orders_down : Exchange :=
  {| positionRisk := λ _, Body risk;
     openAlgoOrders := λ _ _, Failed ("HTTP 502: Bad Gateway");
     openOrders := λ _ _, Failed ("HTTP 502: Bad Gateway");
     allOpenOrders := λ _ _, Failed ("HTTP 502: Bad Gateway");
     algoOrder := λ _ _ _, Failed ("HTTP 502: Bad Gateway");
     order := λ _ _ _ _, Failed ("HTTP 503: Service Unavailable");
     exchangeInfo := λ _, Body info;
     sendMessage := λ _ _, Body true |}.

(** The order is accepted and left with the given status. *)
Definition answering (st : string) : Exchange :=
  {| positionRisk := λ _, Body risk;
     openAlgoOrders := λ _ _, Body (Some [stop_algo]);
     openOrders := λ _ _, Body [];
     allOpenOrders := λ _ _, Body ();
     algoOrder := λ _ _ _, Body ();
     order := λ _ _ _ _, Body {| orderId := 12345; result_status := st |};
     exchangeInfo := λ _, Body info;
     sendMessage := λ _ _, Body true |}.

Definition settings : Config :=
  {| maxLossUsd := JS.parseFloat "100"; dryRun := false; intervalMs := 1000;
     telegramInterval := PInt 30000; configured := true |}.

Definition env (ex : Exchange) : Env := {| cfg := settings; exchange := ex |}.

(** The process at start, the clock reading some time in November 2023. *)
Definition start : State := initial 1700000000000.

(** BTCUSDT is held and was found protected five seconds ago. *)
Definition guarded : State :=
  set_positions [btc_long]
    (set_cache (<["BTCUSDT" := {| hasSL := true; lastCheck := 1699999995000 |}]>) start).

End Sample.

(** More sample states. *)
Module Sample2.

(** The process paused through [cmdPause]. *)
Definition paused_start : State := set_paused true Sample.start.

(** The state once the lot steps of [Sample.info] are recorded. *)
Definition loaded : State :=
  set_symbolInfo (λ m, fold_left load_symbol Sample.info m) Sample.start.

Definition btc_qty : JS.number := JS.parseFloat "0.1".

End Sample2.

(** * More of the program *)

(** ** The healthcheck of Guardian 3.0 *)

Record Health := { healthy : bool; health_lastTick : Z; health_errors : nat }.

(** [PositionMonitor.getHealth]; [running] is the flag that [start] sets
    and [stop] clears. *)
Definition getHealth (running : bool) (st : State) : Health :=
  {| healthy := running && (errors st <? 10)%nat;
     health_lastTick := lastTick st;
     health_errors := errors st |}.

(** The status of the healthcheck's answer; [guardian] is [None] until
    [main] has built it. *)
Definition healthcheck (guardian : option (bool * State)) : Z :=
  match guardian with
  | Some (running, st) => if healthy (getHealth running st) then 200 else 503
  | None => 503
  end.

(** [n] turns of the loop of [start]. *)
Fixpoint turns (iteration : M unit) (n : nat) : M unit :=
  match n with
  | O => mret ()
  | S n' => iteration;; turns iteration n'
  end.

(** ** The Telegram bot of Guardian 4.0 *)

Module Bot.

(** What [handleUpdate] reads of an update: [message.text],
    [message.chat.id.toString()] (Telegram gives every message its chat),
    [callback_query.id] and [callback_query.data]. *)
Record Message := { text : option string; chat : string }.
Record Callback := { callback_id : string; data : option string }.
Record Update := { message : option Message; callback_query : option Callback }.

(** The requests of the bot: those of the monitor's Telegram object, and
    [answerCallbackQuery]. *)
Inductive bot_event :=
  | Sent (e : event)
  | EvAnswerCallbackQuery (id : string).

Definition B (A : Type) : Type := Env → State → outcome A * State * list bot_event.

Definition lift {A} (m : M A) : B A := λ env st,
  let '(r, st', evs) := m env st in (r, st', map Sent evs).

(** [try { await fetch(.../answerCallbackQuery, ...) } catch (e) {}]: one
    request, whose answer is not read and whose failure is swallowed. *)
Definition answerCallbackQuery (id : string) : B unit := λ _ st,
  (Ok (), set_requests (S (requests st)) st, [EvAnswerCallbackQuery id]).

Definition then_ {A} (m : B unit) (k : B A) : B A := λ env st,
  match m env st with
  | (Ok _, st1, ev1) => let '(r, st2, ev2) := k env st1 in (r, st2, ev1 ++ ev2)
  | (Throw e, st1, ev1) => (Throw e, st1, ev1)
  end.

Definition skip : B unit := λ _ st, (Ok (), st, []).

(** The inline keyboard that goes with the text of a command is left
    out, here as in [cmdStatus], [cmdPause] and [cmdResume]. *)
Definition cmdHelp : M unit :=
  env ← ask;
  send V4.tag ("<b>Loss Guardian 4.0</b>" +:+ nl +:+ nl +:+
               "<b>Команды:</b>" +:+ nl +:+
               "/status - статус и позиции" +:+ nl +:+
               "/pause - приостановить" +:+ nl +:+
               "/resume - возобновить" +:+ nl +:+ nl +:+
               "Max Loss: " +:+ JS.Number_toString (maxLossUsd (cfg env)) +:+ " USDT");;
  mret ().

(** [if (!data) return]: an absent or empty [data] is ignored. *)
Definition handleCallback (callback : Callback) : B unit :=
  match data callback with
  | Some (String c r) =>
      let data := String c r in
      then_ (answerCallbackQuery (callback_id callback))
        (if String.eqb data "status" then lift V4.cmdStatus
         else if String.eqb data "pause" then lift V4.cmdPause
         else if String.eqb data "resume" then lift V4.cmdResume
         else skip)
  | _ => skip
  end.

Section Dispatch.

(** [cfg.telegramChatId] *)
Variable telegramChatId : string.
(** [text.trim().split(/\s+/)[0].toLowerCase()] *)
Variable command_of : string → string.

(** A pressed button is handled first; a message counts only with a
    non-empty text and from the configured chat. *)
Definition handleUpdate (update : Update) : B unit :=
  match callback_query update with
  | Some callback => handleCallback callback
  | None =>
      match message update with
      | Some {| text := Some (String c r); chat := chatId |} =>
          if negb (String.eqb chatId telegramChatId) then skip
          else
            let cmd := command_of (String c r) in
            if String.eqb cmd "/start" || String.eqb cmd "/help" then lift cmdHelp
            else if String.eqb cmd "/status" then lift V4.cmdStatus
            else if String.eqb cmd "/pause" then lift V4.cmdPause
            else if String.eqb cmd "/resume" then lift V4.cmdResume
            else skip
      | _ => skip
      end
  end.

End Dispatch.

End Bot.

(** * More statements: auxiliary definitions *)


(** The state once [ms] milliseconds have passed. *)
Definition later (ms : Z) (st : State) : State := set_now (now st + ms) st.


(** The fields that only the loop of [start] and the commands write. *)
Definition same_counters (st st' : State) : Prop :=
  errors st' = errors st ∧ lastTick st' = lastTick st ∧ paused st' = paused st.



(** What a dry run may do: read the positions and the instrument
    metadata, and write to the console. *)
Definition dry_event (e : event) : Prop :=
  match e with
  | EvPositionRisk | EvExchangeInfo | EvLog _ _ | EvClosePosition _ => True
  | _ => False
  end.

(** Every order among the events is the close order of [pos] for [qty]. *)
Definition only_order (pos : Position) (qty : JS.number) (e : event) : Prop :=
  match e with
  | EvMarketClose _ _ _ => e = sent_order pos qty
  | _ => True
  end.

(** The conditional orders that the events cancel. *)
Definition cancelled (evs : list event) : list Z :=
  omap (λ e, match e with EvCancelAlgoOrder _ id => Some id | _ => None end) evs.

(** The conditional orders that [closePosition] sets out to cancel. *)
Definition active_ids (orders : list AlgoOrder) : list Z :=
  map algoId (List.filter (λ o, String.eqb (algoStatus o) "NEW") orders).

(** The loop over the conditional orders in [closePosition]. *)
Definition cancel_each (sym : string) (orders : list AlgoOrder) : M unit :=
  for_of orders
    (λ o, if String.eqb (algoStatus o) "NEW" then cancelAlgoOrder sym (algoId o) else mret ()).

(** The Telegram texts of the alert for a position without a stop. *)
Definition V4_alert (pos : Position) : string :=
  "⚠️ <b>" +:+ symbol pos +:+ " НЕТ SL</b>" +:+ nl +:+
  side_name (side pos) +:+ " | " +:+ JS.toFixed (pnl pos) 2 +:+ "$".

Definition V3_alert (pos : Position) : string :=
  "⚠️ <b>" +:+ symbol pos +:+ " БЕЗ СТОП-ЛОССА!</b>" +:+ nl +:+ nl +:+
  "Сторона: " +:+ side_name (side pos) +:+ nl +:+
  "Размер: " +:+ JS.Number_toString (JS.Math_abs (amt pos)) +:+ nl +:+
  "PnL: " +:+ JS.toFixed (pnl pos) 2 +:+ " USDT" +:+ nl +:+ nl +:+
  "Установите SL!".

(** The symbols whose conditional orders are fetched, in order. *)
Definition checked (evs : list event) : list string :=
  omap (λ e, match e with EvOpenAlgoOrders sym => Some sym | _ => None end) evs.

(** The console line of [retry] after the failed attempt [i]. *)
Definition attempt_line (name : string) (i attempts : nat) (delayMs : Z) : string :=
  name +:+ " failed (" +:+ pretty i +:+ "/" +:+ pretty attempts
  +:+ "), retry in " +:+ JS.string_of_Z delayMs +:+ "ms".

(** What [k] failed attempts of the request [ev] leave behind, the first
    of them being attempt [i]: each is the request, the warning and the
    pause. *)
Fixpoint failed_attempts (ev : event) (name : string) (attempts : nat) (delayMs : Z)
    (i k : nat) : list event :=
  match k with
  | O => []
  | S k' =>
      ev :: EvLog WARN (attempt_line name i attempts delayMs) :: EvSleep delayMs
         :: failed_attempts ev name attempts delayMs (S i) k'
  end.

(** The state after [k] failed attempts and one more request. *)
Definition retried (k : nat) (delayMs : Z) (st : State) : State :=
  set_requests (S (requests st + k)) (set_now (now st + Z.of_nat k * delayMs) st).

(** The string holds no dot. *)
Fixpoint no_dot (s : string) : bool :=
  match s with
  | EmptyString => true
  | String c r => negb (Ascii.eqb c ".") && no_dot r
  end.

(** The lot step of an instrument: the [stepSize] of its first
    [LOT_SIZE] filter, when there is one and it is not empty. *)
Definition lot_step (s : ExchangeInfoSymbol) : option string :=
  match List.find (λ f, String.eqb (filterType f) "LOT_SIZE") (filters s) with
  | Some lot =>
      match stepSize lot with
      | Some (String c r) => Some (String c r)
      | _ => None
      end
  | None => None
  end.

(** Every position fetch is refused. *)
Definition outage (env : Env) : Prop :=
  ∀ k, ∃ msg, positionRisk (exchange env) k = Failed msg.

(** What an outage leaves of the state after [n] turns. *)
Definition outage_after (n : nat) (st st' : State) : Prop :=
  errors st' = (errors st + n)%nat ∧ requests st' = (requests st + n)%nat
  ∧ positions st' = positions st ∧ cache st' = cache st ∧ lastTick st' = lastTick st.

(** The state after a command of the bot: the flag as the command leaves
    it, and one more request when Telegram is configured. *)
Definition commanded (flag : bool) (env : Env) (st : State) : State :=
  set_paused flag
    (if configured (cfg env) then set_requests (S (requests st)) st else st).

(** What a callback with the data [d] does to the state. *)
Definition pressed (d : string) (env : Env) (st : State) : State :=
  let st1 := set_requests (S (requests st)) st in
  if String.eqb d "status" then commanded (paused st) env st1
  else if String.eqb d "pause" then commanded true env st1
  else if String.eqb d "resume" then commanded false env st1
  else st1.

(** What the command word [cmd] does to the state. *)
Definition typed (cmd : string) (env : Env) (st : State) : State :=
  if String.eqb cmd "/start" || String.eqb cmd "/help" then commanded (paused st) env st
  else if String.eqb cmd "/status" then commanded (paused st) env st
  else if String.eqb cmd "/pause" then commanded true env st
  else if String.eqb cmd "/resume" then commanded false env st
  else st.

(** The update is a command of the owner's chat, or a pressed button. *)
Definition asks_for (chatId : string) (command_of : string → string) (u : Bot.Update)
    (flag : bool) : Prop :=
  match Bot.callback_query u with
  | Some c => Bot.data c = Some (if flag then "pause" else "resume")
  | None =>
      ∃ m t, Bot.message u = Some m ∧ Bot.text m = Some t ∧ t ≠ ""
             ∧ Bot.chat m = chatId
             ∧ command_of t = (if flag then "/pause" else "/resume")
  end.

(** ** Independence from the answers of Telegram *)

(** Two environments that differ at most in what Telegram answers. *)
Definition same_market (env1 env2 : Env) : Prop :=
  cfg env1 = cfg env2
  ∧ (∀ n, positionRisk (exchange env1) n = positionRisk (exchange env2) n)
  ∧ (∀ n s, openAlgoOrders (exchange env1) n s = openAlgoOrders (exchange env2) n s)
  ∧ (∀ n s, openOrders (exchange env1) n s = openOrders (exchange env2) n s)
  ∧ (∀ n s, allOpenOrders (exchange env1) n s = allOpenOrders (exchange env2) n s)
  ∧ (∀ n s i, algoOrder (exchange env1) n s i = algoOrder (exchange env2) n s i)
  ∧ (∀ n s sd q, order (exchange env1) n s sd q = order (exchange env2) n s sd q)
  ∧ (∀ n, exchangeInfo (exchange env1) n = exchangeInfo (exchange env2) n).

(** The events other than console lines. *)
Definition silent (evs : list event) : list event :=
  omap (λ e, match e with EvLog _ _ => None | _ => Some e end) evs.

Definition same_outcome {A} (R : A → A → Prop) (r1 r2 : outcome A) : Prop :=
  match r1, r2 with
  | Ok a, Ok b => R a b
  | Throw e1, Throw e2 => e1 = e2
  | _, _ => False
  end.

(** Run in two environments with the same market, [m1] and [m2] leave
    the same state and the same events but for console lines, and return
    values related by [R] or throw the same error. *)
Definition deaf {A} (R : A → A → Prop) (m1 m2 : M A) : Prop :=
  ∀ env1 env2 st, same_market env1 env2 →
    (m1 env1 st).1.2 = (m2 env2 st).1.2
    ∧ silent (m1 env1 st).2 = silent (m2 env2 st).2
    ∧ same_outcome R (m1 env1 st).1.1 (m2 env2 st).1.1.

Definition any_value {A} (a b : A) : Prop := True.

(** The two runs end alike: same result, same state, same events but for
    console lines. *)
Definition alike {A} (o1 o2 : outcome A * State * list event) : Prop :=
  o1.1 = o2.1 ∧ silent o1.2 = silent o2.2.

(** ** More sample inputs *)

Module Sample3.

(** The settings of a dry run. *)
Definition dry_settings : Config :=
  {| maxLossUsd := JS.parseFloat "100"; dryRun := true; intervalMs := 1000;
     telegramInterval := PInt 30000; configured := true |}.

Definition dry_env : Env := {| cfg := dry_settings; exchange := Sample.calm |}.

(** The instrument metadata cannot be fetched. *)
Definition info_down : Exchange :=
  {| positionRisk := λ _, Body Sample.risk;
     openAlgoOrders := λ _ _, Body (Some [Sample.stop_algo]);
     openOrders := λ _ _, Body [];
     allOpenOrders := λ _ _, Body ();
     algoOrder := λ _ _ _, Body ();
     order := λ _ _ _ _, Body {| orderId := 12345; result_status := "FILLED" |};
     exchangeInfo := λ _, Failed "HTTP 500: Internal Server Error";
     sendMessage := λ _ _, Body true |}.

(** No stop is placed on any symbol. *)
Definition bare : Exchange :=
  {| positionRisk := λ _, Body Sample.risk;
     openAlgoOrders := λ _ _, Body (Some []);
     openOrders := λ _ _, Body [];
     allOpenOrders := λ _ _, Body ();
     algoOrder := λ _ _ _, Body ();
     order := λ _ _ _ _, Body {| orderId := 12345; result_status := "FILLED" |};
     exchangeInfo := λ _, Body Sample.info;
     sendMessage := λ _ _, Body true |}.

(** Every position fetch is refused. *)
Definition closed_door : Exchange :=
  {| positionRisk := λ _, Failed "HTTP 503: Service Unavailable";
     openAlgoOrders := λ _ _, Body (Some [Sample.stop_algo]);
     openOrders := λ _ _, Body [];
     allOpenOrders := λ _ _, Body ();
     algoOrder := λ _ _ _, Body ();
     order := λ _ _ _ _, Body {| orderId := 12345; result_status := "FILLED" |};
     exchangeInfo := λ _, Body Sample.info;
     sendMessage := λ _ _, Body true |}.

(** The exchange of [Sample.calm], with a Telegram that cannot be reached. *)
Definition telegram_down : Exchange :=
  {| positionRisk := λ _, Body Sample.risk;
     openAlgoOrders := λ _ _, Body (Some [Sample.stop_algo]);
     openOrders := λ _ _, Body [];
     allOpenOrders := λ _ _, Body ();
     algoOrder := λ _ _ _, Body ();
     order := λ _ _ _ _, Body {| orderId := 12345; result_status := "FILLED" |};
     exchangeInfo := λ _, Body Sample.info;
     sendMessage := λ _ _, Failed "fetch failed" |}.

(** BTCUSDT is held; ETHUSDT was closed since it was found without a stop
    and alerted about, ten seconds ago. *)
Definition departed : State :=
  set_lastNotify (<["ETHUSDT" := 1699999990000]>)
    (set_cache (<["ETHUSDT" := {| hasSL := false; lastCheck := 1699999990000 |}]>)
       Sample.guarded).

(** The close order of [Sample.btc_long], as a request. *)
Definition btc_close : M OrderResult := marketClose "BTCUSDT" "SELL" "0.1".

(** The interval is set above what the clock reads (about 63 years). *)
Definition patient_settings : Config :=
  {| maxLossUsd := JS.parseFloat "100"; dryRun := false; intervalMs := 1000;
     telegramInterval := PInt 2000000000000; configured := true |}.

Definition patient_env : Env := {| cfg := patient_settings; exchange := Sample.calm |}.

(** The interval is set to a text that is no numeral. *)
Definition nan_settings : Config :=
  {| maxLossUsd := JS.parseFloat "100"; dryRun := false; intervalMs := 1000;
     telegramInterval := PNaN; configured := true |}.

Definition nan_env : Env := {| cfg := nan_settings; exchange := Sample.calm |}.

(** A conditional order of BTCUSDT with the given id and status. *)
Definition algo (id : Z) (status : string) : AlgoOrder :=
  {| algoId := id; algo_symbol := "BTCUSDT"; algo_side := "SELL";
     algo_quantity := Some "0"; orderType := "STOP_MARKET"; algoStatus := status;
     algo_closePosition := Some true |}.

(** Four conditional orders, one of them not active; the exchange refuses
    to cancel the order 12. *)
Definition stubborn : Exchange :=
  {| positionRisk := λ _, Body Sample.risk;
     openAlgoOrders := λ _ _, Body (Some [algo 11 "NEW"; algo 10 "CANCELED";
                                          algo 12 "NEW"; algo 13 "NEW"]);
     openOrders := λ _ _, Body [];
     allOpenOrders := λ _ _, Body ();
     algoOrder := λ _ _ id, if id =? 12 then Failed "HTTP 400: Bad Request" else Body ();
     order := λ _ _ _ _, Body {| orderId := 12345; result_status := "FILLED" |};
     exchangeInfo := λ _, Body Sample.info;
     sendMessage := λ _ _, Body true |}.

(** The button [pause], pressed in a chat that is not the configured one. *)
Definition pause_button : Bot.Update :=
  {| Bot.message := Some {| Bot.text := Some "hello"; Bot.chat := "999" |};
     Bot.callback_query := Some {| Bot.callback_id := "cb1"; Bot.data := Some "pause" |} |}.

End Sample3.

(** * Properties *)

(** ** The throttle *)

Lemma less_than_not_at_least x y : less_than x y = true → at_least x y = false.
Proof.
  destruct y as [i|[]|]; cbn; try done.
  intros H%Z.ltb_lt. apply Z.leb_gt. lia.
Qed.

Lemma shouldNotify_true env st sym :
  at_least (now st - default 0 (lastNotify st !! sym)) (telegramInterval (cfg env)) = true →
  shouldNotify sym env st = (Ok true, set_lastNotify (<[sym := now st]>) st, []).
Proof.
  intros H. unfold shouldNotify, mbind, M_bind, bind, ask, get, modify, mret, M_ret, ret.
  simpl. by rewrite H.
Qed.

Lemma shouldNotify_false env st sym :
  at_least (now st - default 0 (lastNotify st !! sym)) (telegramInterval (cfg env)) = false →
  shouldNotify sym env st = (Ok false, st, []).
Proof.
  intros H. unfold shouldNotify, mbind, M_bind, bind, ask, get, modify, mret, M_ret, ret.
  simpl. by rewrite H.
Qed.

Lemma clearSymbol_run env st sym :
  clearSymbol sym env st = (Ok (), set_lastNotify (delete sym) st, []).
Proof. reflexivity. Qed.

(** While the entry of [sym] holds [t1] and every call comes less than one
    interval after [t1], no query about [sym] is answered with [true]. *)
Lemma notify_all_quiet env sym t1 calls :
  ∀ st bs st' evs,
    lastNotify st !! sym = Some t1 →
    Forall (λ c, less_than (c.2 - t1) (telegramInterval (cfg env)) = true) calls →
    notify_all calls env st = (Ok bs, st', evs) →
    ∀ i t, calls !! i = Some (sym, t) → bs !! i = Some false.
Proof.
  induction calls as [|[s t0] rest IH]; intros st bs st' evs Hl Hall Hrun i t Hi.
  - by destruct i.
  - apply Forall_cons in Hall as [Hc Hrest]. simpl in Hc.
    cbn [notify_all] in Hrun.
    unfold mbind, M_bind, bind in Hrun. cbn [modify] in Hrun.
    destruct (decide (s = sym)) as [->|Hne].
    + rewrite shouldNotify_false in Hrun
        by (cbn; rewrite Hl; cbn; by apply less_than_not_at_least).
      destruct (notify_all rest env (set_now t0 st)) as [[[bs0|e] st2] ev2] eqn:Hr;
        cbn in Hrun; [|done].
      injection Hrun as <- <- <-.
      destruct i as [|i]; [done|]. cbn in Hi |- *.
      eapply (IH (set_now t0 st)); eauto.
    + destruct (shouldNotify s env (set_now t0 st)) as [[[b|e] st1] ev1] eqn:Hs.
      2:{ done. }
      assert (lastNotify st1 !! sym = Some t1) as Hl1.
      { revert Hs. unfold shouldNotify, mbind, M_bind, bind, ask, get, modify, mret, M_ret, ret.
        cbn. destruct (at_least _ _); intros [= <- <- <-]; cbn; [|done].
        by rewrite lookup_insert_ne. }
      destruct (notify_all rest env st1) as [[[bs0|e] st2] ev2] eqn:Hr;
        cbn in Hrun; [|done].
      injection Hrun as <- <- <-.
      destruct i as [|i]; [cbn in Hi; congruence|]. cbn in Hi |- *.
      eapply (IH st1); eauto.
Qed.

(** With the clock no earlier than the interval, a symbol without a
    recent record is due. *)
Lemma due_without_recent_record env st sym i :
  telegramInterval (cfg env) = PInt i → i ≤ now st →
  ¬ recently_notified env st sym →
  at_least (now st - default 0 (lastNotify st !! sym)) (telegramInterval (cfg env)) = true.
Proof.
  intros Hi Hnow Hrec. rewrite Hi. cbn. apply Z.leb_le.
  destruct (lastNotify st !! sym) as [t|] eqn:Ht; cbn; [|lia].
  destruct (Z.le_gt_cases i (now st - t)); [done|].
  exfalso. apply Hrec. exists t. split; [done|]. rewrite Hi. cbn. apply Z.ltb_lt. lia.
Qed.

Lemma not_due_with_recent_record env st sym :
  recently_notified env st sym →
  at_least (now st - default 0 (lastNotify st !! sym)) (telegramInterval (cfg env)) = false.
Proof. intros (t & -> & Ht). by apply less_than_not_at_least. Qed.

(** C8, as amended.  [shouldNotify(X)] answers [true] and records the
    current time exactly when [now - last >= telegramInterval], where
    [last] is the time recorded for [X] and 0 when there is none;
    otherwise, and always when the interval is NaN, it answers [false]
    and leaves the state as it is.  When the interval is an integer no
    greater than the clock (epoch milliseconds), this is: it answers
    [true] exactly when no alert for [X] was recorded within the
    interval.  After a [true], no later query about [X] made within the
    interval is answered [true].  Right after [clearSymbol(X)] the next
    query is answered [true] exactly when the clock reads no less than
    the interval. *)
Theorem shouldNotify_throttles env st sym :
  let since := now st - default 0 (lastNotify st !! sym) in
  let interval := telegramInterval (cfg env) in
  (at_least since interval = true →
     shouldNotify sym env st = (Ok true, set_lastNotify (<[sym := now st]>) st, []))
  ∧ (at_least since interval = false → shouldNotify sym env st = (Ok false, st, []))
  ∧ (interval = PNaN → shouldNotify sym env st = (Ok false, st, []))
  ∧ (∀ i, interval = PInt i → i ≤ now st →
       (¬ recently_notified env st sym →
          shouldNotify sym env st = (Ok true, set_lastNotify (<[sym := now st]>) st, []))
       ∧ (recently_notified env st sym → shouldNotify sym env st = (Ok false, st, [])))
  ∧ (∀ st1 evs calls bs st2 evs2,
       shouldNotify sym env st = (Ok true, st1, evs) →
       Forall (λ c, less_than (c.2 - now st) interval = true) calls →
       notify_all calls env st1 = (Ok bs, st2, evs2) →
       ∀ i t, calls !! i = Some (sym, t) → bs !! i = Some false)
  ∧ (∀ st1, clearSymbol sym env st = (Ok (), st1, []) →
       (at_least (now st) interval = true →
          ∃ st2, shouldNotify sym env st1 = (Ok true, st2, [])
                 ∧ lastNotify st2 !! sym = Some (now st))
       ∧ (at_least (now st) interval = false →
          shouldNotify sym env st1 = (Ok false, st1, []))).
Proof.
  cbv zeta. split; [apply shouldNotify_true|]. split; [apply shouldNotify_false|].
  split; [|split; [|split]].
  - intros HN. apply shouldNotify_false. by rewrite HN.
  - intros i Hi Hnow. split.
    + intros Hrec. apply shouldNotify_true. by apply due_without_recent_record with i.
    + intros Hrec. apply shouldNotify_false. by apply not_due_with_recent_record.
  - intros st1 evs calls bs st2 evs2 Htrue Hall Hrun i t Hi.
    assert (lastNotify st1 !! sym = Some (now st)) as Hl.
    { revert Htrue. unfold shouldNotify, mbind, M_bind, bind, ask, get, modify, mret, M_ret, ret.
      cbn. destruct (at_least _ _); intros [= <- <-]; cbn. by rewrite lookup_insert_eq. }
    eapply notify_all_quiet; eauto.
  - intros st1 [= <-]. split.
    + intros Hdue. eexists. split.
      * apply shouldNotify_true. cbn. rewrite lookup_delete_eq. cbn.
        by replace (now st - 0) with (now st) by lia.
      * cbn. by rewrite lookup_insert_eq.
    + intros Hdue. apply shouldNotify_false. cbn. rewrite lookup_delete_eq. cbn.
      by replace (now st - 0) with (now st) by lia.
Qed.

(** ** Effects of computations *)

Section Respects.
Context (P : event → Prop) (R : State → State → Prop).
Context (R_refl : ∀ st, R st st) (R_trans : ∀ a b c, R a b → R b c → R a c).

Lemma respects_ret {A} (a : A) : respects P R (mret a).
Proof. intros env st. cbn. repeat split; auto. done. Qed.

Lemma respects_throw {A} e : is_error e → respects P R (throw (A:=A) e).
Proof. intros He env st. cbn. repeat split; auto. by intros ? [= <-]. Qed.

Lemma respects_get : respects P R get.
Proof. intros env st. cbn. repeat split; auto. done. Qed.

Lemma respects_ask : respects P R ask.
Proof. intros env st. cbn. repeat split; auto. done. Qed.

Lemma respects_emit e : P e → respects P R (emit e).
Proof. intros He env st. cbn. repeat split; auto. done. Qed.

Lemma respects_log l msg : P (EvLog l msg) → respects P R (log l msg).
Proof. apply respects_emit. Qed.

Lemma respects_modify f : (∀ st, R st (f st)) → respects P R (modify f).
Proof. intros Hf env st. cbn. repeat split; auto. done. Qed.

Lemma respects_http {A} ev (answer : Exchange → nat → response A) :
  P ev → (∀ st n, R st (set_requests n st)) → respects P R (http ev answer).
Proof.
  intros He Hr env st. cbn. repeat split; auto.
  destruct (answer _ _); cbn; [done|]. by intros ? [= <-].
Qed.

Lemma respects_bind {A B} (m : M A) (k : A → M B) :
  respects P R m → (∀ a, respects P R (k a)) → respects P R (m ≫= k).
Proof.
  intros Hm Hk env st. unfold mbind, M_bind, bind.
  destruct (Hm env st) as (H1 & H2 & H3).
  destruct (m env st) as [[[a|e] st1] ev1]; cbn in *.
  2:{ repeat split; auto. intros ? [= <-]. by apply H3. }
  destruct (Hk a env st1) as (H4 & H5 & H6).
  destruct (k a env st1) as [[r st2] ev2]; cbn in *.
  split; [by apply Forall_app|]. split; [eauto | done].
Qed.

Lemma respects_try_catch {A} (m : M A) (h : error → M A) :
  respects P R m → (∀ e, is_error e → respects P R (h e)) →
  respects P R (try_catch m h).
Proof.
  intros Hm Hh env st. unfold try_catch.
  destruct (Hm env st) as (H1 & H2 & H3).
  destruct (m env st) as [[[a|e] st1] ev1]; cbn in *; [by repeat split; auto|].
  destruct (Hh e (H3 e eq_refl) env st1) as (H4 & H5 & H6).
  destruct (h e env st1) as [[r st2] ev2]; cbn in *.
  split; [by apply Forall_app|]. split; [eauto | done].
Qed.

Lemma respects_for_of {A} (l : list A) (f : A → M unit) :
  (∀ x, respects P R (f x)) → respects P R (for_of l f).
Proof.
  intros Hf. induction l as [|x l IH]; cbn [for_of].
  - apply respects_ret.
  - apply respects_bind; auto.
Qed.

Lemma respects_message_of e : respects P R (message_of e).
Proof. destruct e; [apply respects_ret | by apply respects_throw]. Qed.
End Respects.

(** Proves [respects P R m] by following the structure of [m]; the side
    conditions on single events and state updates are left to [tac]. *)
Ltac respects_step tac :=
  lazymatch goal with
  | |- respects _ _ (mbind _ _) => apply respects_bind; [solve [auto].. | | intros ?]
  | |- respects _ _ (try_catch _ _) =>
      apply respects_try_catch; [solve [auto].. | | intros ? ?]
  | |- respects _ _ (for_of _ _) => apply respects_for_of; [solve [auto].. | intros ?]
  | |- respects _ _ (mret _) => apply respects_ret; solve [auto]
  | |- respects _ _ (throw _) => apply respects_throw; solve [auto | exact I]
  | |- respects _ _ get => apply respects_get; solve [auto]
  | |- respects _ _ ask => apply respects_ask; solve [auto]
  | |- respects _ _ (message_of _) => apply respects_message_of; solve [auto]
  | |- respects _ _ (log _ _) => apply respects_log; [solve [auto].. | tac]
  | |- respects _ _ (emit _) => apply respects_emit; [solve [auto].. | tac]
  | |- respects _ _ (modify _) => apply respects_modify; [solve [auto].. | tac]
  | |- respects _ _ (http _ _) => apply respects_http; [solve [auto].. | tac | tac]
  | |- respects _ _ (match ?x with _ => _ end) => destruct x
  | |- respects _ _ (let _ := _ in _) => cbv zeta
  | |- respects _ _ _ => solve [auto]
  end.

Ltac respects_auto tac := repeat respects_step tac.

(** ** Detection *)

Ltac run :=
  unfold mbind, M_bind, bind, try_catch, mret, M_ret, ret, throw, get, ask,
    modify, emit, http, log in *; cbn in *.

(** What [checkSL] does, by the answers to its two fetches. *)
Lemma checkSL_run msg sym sd env st :
  let st1 := set_requests (S (requests st)) st in
  let st2 := set_requests (S (S (requests st))) st in
  let ev1 := [EvOpenAlgoOrders sym] in
  let ev2 := [EvOpenAlgoOrders sym; EvOpenOrders sym] in
  let found1 := match algo_answer env st sym with
                | Body body => existsb (algo_protects (expected_side sd)) (default [] body)
                | Failed _ => false
                end in
  checkSL msg sym sd env st =
    if found1 then (Ok true, st1, ev1)
    else match conv_answer env st sym with
         | Body os =>
             if existsb (order_protects (expected_side sd)) os then (Ok true, st2, ev2)
             else match algo_answer env st sym with
                  | Body _ => (Ok false, st2, ev2)
                  | Failed _ => (Throw (Error msg), st2, ev2)
                  end
         | Failed _ => (Throw (Error msg), st2, ev2)
         end.
Proof.
  unfold checkSL, getAlgoOrders, getOpenOrders, algo_answer, conv_answer. run.
  destruct (openAlgoOrders (exchange env) (requests st) sym) as [body|e]; cbn.
  - destruct (existsb _ (default [] body)); cbn; [done|].
    destruct (openOrders (exchange env) (S (requests st)) sym) as [os|e]; cbn; [|done].
    by destruct (existsb _ os).
  - destruct (openOrders (exchange env) (S (requests st)) sym) as [os|e']; cbn; [|done].
    by destruct (existsb _ os).
Qed.

Lemma is_stop_spec t : is_stop t = true ↔ t = "STOP" ∨ t = "STOP_MARKET".
Proof. unfold is_stop. rewrite orb_true_iff, !String.eqb_eq. done. Qed.

Lemma algo_protects_spec sd o :
  algo_protects (expected_side sd) o = true ↔ protects_spec sd (view_algo o).
Proof.
  unfold algo_protects, protects_spec, view_algo; cbn.
  rewrite !andb_true_iff, orb_true_iff, !String.eqb_eq, is_stop_spec.
  destruct sd; cbn; tauto.
Qed.

Lemma order_protects_spec sd o :
  order_protects (expected_side sd) o = true ↔ protects_spec sd (view_order o).
Proof.
  unfold order_protects, protects_spec, view_order; cbn.
  rewrite !andb_true_iff, orb_true_iff, !String.eqb_eq, is_stop_spec.
  destruct sd, (closePosition o); cbn; tauto.
Qed.

Lemma existsb_algo sd l :
  existsb (algo_protects (expected_side sd)) l = true
  ↔ ∃ o, o ∈ l ∧ protects_spec sd (view_algo o).
Proof.
  rewrite existsb_exists. split; intros (o & Hin & Hp); exists o.
  - by rewrite list_elem_of_In, <- algo_protects_spec.
  - by rewrite <- list_elem_of_In, algo_protects_spec.
Qed.

Lemma existsb_order sd l :
  existsb (order_protects (expected_side sd)) l = true
  ↔ ∃ o, o ∈ l ∧ protects_spec sd (view_order o).
Proof.
  rewrite existsb_exists. split; intros (o & Hin & Hp); exists o.
  - by rewrite list_elem_of_In, <- order_protects_spec.
  - by rewrite <- list_elem_of_In, order_protects_spec.
Qed.

Lemma existsb_false_iff {A} (f : A → bool) l :
  existsb f l = false ↔ ¬ (existsb f l = true).
Proof. destruct (existsb f l); split; congruence. Qed.

(** C2, as amended.  When a fetch of the detection cycle throws, the
    result is never Unprotected: it is Protected when the conventional
    orders were fetched and hold a protecting order, and Unknown in every
    other case. *)
Theorem checkSL_failed_fetch msg sym sd env st :
  (∃ e, algo_answer env st sym = Failed e)
  ∨ (In (EvOpenOrders sym) (checkSL msg sym sd env st).2
     ∧ ∃ e, conv_answer env st sym = Failed e) →
  let r := (checkSL msg sym sd env st).1.1 in
  detect r ≠ Unprotected
  ∧ (detect r = Protected
     ↔ ∃ os o, conv_answer env st sym = Body os ∧ o ∈ os ∧ protects_spec sd (view_order o))
  ∧ (detect r = Unknown
     ↔ ¬ ∃ os o, conv_answer env st sym = Body os ∧ o ∈ os ∧ protects_spec sd (view_order o)).
Proof.
  rewrite checkSL_run. intros [[e He]|[Hin [e He]]].
  - rewrite He. cbn.
    destruct (conv_answer env st sym) as [os|e'] eqn:Hc.
    + destruct (existsb (order_protects (expected_side sd)) os) eqn:Hex; cbn.
      * apply existsb_order in Hex as (o & Ho & Hp).
        repeat split; try done; eauto 10.
        intros H. exfalso. apply H. eauto 10.
      * apply existsb_false_iff in Hex. rewrite existsb_order in Hex.
        repeat split; try done.
        -- intros (os' & o & [= <-] & Ho & Hp). exfalso. eauto.
        -- intros _ (os' & o & [= <-] & Ho & Hp). eauto.
    + cbn. repeat split; try done.
      * by intros (os' & o & Heq & _).
      * by intros _ (os' & o & Heq & _).
  - rewrite He in *.
    destruct (match algo_answer env st sym with
              | Body body => existsb (algo_protects (expected_side sd)) (default [] body)
              | Failed _ => false
              end); cbn in *.
    + destruct Hin as [Hin|[]]. done.
    + repeat split; try done.
      * by intros (os' & o & Heq & _).
      * by intros _ (os' & o & Heq & _).
Qed.

(** C5.  An order protects exactly when it is active, on the protective
    side, of kind STOP or STOP_MARKET, and closes the whole position or
    carries a strictly positive quantity.  A protecting conditional order
    makes the detection Protected without the conventional orders being
    requested; a protecting conventional order makes it Protected; and the
    detection is Unprotected exactly when both fetches succeed and neither
    list holds a protecting order. *)
Theorem checkSL_protection msg sym sd env st :
  (∀ o, algo_protects (expected_side sd) o = true ↔ protects_spec sd (view_algo o))
  ∧ (∀ o, order_protects (expected_side sd) o = true ↔ protects_spec sd (view_order o))
  ∧ (∀ body o,
       algo_answer env st sym = Body body → o ∈ default [] body →
       protects_spec sd (view_algo o) →
       checkSL msg sym sd env st
       = (Ok true, set_requests (S (requests st)) st, [EvOpenAlgoOrders sym]))
  ∧ (∀ os o,
       conv_answer env st sym = Body os → o ∈ os → protects_spec sd (view_order o) →
       detect (checkSL msg sym sd env st).1.1 = Protected)
  ∧ (detect (checkSL msg sym sd env st).1.1 = Unprotected
     ↔ ∃ body os,
         algo_answer env st sym = Body body ∧ conv_answer env st sym = Body os
         ∧ (∀ o, o ∈ default [] body → ¬ protects_spec sd (view_algo o))
         ∧ (∀ o, o ∈ os → ¬ protects_spec sd (view_order o))).
Proof.
  split; [apply algo_protects_spec|]. split; [apply order_protects_spec|].
  rewrite checkSL_run. split; [|split].
  - intros body o -> Ho Hp.
    assert (existsb (algo_protects (expected_side sd)) (default [] body) = true) as ->; [|done].
    apply existsb_algo. eauto.
  - intros os o -> Ho Hp.
    assert (existsb (order_protects (expected_side sd)) os = true) as ->.
    { apply existsb_order. eauto. }
    by destruct (match algo_answer env st sym with Body _ => _ | Failed _ => _ end).
  - destruct (algo_answer env st sym) as [body|e] eqn:Ha.
    + destruct (existsb (algo_protects (expected_side sd)) (default [] body)) eqn:Hex1; cbn.
      * apply existsb_algo in Hex1 as (o & Ho & Hp). split; [done|].
        intros (body' & os & [= <-] & _ & Hno & _). exfalso. by eapply Hno.
      * apply existsb_false_iff in Hex1. rewrite existsb_algo in Hex1.
        destruct (conv_answer env st sym) as [os|e] eqn:Hc; cbn.
        -- destruct (existsb (order_protects (expected_side sd)) os) eqn:Hex2; cbn.
           ++ apply existsb_order in Hex2 as (o & Ho & Hp). split; [done|].
              intros (body' & os' & _ & [= <-] & _ & Hno). exfalso. by eapply Hno.
           ++ apply existsb_false_iff in Hex2. rewrite existsb_order in Hex2.
              split; [|done]. intros _. exists body, os. naive_solver.
        -- split; [done|]. by intros (body' & os' & _ & Heq & _).
    + cbn. split.
      * destruct (conv_answer env st sym) as [os|e']; cbn; [|done].
        by destruct (existsb _ os).
      * by intros (body' & os' & Heq & _).
Qed.

(** ** The protection cache *)

Lemma drop_gone_lookup {V} ps l (m : gmap string V) k :
  drop_gone ps l m !! k = if decide (k ∈ l ∧ held ps k = false) then None else m !! k.
Proof.
  unfold drop_gone. revert m. induction l as [|x l IH]; intros m; cbn.
  - case_decide as H; [|done]. destruct H as [H _]. by apply elem_of_nil in H.
  - rewrite IH.
    destruct (decide (k ∈ l ∧ held ps k = false)) as [[H1 H2]|H1],
             (decide (k ∈ x :: l ∧ held ps k = false)) as [[H3 H4]|H3]; try done.
    + exfalso. apply H3. split; [by apply list_elem_of_further | done].
    + apply elem_of_cons in H3 as [->|H3]; [|exfalso; by apply H1].
      rewrite H4. apply lookup_delete_eq.
    + destruct (held ps x) eqn:Hx; [done|].
      apply lookup_delete_ne. intros ->. apply H3.
      split; [apply list_elem_of_here | done].
Qed.

Lemma evict_loop ps l env st :
  for_of l (λ sym, if held ps sym then mret ()
                   else modify (set_cache (delete sym));; clearSymbol sym) env st
  = (Ok (), set_lastNotify (drop_gone ps l) (set_cache (drop_gone ps l) st), []).
Proof.
  revert st. induction l as [|x l IH]; intros st; cbn.
  - by destruct st.
  - unfold mbind, M_bind, bind. destruct (held ps x) eqn:Hx; cbn.
    + rewrite IH. unfold drop_gone. cbn. by rewrite Hx.
    + unfold clearSymbol, modify. cbn. rewrite IH. unfold drop_gone. cbn. by rewrite Hx.
Qed.

Lemma evict_run ps env st :
  evict ps env st
  = (Ok (),
     set_lastNotify (drop_gone ps (map fst (map_to_list (cache st))))
       (set_cache (drop_gone ps (map fst (map_to_list (cache st)))) st), []).
Proof.
  unfold evict. unfold mbind at 1, M_bind at 1, bind, get.
  rewrite evict_loop. done.
Qed.

Lemma evict_cache ps env st k :
  cache (evict ps env st).1.2 !! k = if held ps k then cache st !! k else None.
Proof.
  rewrite evict_run. cbn. rewrite drop_gone_lookup.
  destruct (held ps k) eqn:Hk.
  - case_decide as H; [|done]. destruct H. congruence.
  - case_decide as H; [done|].
    destruct (cache st !! k) as [v|] eqn:Hv; [|done].
    exfalso. apply H. split; [|done].
    apply list_elem_of_fmap. exists (k, v). split; [done|].
    by apply elem_of_map_to_list.
Qed.

Lemma checkSL_shape msg sym sd env st :
  ∃ r n evs,
    checkSL msg sym sd env st = (r, set_requests n st, evs)
    ∧ (∀ e, r = Throw e → e = Error msg).
Proof.
  rewrite checkSL_run.
  repeat match goal with
         | |- context [match ?x with _ => _ end] => destruct x
         end; do 3 eexists; (split; [reflexivity|]); congruence.
Qed.

(** Case analysis on the innermost scrutinee of the goal. *)
Ltac destruct_inner :=
  match goal with
  | |- context [match ?x with _ => _ end] =>
      lazymatch x with
      | context [match _ with _ => _ end] => fail
      | _ => destruct x eqn:?; cbn
      end
  end.

Ltac checkPosition_cases :=
  unfold shouldNotify, send, clearSymbol, message_of; run; repeat destruct_inner.

(** Effect of one turn of the loop of [check] on the cache: the entry of
    the position's symbol is set when [checkSL] returns, nothing changes
    when it throws; no exception leaves the turn. *)
Lemma V4_checkPosition_cache pos env st :
  ∃ st' evs,
    V4.checkPosition pos env st = (Ok (), st', evs)
    ∧ cache st' =
        match (checkSL "Network error" (symbol pos) (side pos) env st).1.1 with
        | Ok b => <[symbol pos := {| hasSL := b; lastCheck := now st |}]> (cache st)
        | Throw _ => cache st
        end.
Proof.
  unfold V4.checkPosition.
  destruct (checkSL_shape "Network error" (symbol pos) (side pos) env st)
    as (r & n & evs & Hrun & Herr).
  unfold try_catch, mbind at 1, M_bind at 1, bind. rewrite Hrun. cbn [fst snd].
  destruct r as [b|e]; [|do 2 eexists; split; reflexivity].
  destruct b; checkPosition_cases; do 2 eexists; split; reflexivity.
Qed.

Lemma V3_checkPosition_cache pos env st :
  ∃ st' evs,
    V3.checkPosition pos env st = (Ok (), st', evs)
    ∧ cache st' =
        match (checkSL "Network error during SL check" (symbol pos) (side pos) env st).1.1 with
        | Ok b => <[symbol pos := {| hasSL := b; lastCheck := now st |}]> (cache st)
        | Throw _ => cache st
        end.
Proof.
  unfold V3.checkPosition.
  destruct (checkSL_shape "Network error during SL check" (symbol pos) (side pos) env st)
    as (r & n & evs & Hrun & Herr).
  unfold try_catch, mbind at 1, M_bind at 1, bind. rewrite Hrun. cbn [fst snd].
  destruct r as [b|e].
  - destruct b; checkPosition_cases; do 2 eexists; split; reflexivity.
  - rewrite (Herr e eq_refl). cbn. do 2 eexists; split; reflexivity.
Qed.

Lemma held_cons_false pos ps k :
  held (pos :: ps) k = false ↔ symbol pos ≠ k ∧ held ps k = false.
Proof.
  unfold held. cbn. rewrite orb_false_iff, String.eqb_neq. done.
Qed.

Lemma V4_check_loop ps env st :
  ∃ st' evs,
    for_of ps V4.checkPosition env st = (Ok (), st', evs)
    ∧ ∀ k, held ps k = false → cache st' !! k = cache st !! k.
Proof.
  revert st. induction ps as [|pos ps IH]; intros st.
  - by exists st, [].
  - cbn [for_of]. unfold mbind, M_bind, bind.
    destruct (V4_checkPosition_cache pos env st) as (st1 & ev1 & -> & Hc).
    destruct (IH st1) as (st2 & ev2 & -> & Hk).
    do 2 eexists. split; [reflexivity|].
    intros k [Hne Hh]%held_cons_false. rewrite Hk, Hc by done.
    destruct (checkSL _ _ _ _ _).1.1; [by rewrite lookup_insert_ne | done].
Qed.

Lemma V3_check_loop ps env st :
  ∃ st' evs,
    for_of ps V3.checkPosition env st = (Ok (), st', evs)
    ∧ ∀ k, held ps k = false → cache st' !! k = cache st !! k.
Proof.
  revert st. induction ps as [|pos ps IH]; intros st.
  - by exists st, [].
  - cbn [for_of]. unfold mbind, M_bind, bind.
    destruct (V3_checkPosition_cache pos env st) as (st1 & ev1 & -> & Hc).
    destruct (IH st1) as (st2 & ev2 & -> & Hk).
    do 2 eexists. split; [reflexivity|].
    intros k [Hne Hh]%held_cons_false. rewrite Hk, Hc by done.
    destruct (checkSL _ _ _ _ _).1.1; [by rewrite lookup_insert_ne | done].
Qed.

Lemma V4_check_evicts env st k :
  (V4.check env st).1.1 = Ok ()
  ∧ (held (positions st) k = false → cache (V4.check env st).1.2 !! k = None).
Proof.
  unfold V4.check. unfold mbind at 1, M_bind at 1, bind at 1, get.
  unfold mbind, M_bind, bind.
  pose proof (evict_cache (positions st) env st k) as He.
  destruct (evict (positions st) env st) as [[r st1] ev1] eqn:Hev.
  rewrite evict_run in Hev. injection Hev as <- Hst1 <-.
  destruct (V4_check_loop (positions st) env st1) as (st2 & ev2 & -> & Hk).
  cbn in *. split; [done|]. intros Hh. by rewrite Hk, He, Hh.
Qed.

Lemma V3_check_evicts env st k :
  (V3.check env st).1.1 = Ok ()
  ∧ (held (positions st) k = false → cache (V3.check env st).1.2 !! k = None).
Proof.
  unfold V3.check. unfold mbind at 1, M_bind at 1, bind at 1, get.
  unfold mbind, M_bind, bind.
  pose proof (evict_cache (positions st) env st k) as He.
  destruct (evict (positions st) env st) as [[r st1] ev1] eqn:Hev.
  rewrite evict_run in Hev. injection Hev as <- Hst1 <-.
  destruct (V3_check_loop (positions st) env st1) as (st2 & ev2 & -> & Hk).
  cbn in *. split; [done|]. intros Hh. by rewrite Hk, He, Hh.
Qed.

(** C6, as amended.  A symbol without an entry is Unknown, and so is every
    symbol at start.  One turn of the detection loop on a position moves
    the symbol to Protected or Unprotected when [checkSL] returns, and
    leaves every symbol as it was when [checkSL] throws: a symbol never
    determined stays Unknown, an earlier determination stays in the
    cache.  After [check], a symbol that the monitor's snapshot does not
    hold has no entry.  This holds for both rewrites, and no exception
    leaves [check]. *)
Theorem protection_transitions env st pos :
  (∀ t sym, protection (initial t) sym = Unknown)
  ∧ (∀ b, (checkSL "Network error" (symbol pos) (side pos) env st).1.1 = Ok b →
       protection (V4.checkPosition pos env st).1.2 (symbol pos)
       = if b then Protected else Unprotected)
  ∧ (∀ e sym, (checkSL "Network error" (symbol pos) (side pos) env st).1.1 = Throw e →
       protection (V4.checkPosition pos env st).1.2 sym = protection st sym)
  ∧ ((V4.check env st).1.1 = Ok ()
     ∧ ∀ sym, held (positions st) sym = false →
         protection (V4.check env st).1.2 sym = Unknown)
  ∧ (∀ b, (checkSL "Network error during SL check" (symbol pos) (side pos) env st).1.1 = Ok b →
       protection (V3.checkPosition pos env st).1.2 (symbol pos)
       = if b then Protected else Unprotected)
  ∧ (∀ e sym,
       (checkSL "Network error during SL check" (symbol pos) (side pos) env st).1.1 = Throw e →
       protection (V3.checkPosition pos env st).1.2 sym = protection st sym)
  ∧ ((V3.check env st).1.1 = Ok ()
     ∧ ∀ sym, held (positions st) sym = false →
         protection (V3.check env st).1.2 sym = Unknown).
Proof.
  unfold protection.
  destruct (V4_checkPosition_cache pos env st) as (st4 & ev4 & H4 & Hc4).
  destruct (V3_checkPosition_cache pos env st) as (st3 & ev3 & H3 & Hc3).
  rewrite H4, H3. cbn [fst snd].
  split; [done|]. split; [|split; [|split; [|split; [|split]]]].
  - intros b Hb. rewrite Hc4, Hb, lookup_insert_eq. done.
  - intros e sym He. by rewrite Hc4, He.
  - split; [apply (V4_check_evicts env st "")|].
    intros sym Hh. by rewrite (proj2 (V4_check_evicts env st sym) Hh).
  - intros b Hb. rewrite Hc3, Hb, lookup_insert_eq. done.
  - intros e sym He. by rewrite Hc3, He.
  - split; [apply (V3_check_evicts env st "")|].
    intros sym Hh. by rewrite (proj2 (V3_check_evicts env st sym) Hh).
Qed.

(** ** The monitor *)

Lemma same_monitor_refl st : same_monitor st st.
Proof. by unfold same_monitor. Qed.

Lemma same_monitor_trans a b c : same_monitor a b → same_monitor b c → same_monitor a c.
Proof. unfold same_monitor. intros (-> & -> & -> & ->) (-> & -> & -> & ->). done. Qed.

Ltac side_cond := idtac; first [exact I | done | by (intros; unfold same_monitor; cbn)].

Ltac monitor_effects :=
  repeat (respects_step side_cond);
  auto using same_monitor_refl, same_monitor_trans.

Lemma roundQty_effects sym qty : respects not_marker same_monitor (roundQty sym qty).
Proof.
  unfold roundQty, Number_toFixed.
  pose proof same_monitor_refl. pose proof same_monitor_trans.
  respects_auto side_cond.
Qed.

Lemma send_effects tag text : respects not_marker same_monitor (send tag text).
Proof.
  unfold send.
  pose proof same_monitor_refl. pose proof same_monitor_trans.
  respects_auto side_cond.
Qed.

Lemma cancel_orders_effects pos after :
  respects not_marker same_monitor after →
  respects not_marker same_monitor (cancel_orders pos after).
Proof.
  intros Ha. unfold cancel_orders, cancelAllOrders, getAlgoOrders, cancelAlgoOrder.
  pose proof same_monitor_refl. pose proof same_monitor_trans.
  respects_auto side_cond.
Qed.

Lemma retry_loop_effects {A} (fn : M A) attempts delayMs name remaining lastError :
  respects not_marker same_monitor fn →
  (remaining = 0%nat → is_error lastError) →
  respects not_marker same_monitor (retry_loop fn attempts delayMs name remaining lastError).
Proof.
  intros Hfn. revert lastError.
  pose proof same_monitor_refl. pose proof same_monitor_trans.
  induction remaining as [|k IH]; intros lastError Hlast; cbn [retry_loop].
  - apply respects_throw; auto.
  - unfold sleep. respects_auto side_cond; apply IH; auto.
Qed.

Lemma marker_first {A} e (k : unit → M A) P R env st :
  (∀ u, respects P R (k u)) →
  ∃ evs,
    ((emit e ≫= k) env st).2 = e :: evs
    ∧ Forall P evs
    ∧ R st ((emit e ≫= k) env st).1.2
    ∧ ∀ e', ((emit e ≫= k) env st).1.1 = Throw e' → is_error e'.
Proof.
  intros Hk. unfold mbind, M_bind, bind, emit.
  destruct (Hk () env st) as (H1 & H2 & H3).
  destruct (k () env st) as [[r st1] ev1]. cbn in *. eauto.
Qed.

(** The marker comes first in the events of [closePosition], and only
    there; the monitor's fields are left alone. *)
Lemma V4_closePosition_effects pos env st :
  ∃ evs,
    (V4.closePosition pos env st).2 = EvClosePosition pos :: evs
    ∧ Forall not_marker evs
    ∧ same_monitor st (V4.closePosition pos env st).1.2
    ∧ ∀ e, (V4.closePosition pos env st).1.1 = Throw e → is_error e.
Proof.
  unfold V4.closePosition. apply marker_first.
  intros u. unfold V4.submit, V4.report, V4.failed, retry, marketClose.
  pose proof same_monitor_refl. pose proof same_monitor_trans.
  pose proof roundQty_effects. pose proof send_effects.
  respects_auto side_cond.
  - apply cancel_orders_effects. by apply respects_ret.
  - apply retry_loop_effects; [respects_auto side_cond | done].
Qed.

Lemma V3_closePosition_effects pos env st :
  ∃ evs,
    (V3.closePosition pos env st).2 = EvClosePosition pos :: evs
    ∧ Forall not_marker evs
    ∧ same_monitor st (V3.closePosition pos env st).1.2
    ∧ ∀ e, (V3.closePosition pos env st).1.1 = Throw e → is_error e.
Proof.
  unfold V3.closePosition. apply marker_first.
  intros u. unfold V3.submit, V3.report, V3.failed, marketClose, clearSymbol.
  pose proof same_monitor_refl. pose proof same_monitor_trans.
  pose proof roundQty_effects. pose proof send_effects.
  respects_auto side_cond.
  apply cancel_orders_effects. respects_auto side_cond.
Qed.

Lemma V4_evaluate_run pos env st :
  ∃ msg,
    V4.evaluate pos env st =
      if triggers (cfg env) pos then
        let '(r, st', evs) := V4.closePosition pos env st in (r, st', EvLog ERR msg :: evs)
      else (Ok (), st, []).
Proof.
  eexists. unfold V4.evaluate, triggers.
  unfold mbind, M_bind, bind, ask, log, emit, mret, M_ret, ret.
  destruct (JS.lt (pnl pos) JS.zero); cbn [andb]; [|done].
  destruct (JS.ge _ _); cbn [andb]; [|done].
  destruct (V4.closePosition pos env st) as [[r st1] ev1]. reflexivity.
Qed.

Lemma V3_evaluate_run pos env st :
  ∃ msg,
    V3.evaluate pos env st =
      if triggers (cfg env) pos then
        let '(r, st', evs) := V3.closePosition pos env st in (r, st', EvLog ERR msg :: evs)
      else (Ok (), st, []).
Proof.
  eexists. unfold V3.evaluate, triggers.
  unfold mbind, M_bind, bind, ask, log, emit, mret, M_ret, ret.
  destruct (JS.lt (pnl pos) JS.zero); cbn [andb]; [|done].
  destruct (JS.ge _ _); cbn [andb]; [|done].
  destruct (V3.closePosition pos env st) as [[r st1] ev1]. reflexivity.
Qed.

Lemma V4_evaluates : evaluates V4.evaluate.
Proof.
  intros pos env st. destruct (V4_evaluate_run pos env st) as [msg ->].
  destruct (triggers (cfg env) pos); [|by split; [apply same_monitor_refl|]].
  destruct (V4_closePosition_effects pos env st) as (evs & H1 & H2 & H3 & _).
  destruct (V4.closePosition pos env st) as [[r st1] ev1]. cbn in *. subst ev1.
  split; [done|]. eauto.
Qed.

Lemma V3_evaluates : evaluates V3.evaluate.
Proof.
  intros pos env st. destruct (V3_evaluate_run pos env st) as [msg ->].
  destruct (triggers (cfg env) pos); [|by split; [apply same_monitor_refl|]].
  destruct (V3_closePosition_effects pos env st) as (evs & H1 & H2 & H3 & _).
  destruct (V3.closePosition pos env st) as [[r st1] ev1]. cbn in *. subst ev1.
  split; [done|]. eauto.
Qed.

Lemma not_marker_In p evs : Forall not_marker evs → ¬ In (EvClosePosition p) evs.
Proof.
  intros H Hin. rewrite Forall_forall in H.
  apply list_elem_of_In in Hin. by apply H in Hin.
Qed.

(** The loop of [tick]: [closePosition] is entered only for positions of
    the list that trigger, and, when the loop runs to its end, for each
    of them. *)
Lemma close_loop evaluate ps env :
  evaluates evaluate →
  ∀ st,
    same_monitor st (for_of ps evaluate env st).1.2
    ∧ (∀ p, In (EvClosePosition p) (for_of ps evaluate env st).2 →
         In p ps ∧ triggers (cfg env) p = true)
    ∧ ((for_of ps evaluate env st).1.1 = Ok () →
       ∀ p, In p ps → triggers (cfg env) p = true →
         In (EvClosePosition p) (for_of ps evaluate env st).2).
Proof.
  intros Hev. induction ps as [|pos ps IH]; intros st; cbn [for_of].
  - cbn. split; [apply same_monitor_refl|]. split; [done|]. intros _ p [].
  - unfold mbind, M_bind, bind.
    destruct (Hev pos env st) as [Hm Hrun].
    destruct (evaluate pos env st) as [[r st1] ev1]. cbn [fst snd] in *.
    destruct (triggers (cfg env) pos) eqn:Htr.
    + destruct Hrun as (l & msg & evs & -> & Hevs).
      destruct r as [[]|e].
      * destruct (IH st1) as (IH1 & IH2 & IH3).
        destruct (for_of ps evaluate env st1) as [[r2 st2] ev2]. cbn [fst snd] in *.
        split; [by eapply same_monitor_trans|]. split.
        -- intros p [Hp|[Hp|Hp%in_app_or]]; [done| |].
           ++ injection Hp as <-. split; [by left | done].
           ++ destruct Hp as [Hp|Hp]; [by apply not_marker_In in Hp|].
              apply IH2 in Hp as [? ?]. split; [by right | done].
        -- intros -> p [<-|Hp] Hp2; [right; by left|].
           right. right. apply in_or_app. right. by apply IH3.
      * cbn. split; [done|]. split; [|done].
        intros p [Hp|[Hp|Hp]]; [done| |by apply not_marker_In in Hp].
        injection Hp as <-. split; [by left | done].
    + destruct Hrun as [-> ->].
      destruct (IH st1) as (IH1 & IH2 & IH3).
      destruct (for_of ps evaluate env st1) as [[r2 st2] ev2]. cbn [fst snd app] in *.
      split; [by eapply same_monitor_trans|]. split.
      * intros p Hp. apply IH2 in Hp as [? ?]. split; [by right | done].
      * intros -> p [<-|Hp] Hp2; [congruence|]. by apply IH3.
Qed.

Lemma for_of_log {A} lv (f : A → string) l env st :
  for_of l (λ x, log lv (f x)) env st = (Ok (), st, map (λ x, EvLog lv (f x)) l).
Proof.
  induction l as [|x l IH]; [done|].
  cbn [for_of]. unfold mbind, M_bind, bind.
  change (log lv (f x) env st) with (Ok (), st, [EvLog lv (f x)]).
  cbv beta iota. by rewrite IH.
Qed.

Lemma V4_printPositions_run env st :
  V4.printPositions env st
  = (Ok (), if now st - lastPrint st <? 60000 then st else set_lastPrint (now st) st,
     V4_printed st).
Proof.
  unfold V4.printPositions, V4_printed.
  unfold mbind at 1, M_bind at 1, bind at 1, get.
  destruct (now st - lastPrint st <? 60000); [done|].
  unfold mbind, M_bind, bind, modify.
  destruct (positions st) as [|p ps] eqn:Hps; [done|].
  by rewrite for_of_log.
Qed.

Lemma V3_printPositions_run env st :
  V3.printPositions env st = (Ok (), st, V3_printed st).
Proof.
  unfold V3.printPositions, V3_printed.
  unfold mbind at 1, M_bind at 1, bind at 1, get.
  destruct (positions st) as [|p ps] eqn:Hps; [done|].
  unfold mbind, M_bind, bind. unfold log at 1, emit.
  by rewrite for_of_log.
Qed.

(** [tick] of Guardian 4.0, by the answer to the position fetch. *)
Lemma V4_tick_run env st :
  V4.tick env st =
    match positionRisk (exchange env) (requests st) with
    | Failed msg => (Throw (Error msg), set_requests (S (requests st)) st, [EvPositionRisk])
    | Body rs =>
        let st1 := set_positions (parse_positions rs) (set_requests (S (requests st)) st) in
        if paused st then (Ok (), V4_fetched rs st, EvPositionRisk :: V4_printed st1)
        else
          let '(r, st', evs) := for_of (parse_positions rs) V4.evaluate env (V4_fetched rs st) in
          (r, st', EvPositionRisk :: V4_printed st1 ++ evs)
    end.
Proof.
  unfold V4.tick, getPositions.
  unfold mbind, M_bind, bind, http, modify, get, mret, M_ret, ret.
  destruct (positionRisk (exchange env) (requests st)) as [rs|e]; [|done].
  cbn [thrown]. rewrite V4_printPositions_run. unfold V4_fetched. cbn [fst snd].
  set (st1 := set_positions _ _).
  assert (paused (if now st1 - lastPrint st1 <? 60000 then st1
                  else set_lastPrint (now st1) st1) = paused st) as ->.
  { by destruct (_ <? _). }
  destruct (paused st).
  - cbn. by rewrite app_nil_r.
  - destruct (for_of _ _ _ _) as [[r st2] ev2]. done.
Qed.

(** [tick] of Guardian 3.0, by the answer to the position fetch. *)
Lemma V3_tick_run env st :
  V3.tick env st =
    match positionRisk (exchange env) (requests st) with
    | Failed msg => (Throw (Error msg), set_requests (S (requests st)) st, [EvPositionRisk])
    | Body rs =>
        let '(r, st', evs) := for_of (parse_positions rs) V3.evaluate env (V3_fetched rs st) in
        (r, st', EvPositionRisk :: V3_printed (V3_fetched rs st) ++ evs)
    end.
Proof.
  unfold V3.tick, getPositions.
  unfold mbind, M_bind, bind, http, modify, get, mret, M_ret, ret.
  destruct (positionRisk (exchange env) (requests st)) as [rs|e]; [|done].
  cbn [thrown]. rewrite V3_printPositions_run. unfold V3_fetched. cbn [fst snd].
  destruct (for_of _ _ _ _) as [[r st2] ev2]. done.
Qed.

Lemma SFcompare_antisym x y : SFcompare y x = CompOpp <$> SFcompare x y.
Proof.
  destruct x as [[]|[]| |[] m1 e1], y as [[]|[]| |[] m2 e2]; cbn; try done;
    rewrite (Z.compare_antisym e1 e2); destruct (e1 ?= e2); cbn; try done;
    rewrite (Pos.compare_cont_antisym m1 m2 Eq); cbn;
    by destruct (Pos.compare_cont Eq m1 m2).
Qed.

Lemma lt_not_ge x y : JS.lt x y = true → JS.ge x y = false.
Proof.
  unfold JS.lt, JS.ge, SFltb, SFleb. rewrite (SFcompare_antisym x y).
  by destruct (SFcompare x y) as [[]|].
Qed.

Lemma ge_not_lt x y : JS.ge x y = true → JS.lt x y = false.
Proof.
  unfold JS.lt, JS.ge, SFltb, SFleb. rewrite (SFcompare_antisym x y).
  by destruct (SFcompare x y) as [[]|].
Qed.

Lemma V4_fetched_positions rs st : positions (V4_fetched rs st) = parse_positions rs.
Proof. unfold V4_fetched. cbn. by destruct (_ <? _). Qed.

Lemma V4_printed_logs st : Forall is_log (V4_printed st).
Proof.
  unfold V4_printed. destruct (_ <? _); [done|].
  destruct (positions st) as [|q qs]; [by repeat constructor|].
  apply Forall_fmap, Forall_true. done.
Qed.

Lemma V3_printed_logs st : Forall is_log (V3_printed st).
Proof.
  unfold V3_printed.
  destruct (positions st) as [|q qs]; [by repeat constructor|].
  constructor; [done|]. apply Forall_app. split; [|by repeat constructor].
  apply Forall_fmap, Forall_true. done.
Qed.

Lemma logs_no_marker evs p : Forall is_log evs → ¬ In (EvClosePosition p) evs.
Proof.
  intros H Hin. rewrite Forall_forall in H.
  apply list_elem_of_In in Hin. by apply H in Hin.
Qed.

(** C1, as amended.  In Guardian 3.0, and in Guardian 4.0 while it is not
    paused, [tick] enters the close protocol only for positions of the
    snapshot whose pnl is negative with [abs(pnl) >= maxLossUsd], and,
    when the tick runs to its end, for every such position.  A position
    with [pnl >= 0], or with [abs(pnl) < maxLossUsd], never triggers.
    While Guardian 4.0 is paused the close protocol is entered for no
    position. *)
Theorem close_only_when_triggered env st :
  (∀ c p, triggers c p = true
          ↔ JS.lt (pnl p) JS.zero = true
            ∧ JS.ge (JS.Math_abs (pnl p)) (maxLossUsd c) = true)
  ∧ (∀ c p, JS.ge (pnl p) JS.zero = true
            ∨ JS.lt (JS.Math_abs (pnl p)) (maxLossUsd c) = true →
            triggers c p = false)
  ∧ (∀ p, In (EvClosePosition p) (V3.tick env st).2 →
          In p (positions (V3.tick env st).1.2) ∧ triggers (cfg env) p = true)
  ∧ ((V3.tick env st).1.1 = Ok () →
     ∀ p, In p (positions (V3.tick env st).1.2) → triggers (cfg env) p = true →
          In (EvClosePosition p) (V3.tick env st).2)
  ∧ (∀ p, In (EvClosePosition p) (V4.tick env st).2 →
          paused st = false
          ∧ In p (positions (V4.tick env st).1.2) ∧ triggers (cfg env) p = true)
  ∧ ((V4.tick env st).1.1 = Ok () → paused st = false →
     ∀ p, In p (positions (V4.tick env st).1.2) → triggers (cfg env) p = true →
          In (EvClosePosition p) (V4.tick env st).2).
Proof.
  split; [|split].
  { intros c p. unfold triggers. by rewrite andb_true_iff. }
  { intros c p [H|H]; unfold triggers.
    - by rewrite (ge_not_lt _ _ H).
    - rewrite (lt_not_ge _ _ H). apply andb_false_r. }
  rewrite V3_tick_run, V4_tick_run.
  destruct (positionRisk (exchange env) (requests st)) as [rs|e].
  2:{ cbn. split; [|split; [|split]]; try done; by intros p [Hp|[]]. }
  cbv zeta.
  destruct (close_loop V3.evaluate (parse_positions rs) env V3_evaluates (V3_fetched rs st))
    as ((Hpos3 & _) & Hin3 & Hall3).
  destruct (close_loop V4.evaluate (parse_positions rs) env V4_evaluates (V4_fetched rs st))
    as ((Hpos4 & _) & Hin4 & Hall4).
  rewrite V4_fetched_positions in Hpos4.
  destruct (for_of _ V3.evaluate _ _) as [[r3 st3] ev3].
  destruct (for_of _ V4.evaluate _ _) as [[r4 st4] ev4].
  cbn [fst snd] in *. rewrite Hpos3. cbn [V3_fetched positions set_positions].
  split; [|split; [|split]].
  - intros p [Hp|Hp%in_app_or]; [done|].
    destruct Hp as [Hp|Hp]; [|by apply Hin3].
    by apply logs_no_marker in Hp; [|apply V3_printed_logs].
  - intros Hr p Hp Ht. right. apply in_or_app. right. by apply Hall3.
  - destruct (paused st) eqn:Hpaused; cbn [fst snd].
    + intros p [Hp|Hp]; [done|].
      by apply logs_no_marker in Hp; [|apply V4_printed_logs].
    + rewrite Hpos4. intros p [Hp|Hp%in_app_or]; [done|].
      destruct Hp as [Hp|Hp]; [|by split; [|apply Hin4]].
      by apply logs_no_marker in Hp; [|apply V4_printed_logs].
  - destruct (paused st); [done|]. cbn [fst snd]. rewrite Hpos4.
    intros Hr _ p Hp Ht. right. apply in_or_app. right. by apply Hall4.
Qed.

(** ** The pause flag *)

Section Blind.
Context (b : bool).

Lemma blind_ret {A} (a : A) : blind b (mret a) (mret a).
Proof. done. Qed.

Lemma blind_throw {A} e : blind b (throw (A:=A) e) (throw e).
Proof. done. Qed.

Lemma blind_ask : blind b ask ask.
Proof. done. Qed.

Lemma blind_emit e : blind b (emit e) (emit e).
Proof. done. Qed.

Lemma blind_log l msg : blind b (log l msg) (log l msg).
Proof. done. Qed.

Lemma blind_http {A} ev (answer : Exchange → nat → response A) :
  blind b (http ev answer) (http ev answer).
Proof. done. Qed.

Lemma blind_modify f :
  (∀ st, f (set_paused b st) = set_paused b (f st)) → blind b (modify f) (modify f).
Proof. intros Hf env st. unfold modify, with_paused. cbn. by rewrite Hf. Qed.

Lemma blind_bind {A B} (m1 m2 : M A) (k1 k2 : A → M B) :
  blind b m1 m2 → (∀ a, blind b (k1 a) (k2 a)) → blind b (m1 ≫= k1) (m2 ≫= k2).
Proof.
  intros Hm Hk env st. unfold mbind, M_bind, bind. rewrite Hm.
  destruct (m1 env st) as [[[a|e] st1] ev1]; cbn; [|done].
  rewrite Hk. by destruct (k1 a env st1) as [[r st2] ev2].
Qed.

Lemma blind_get {A} (k1 k2 : State → M A) :
  (∀ st, blind b (k1 st) (k2 (set_paused b st))) → blind b (get ≫= k1) (get ≫= k2).
Proof.
  intros Hk env st. unfold mbind, M_bind, bind, get. rewrite Hk.
  by destruct (k1 st env st) as [[r st2] ev2].
Qed.

Lemma blind_try_catch {A} (m1 m2 : M A) (h1 h2 : error → M A) :
  blind b m1 m2 → (∀ e, blind b (h1 e) (h2 e)) →
  blind b (try_catch m1 h1) (try_catch m2 h2).
Proof.
  intros Hm Hh env st. unfold try_catch. rewrite Hm.
  destruct (m1 env st) as [[[a|e] st1] ev1]; cbn; [done|].
  rewrite Hh. by destruct (h1 e env st1) as [[r st2] ev2].
Qed.

Lemma blind_for_of {A} (l : list A) (f1 f2 : A → M unit) :
  (∀ x, blind b (f1 x) (f2 x)) → blind b (for_of l f1) (for_of l f2).
Proof.
  intros Hf. induction l as [|x l IH]; cbn [for_of].
  - apply blind_ret.
  - apply blind_bind; auto.
Qed.

Lemma blind_message_of e : blind b (message_of e) (message_of e).
Proof. by destruct e. Qed.
End Blind.

Ltac blind_step :=
  lazymatch goal with
  | |- blind _ (get ≫= _) (get ≫= _) =>
      apply blind_get; intros ?;
      cbn [set_paused symbolInfo lastNotify cache positions errors lastTick lastPrint
           requests now]
  | |- blind _ (mbind _ _) (mbind _ _) => apply blind_bind; [|intros ?]
  | |- blind _ (try_catch _ _) (try_catch _ _) => apply blind_try_catch; [|intros ?]
  | |- blind _ (for_of _ _) (for_of _ _) => apply blind_for_of; intros ?
  | |- blind _ (mret _) (mret _) => apply blind_ret
  | |- blind _ (throw _) (throw _) => apply blind_throw
  | |- blind _ ask ask => apply blind_ask
  | |- blind _ (message_of _) (message_of _) => apply blind_message_of
  | |- blind _ (log _ _) (log _ _) => apply blind_log
  | |- blind _ (emit _) (emit _) => apply blind_emit
  | |- blind _ (modify _) (modify _) => apply blind_modify; done
  | |- blind _ (http _ _) (http _ _) => apply blind_http
  | |- blind _ (match ?x with _ => _ end) (match ?x with _ => _ end) => destruct x
  | |- blind _ (let _ := _ in _) _ => cbv zeta
  | |- blind _ _ _ => solve [auto]
  end.

Ltac blind_auto := repeat blind_step.

Lemma checkSL_blind b msg sym sd : blind b (checkSL msg sym sd) (checkSL msg sym sd).
Proof. unfold checkSL, getAlgoOrders, getOpenOrders. blind_auto. Qed.

Lemma evict_blind b ps : blind b (evict ps) (evict ps).
Proof. unfold evict, clearSymbol. blind_auto. Qed.

Lemma V4_check_blind b : blind b V4.check V4.check.
Proof.
  pose proof (checkSL_blind b). pose proof (evict_blind b).
  unfold V4.check, V4.checkPosition, shouldNotify, send, clearSymbol. blind_auto.
Qed.

Lemma set_paused_id st : set_paused (paused st) st = st.
Proof. by destruct st. Qed.

Lemma logs_not_close evs : Forall is_log evs → Forall (λ e, ¬ close_event e) evs.
Proof. intros H. eapply Forall_impl; [exact H|]. intros [] Hl Hc; cbn in *; done. Qed.

(** C7.  While Guardian 4.0 is paused, a tick issues no cancellation, no
    order and no outcome message, and enters the close protocol for no
    position; it still fetches the positions, replaces the snapshot and
    prints it, exactly as the first part of an unpaused tick does;
    [check] does what it does when not paused; the status lists every
    position of the snapshot with its pnl; and [cmdPause] sets the flag. *)
Theorem paused_tick_skips_close env st :
  paused st = true →
  Forall (λ e, ¬ close_event e) (V4.tick env st).2
  ∧ (∀ rs, positionRisk (exchange env) (requests st) = Body rs →
       (V4.tick env st).1.1 = Ok ()
       ∧ positions (V4.tick env st).1.2 = parse_positions rs
       ∧ (V4.tick env st).2
         = EvPositionRisk
           :: V4_printed (set_positions (parse_positions rs)
                            (set_requests (S (requests st)) st))
       ∧ ∃ evs, (V4.tick env (set_paused false st)).2 = (V4.tick env st).2 ++ evs)
  ∧ V4.check env st = with_paused true (V4.check env (set_paused false st))
  ∧ (∀ st', map (λ e, (V4.st_symbol e, V4.st_pnl e))
              (V4.st_positions (V4.getStatusInfo st'))
            = map (λ p, (symbol p, pnl p)) (positions st'))
  ∧ (∀ st', paused (V4.cmdPause env st').1.2 = true).
Proof.
  intros Hp. repeat split.
  - rewrite V4_tick_run, Hp.
    destruct (positionRisk (exchange env) (requests st)) as [rs|e]; cbn.
    + constructor; [by intros []|]. apply logs_not_close, V4_printed_logs.
    + constructor; [by intros []|done].
  - rewrite V4_tick_run, H, Hp. done.
  - rewrite V4_tick_run, H, Hp. cbn. apply V4_fetched_positions.
  - rewrite V4_tick_run, H, Hp. done.
  - rewrite !V4_tick_run. cbn [requests set_paused paused]. rewrite H, Hp.
    cbv zeta. cbn [fst snd].
    assert (V4_fetched rs (set_paused false st) = set_paused false (V4_fetched rs st)) as ->.
    { unfold V4_fetched. cbn. by destruct (_ <? _). }
    destruct (for_of _ _ _ _) as [[r st2] evs]. cbn.
    exists evs. done.
  - rewrite <- (set_paused_id st) at 1. rewrite Hp.
    rewrite <- (V4_check_blind true env (set_paused false st)). by destruct st.
  - intros st'. unfold V4.getStatusInfo. cbn. rewrite map_map. done.
  - intros st'. unfold V4.cmdPause, send.
    unfold mbind, M_bind, bind, modify, ask, try_catch, http, log, emit, mret, M_ret, ret,
      message_of.
    cbn. repeat destruct_inner; done.
Qed.

(** ** The close protocol *)

Lemma send_run tag text env st :
  send tag text env st =
    if configured (cfg env) then
      match sendMessage (exchange env) (requests st) text with
      | Body b => (Ok b, set_requests (S (requests st)) st, [EvTelegram text])
      | Failed msg => (Ok false, set_requests (S (requests st)) st,
                       [EvTelegram text; EvLog ERR (tag +:+ msg)])
      end
    else (Ok false, st, []).
Proof.
  unfold send. run. destruct (configured (cfg env)); [|done].
  by destruct (sendMessage _ _ _).
Qed.

(** The three attempts of the submission of Guardian 4.0, by the answers
    of the exchange. *)
Lemma V4_submit_run pos qty env st :
  let n := requests st in
  let sub := sent_order pos qty in
  let pause st := set_now (now st + 500) st in
  let st1 := set_requests (S n) st in
  let st2 := set_requests (S (S n)) (pause st1) in
  let st3 := set_requests (S (S (S n))) (pause st2) in
  let ev2 := [sub; EvLog WARN (retry_line pos 1); EvSleep 500; sub] in
  let ev3 := ev2 ++ [EvLog WARN (retry_line pos 2); EvSleep 500; sub] in
  V4.submit pos qty env st =
    match order_answer env pos qty n with
    | Body res => (Ok res, st1, [sub])
    | Failed _ =>
        match order_answer env pos qty (S n) with
        | Body res => (Ok res, st2, ev2)
        | Failed _ =>
            match order_answer env pos qty (S (S n)) with
            | Body res => (Ok res, st3, ev3)
            | Failed msg => (Throw (Error msg), st3, ev3)
            end
        end
    end.
Proof.
  unfold V4.submit, retry, marketClose, order_answer, sent_order, retry_line. cbn [retry_loop].
  unfold sleep. run.
  destruct (order (exchange env) (requests st) _ _ _); cbn; [done|].
  destruct (order (exchange env) (S (requests st)) _ _ _); cbn; [done|].
  destruct (order (exchange env) (S (S (requests st))) _ _ _); cbn; done.
Qed.

Lemma swallow_ok (m : M unit) env st : (try_catch m (λ _, mret ()) env st).1.1 = Ok ().
Proof. unfold try_catch. by destruct (m env st) as [[[[]|e] st1] ev1]. Qed.

Lemma cancel_orders_ok pos after env st : (cancel_orders pos after env st).1.1 = Ok ().
Proof.
  unfold cancel_orders. unfold mbind at 1, M_bind at 1, bind at 1.
  pose proof (swallow_ok (cancelAllOrders (symbol pos) ≫= λ _, after) env st) as H1.
  destruct (try_catch _ _ env st) as [[r1 st1] ev1]. cbn in H1. subst r1.
  match goal with
  | |- context [try_catch ?m ?h env st1] =>
      pose proof (swallow_ok m env st1) as H2; destruct (try_catch m h env st1) as [[r2 st2] ev2]
  end.
  done.
Qed.

(** What [report] of Guardian 4.0 does: one console line, then the
    Telegram text of the class of the status. *)
Lemma V4_report_run pos res env st :
  ∃ lv line,
    V4.report pos res env st =
      let '(_, st', evs) := send V4.tag (V4_notification pos res) env st in
      (Ok (), st', EvLog lv line :: evs).
Proof.
  unfold V4.report, V4_notification.
  destruct (String.eqb (result_status res) "FILLED");
    [|destruct (_ || _)]; do 2 eexists;
    unfold mbind, M_bind, bind, log, emit, mret, M_ret, ret;
    rewrite send_run; destruct (configured (cfg env)); try reflexivity;
    destruct (sendMessage _ _ _); reflexivity.
Qed.

Lemma V4_report_ok pos res env st : (V4.report pos res env st).1.1 = Ok ().
Proof.
  destruct (V4_report_run pos res env st) as (lv & line & ->).
  by destruct (send _ _ _ _) as [[r st1] ev1].
Qed.

(** [closePosition] of Guardian 4.0, stage by stage. *)
Lemma V4_closePosition_run pos env st :
  V4.closePosition pos env st =
    let '(rq, st1, ev1) := rounded pos env st in
    match rq with
    | Throw e => (Throw e, st1, EvClosePosition pos :: ev1)
    | Ok qty =>
        if dryRun (cfg env) then
          (Ok (), st1,
           EvClosePosition pos
           :: ev1 ++ [EvLog WARN ("[DRY] " +:+ symbol pos +:+ " " +:+ close_side pos +:+ " "
                                  +:+ JS.Number_toString qty)])
        else
          let '(_, st2, ev2) := cancel_orders pos (mret ()) env st1 in
          let '(rs, st3, ev3) := V4.submit pos qty env st2 in
          let '(r, st4, ev4) :=
            match rs with
            | Ok res => V4.report pos res env st3
            | Throw e => V4.failed pos e env st3
            end in
          (r, st4, EvClosePosition pos :: ev1 ++ ev2 ++ ev3 ++ ev4)
    end.
Proof.
  unfold V4.closePosition, rounded.
  unfold mbind at 1 2 3, M_bind at 1 2 3, bind at 1 2 3, emit, ask.
  destruct (roundQty _ _ env st) as [[[qty|e] st1] ev1]; [|done].
  destruct (dryRun (cfg env)); [done|].
  unfold mbind at 1, M_bind at 1, bind at 1.
  pose proof (cancel_orders_ok pos (mret ()) env st1) as Hc.
  destruct (cancel_orders pos (mret ()) env st1) as [[rc st2] ev2]. cbn in Hc. subst rc.
  unfold try_catch, mbind, M_bind, bind.
  destruct (V4.submit pos qty env st2) as [[[res|e] st3] ev3].
  - pose proof (V4_report_ok pos res env st3) as Hr.
    destruct (V4.report pos res env st3) as [[[[]|e] st4] ev4]; cbn in *; [|done].
    by rewrite <- ?app_assoc.
  - destruct (V4.failed pos e env st3) as [[r st4] ev4]; cbn.
    by rewrite <- ?app_assoc.
Qed.

Lemma V4_failed_run pos msg env st :
  V4.failed pos (Error msg) env st =
    let '(_, st', evs) := send V4.tag (V4.failure_text pos msg) env st in
    (Ok (), st', EvLog ERR ("FAILED " +:+ symbol pos +:+ ": " +:+ msg) :: evs).
Proof.
  unfold V4.failed, message_of.
  unfold mbind, M_bind, bind, log, emit, mret, M_ret, ret.
  rewrite send_run; destruct (configured (cfg env)); try reflexivity;
    destruct (sendMessage _ _ _); reflexivity.
Qed.

Lemma V3_failed_run pos msg env st :
  V3.failed pos (Error msg) env st =
    let '(_, st', evs) := send V3.tag (V3.failure_text pos msg) env st in
    (Ok (), st', EvLog ERR ("Не удалось закрыть " +:+ symbol pos +:+ ": " +:+ msg) :: evs).
Proof.
  unfold V3.failed, message_of.
  unfold mbind, M_bind, bind, log, emit, mret, M_ret, ret.
  rewrite send_run; destruct (configured (cfg env)); try reflexivity;
    destruct (sendMessage _ _ _); reflexivity.
Qed.

(** What [report] of Guardian 3.0 does: one console line, then one
    Telegram text, whatever the status of the order. *)
Lemma V3_report_run pos qty res env st :
  ∃ st'',
    V3.report pos qty res env st =
      let '(_, st', evs) := send V3.tag (V3.closed_text (cfg env) pos qty res) env st in
      (Ok (), st'' st',
       EvLog SUCCESS (symbol pos +:+ " ЗАКРЫТ! OrderId: " +:+ JS.string_of_Z (orderId res)
                      +:+ ", Status: " +:+ result_status res) :: evs).
Proof.
  exists (λ st', match cache st' !! symbol pos with
                 | Some _ => set_lastNotify (delete (symbol pos)) st'
                 | None => st'
                 end).
  unfold V3.report, clearSymbol.
  unfold mbind, M_bind, bind, log, emit, mret, M_ret, ret, ask, get, modify.
  rewrite send_run; destruct (configured (cfg env)); cbn.
  - destruct (sendMessage _ _ _); cbn; by destruct (cache st !! symbol pos).
  - by destruct (cache st !! symbol pos).
Qed.

Lemma V3_report_ok pos qty res env st : (V3.report pos qty res env st).1.1 = Ok ().
Proof.
  destruct (V3_report_run pos qty res env st) as (f & ->).
  by destruct (send _ _ _ _) as [[r st1] ev1].
Qed.

Lemma V3_submit_run pos qty env st :
  V3.submit pos qty env st
  = (thrown (order_answer env pos qty (requests st)),
     set_requests (S (requests st)) st, [sent_order pos qty]).
Proof. reflexivity. Qed.

(** [closePosition] of Guardian 3.0, stage by stage. *)
Lemma V3_closePosition_run pos env st :
  V3.closePosition pos env st =
    let '(rq, st1, ev1) := rounded pos env st in
    match rq with
    | Throw e => (Throw e, st1, EvClosePosition pos :: ev1)
    | Ok qty =>
        if dryRun (cfg env) then
          (Ok (), st1,
           EvClosePosition pos
           :: ev1 ++ [EvLog WARN ("[DRY RUN] Закрыли бы " +:+ symbol pos +:+ ": "
                                  +:+ close_side pos +:+ " " +:+ JS.Number_toString qty)])
        else
          let '(_, st2, ev2) :=
            cancel_orders pos (log INFO (symbol pos +:+ " - ордера отменены")) env st1 in
          let '(rs, st3, ev3) := V3.submit pos qty env st2 in
          let '(r, st4, ev4) :=
            match rs with
            | Ok res => V3.report pos qty res env st3
            | Throw e => V3.failed pos e env st3
            end in
          (r, st4, EvClosePosition pos :: ev1 ++ ev2 ++ ev3 ++ ev4)
    end.
Proof.
  unfold V3.closePosition, rounded.
  unfold mbind at 1 2 3, M_bind at 1 2 3, bind at 1 2 3, emit, ask.
  destruct (roundQty _ _ env st) as [[[qty|e] st1] ev1]; [|done].
  destruct (dryRun (cfg env)); [done|].
  unfold try_catch. unfold mbind at 1, M_bind at 1, bind at 1.
  pose proof (cancel_orders_ok pos (log INFO (symbol pos +:+ " - ордера отменены")) env st1)
    as Hc.
  destruct (cancel_orders pos _ env st1) as [[rc st2] ev2]. cbn in Hc. subst rc.
  unfold mbind, M_bind, bind.
  destruct (V3.submit pos qty env st2) as [[[res|e] st3] ev3].
  - pose proof (V3_report_ok pos qty res env st3) as Hr.
    destruct (V3.report pos qty res env st3) as [[[[]|e] st4] ev4]; cbn in *; [|done].
    by rewrite <- ?app_assoc.
  - destruct (V3.failed pos e env st3) as [[r st4] ev4]; cbn.
    by rewrite <- ?app_assoc.
Qed.

Lemma submissions_app a b : submissions (a ++ b) = (submissions a + submissions b)%nat.
Proof. unfold submissions. by rewrite List.filter_app, length_app. Qed.

Lemma submissions_none evs : Forall no_submit evs → submissions evs = 0%nat.
Proof.
  unfold submissions. induction 1 as [|e evs He _ IH]; [done|].
  cbn. by destruct e.
Qed.

Ltac plain_cond := idtac; first [exact I | done].

Lemma any_state_refl st : any_state st st.
Proof. done. Qed.

Lemma any_state_trans a b c : any_state a b → any_state b c → any_state a c.
Proof. done. Qed.

Section Quiet.
Context (P : event → Prop).
Context (P_log : ∀ l msg, P (EvLog l msg)) (P_telegram : ∀ text, P (EvTelegram text)).
Context (P_info : P EvExchangeInfo) (P_cancel : ∀ sym, P (EvCancelAllOrders sym)).
Context (P_algo : ∀ sym, P (EvOpenAlgoOrders sym)).
Context (P_cancel_algo : ∀ sym id, P (EvCancelAlgoOrder sym id)).

Lemma roundQty_quiet sym qty : respects P any_state (roundQty sym qty).
Proof.
  unfold roundQty, Number_toFixed.
  pose proof any_state_refl. pose proof any_state_trans.
  respects_auto plain_cond.
Qed.

Lemma send_quiet tag text : respects P any_state (send tag text).
Proof.
  unfold send.
  pose proof any_state_refl. pose proof any_state_trans.
  respects_auto plain_cond.
Qed.

Lemma cancel_orders_quiet pos after :
  respects P any_state after → respects P any_state (cancel_orders pos after).
Proof.
  intros Ha. unfold cancel_orders, cancelAllOrders, getAlgoOrders, cancelAlgoOrder.
  pose proof any_state_refl. pose proof any_state_trans.
  respects_auto plain_cond.
Qed.

Lemma V4_report_quiet pos res : respects P any_state (V4.report pos res).
Proof.
  unfold V4.report.
  pose proof any_state_refl. pose proof any_state_trans. pose proof send_quiet.
  respects_auto plain_cond.
Qed.

Lemma V4_failed_quiet pos e : respects P any_state (V4.failed pos e).
Proof.
  unfold V4.failed.
  pose proof any_state_refl. pose proof any_state_trans. pose proof send_quiet.
  respects_auto plain_cond.
Qed.

Lemma V3_report_quiet pos qty res : respects P any_state (V3.report pos qty res).
Proof.
  unfold V3.report, clearSymbol.
  pose proof any_state_refl. pose proof any_state_trans. pose proof send_quiet.
  respects_auto plain_cond.
Qed.

Lemma V3_failed_quiet pos e : respects P any_state (V3.failed pos e).
Proof.
  unfold V3.failed.
  pose proof any_state_refl. pose proof any_state_trans. pose proof send_quiet.
  respects_auto plain_cond.
Qed.
End Quiet.

Lemma V4_submit_count pos qty env st :
  (1 ≤ submissions (V4.submit pos qty env st).2 ≤ 3)%nat.
Proof.
  rewrite V4_submit_run. cbv zeta. unfold sent_order.
  repeat destruct_inner; cbn; lia.
Qed.

Lemma submissions_marker pos evs :
  submissions (EvClosePosition pos :: evs) = submissions evs.
Proof. done. Qed.

Lemma V4_close_count pos env st : (submissions (V4.closePosition pos env st).2 ≤ 3)%nat.
Proof.
  rewrite V4_closePosition_run. unfold rounded.
  assert (respects no_submit any_state (roundQty (symbol pos) (JS.Math_abs (amt pos)))) as Hq
    by (by apply roundQty_quiet).
  destruct (Hq env st) as (H1 & _ & _).
  destruct (roundQty _ _ env st) as [[[qty|e] st1] ev1]; cbn [fst snd] in *.
  2:{ cbn [fst snd]. rewrite submissions_marker, (submissions_none ev1) by done. lia. }
  destruct (dryRun (cfg env)).
  { cbn [fst snd].
    rewrite submissions_marker, !submissions_app, (submissions_none ev1) by done.
    cbn. lia. }
  assert (respects no_submit any_state (cancel_orders pos (mret ()))) as Hc
    by (apply cancel_orders_quiet; try done; by apply respects_ret).
  destruct (Hc env st1) as (H2 & _ & _).
  destruct (cancel_orders pos (mret ()) env st1) as [[rc st2] ev2]. cbn [fst snd] in *.
  pose proof (V4_submit_count pos qty env st2) as H3.
  destruct (V4.submit pos qty env st2) as [[rs st3] ev3]. cbn [fst snd] in *.
  assert (∀ r st4 ev4,
            match rs with
            | Ok res => V4.report pos res env st3
            | Throw e => V4.failed pos e env st3
            end = (r, st4, ev4) → Forall no_submit ev4) as H4.
  { intros r st4 ev4 Heq. destruct rs as [res|e].
    - assert (respects no_submit any_state (V4.report pos res)) as Hr
        by (by apply V4_report_quiet).
      destruct (Hr env st3) as (H & _). by rewrite Heq in H.
    - assert (respects no_submit any_state (V4.failed pos e)) as Hr
        by (by apply V4_failed_quiet).
      destruct (Hr env st3) as (H & _). by rewrite Heq in H. }
  destruct (match rs with Ok _ => _ | Throw _ => _ end) as [[r st4] ev4].
  specialize (H4 r st4 ev4 eq_refl). cbn [fst snd].
  rewrite submissions_marker, !submissions_app, (submissions_none ev1),
    (submissions_none ev2), (submissions_none ev4) by done.
  cbn. lia.
Qed.

Lemma V3_close_count pos env st : (submissions (V3.closePosition pos env st).2 ≤ 1)%nat.
Proof.
  rewrite V3_closePosition_run. unfold rounded.
  assert (respects no_submit any_state (roundQty (symbol pos) (JS.Math_abs (amt pos)))) as Hq
    by (by apply roundQty_quiet).
  destruct (Hq env st) as (H1 & _ & _).
  destruct (roundQty _ _ env st) as [[[qty|e] st1] ev1]; cbn [fst snd] in *.
  2:{ cbn [fst snd]. rewrite submissions_marker, (submissions_none ev1) by done. lia. }
  destruct (dryRun (cfg env)).
  { cbn [fst snd].
    rewrite submissions_marker, !submissions_app, (submissions_none ev1) by done.
    cbn. lia. }
  assert (respects no_submit any_state
            (cancel_orders pos (log INFO (symbol pos +:+ " - ордера отменены")))) as Hc
    by (apply cancel_orders_quiet; try done; by apply respects_log).
  destruct (Hc env st1) as (H2 & _ & _).
  destruct (cancel_orders pos _ env st1) as [[rc st2] ev2]. cbn [fst snd] in *.
  rewrite V3_submit_run.
  set (rs := thrown _).
  assert (∀ r st4 ev4,
            match rs with
            | Ok res => V3.report pos qty res env (set_requests (S (requests st2)) st2)
            | Throw e => V3.failed pos e env (set_requests (S (requests st2)) st2)
            end = (r, st4, ev4) → Forall no_submit ev4) as H4.
  { intros r st4 ev4 Heq. destruct rs as [res|e].
    - assert (respects no_submit any_state (V3.report pos qty res)) as Hr
        by (by apply V3_report_quiet).
      destruct (Hr env (set_requests (S (requests st2)) st2)) as (H & _).
      by rewrite Heq in H.
    - assert (respects no_submit any_state (V3.failed pos e)) as Hr
        by (by apply V3_failed_quiet).
      destruct (Hr env (set_requests (S (requests st2)) st2)) as (H & _).
      by rewrite Heq in H. }
  destruct (match rs with Ok _ => _ | Throw _ => _ end) as [[r st4] ev4].
  specialize (H4 r st4 ev4 eq_refl). cbn [fst snd].
  rewrite submissions_marker, !submissions_app, (submissions_none ev1),
    (submissions_none ev2), (submissions_none ev4) by done.
  cbn. lia.
Qed.

Lemma retry_loop_any {A} (fn : M A) attempts delayMs name remaining lastError :
  respects any_event any_state fn →
  (remaining = 0%nat → is_error lastError) →
  respects any_event any_state (retry_loop fn attempts delayMs name remaining lastError).
Proof.
  intros Hfn. revert lastError.
  pose proof any_state_refl. pose proof any_state_trans.
  induction remaining as [|k IH]; intros lastError Hlast; cbn [retry_loop].
  - apply respects_throw; auto.
  - unfold sleep. respects_auto plain_cond; apply IH; auto.
Qed.

(** What leaves [tick] as an exception is an [Error] object. *)
Lemma V4_tick_throws env st e : (V4.tick env st).1.1 = Throw e → is_error e.
Proof.
  assert (respects any_event any_state V4.tick) as H; [|apply (H env st)].
  unfold V4.tick, getPositions, V4.printPositions, V4.evaluate, V4.closePosition,
    roundQty, Number_toFixed, cancel_orders, cancelAllOrders, getAlgoOrders, cancelAlgoOrder,
    V4.submit, V4.report, V4.failed, send, retry, marketClose.
  pose proof any_state_refl. pose proof any_state_trans.
  respects_auto plain_cond.
  apply retry_loop_any; [respects_auto plain_cond | done].
Qed.

Lemma V3_tick_throws env st e : (V3.tick env st).1.1 = Throw e → is_error e.
Proof.
  assert (respects any_event any_state V3.tick) as H; [|apply (H env st)].
  unfold V3.tick, getPositions, V3.printPositions, V3.evaluate, V3.closePosition,
    roundQty, Number_toFixed, cancel_orders, cancelAllOrders, getAlgoOrders, cancelAlgoOrder,
    V3.submit, V3.report, V3.failed, send, marketClose, clearSymbol.
  pose proof any_state_refl. pose proof any_state_trans.
  respects_auto plain_cond.
Qed.

(** No exception leaves a turn of the monitor's loop. *)
Lemma V4_iteration_ok env st : (V4.iteration env st).1.1 = Ok ().
Proof.
  unfold V4.iteration.
  unfold mbind at 1 2, M_bind at 1 2, bind at 1 2, ask, try_catch.
  unfold mbind at 1, M_bind at 1, bind at 1.
  pose proof (V4_tick_throws env st) as Ht.
  destruct (V4.tick env st) as [[[[]|e] st1] ev1]; cbn [fst snd] in *.
  - by unfold sleep; run.
  - destruct e as [msg|]; [|by destruct (Ht ThrownNull)].
    unfold sleep, message_of. run. repeat destruct_inner; done.
Qed.

Lemma V3_iteration_ok env st : (V3.iteration env st).1.1 = Ok ().
Proof.
  unfold V3.iteration.
  unfold mbind at 1 2, M_bind at 1 2, bind at 1 2, ask, try_catch.
  unfold mbind at 1, M_bind at 1, bind at 1.
  pose proof (V3_tick_throws env st) as Ht.
  destruct (V3.tick env st) as [[[[]|e] st1] ev1]; cbn [fst snd] in *.
  - by unfold sleep; run.
  - destruct e as [msg|]; [|by destruct (Ht ThrownNull)].
    unfold sleep, message_of. run. repeat destruct_inner; done.
Qed.

Lemma telegrams_app a b : telegrams (a ++ b) = telegrams a ++ telegrams b.
Proof. apply omap_app. Qed.

Lemma telegrams_none evs : Forall no_telegram evs → telegrams evs = [].
Proof.
  unfold telegrams. induction 1 as [|e evs He _ IH]; [done|].
  cbn. by destruct e.
Qed.

Lemma telegrams_send tag text env st :
  telegrams (send tag text env st).2 = if configured (cfg env) then [text] else [].
Proof.
  rewrite send_run. destruct (configured (cfg env)); [|done].
  by destruct (sendMessage _ _ _).
Qed.

Lemma V4_submit_no_telegram pos qty env st : telegrams (V4.submit pos qty env st).2 = [].
Proof.
  rewrite V4_submit_run. cbv zeta. unfold sent_order. by repeat destruct_inner.
Qed.

Lemma rounded_no_telegram pos env st : telegrams (rounded pos env st).2 = [].
Proof.
  apply telegrams_none.
  assert (respects no_telegram any_state (roundQty (symbol pos) (JS.Math_abs (amt pos)))) as Hq
    by (by apply roundQty_quiet).
  apply (Hq env st).
Qed.

Lemma cancel_no_telegram pos lv line env st :
  telegrams (cancel_orders pos (mret ()) env st).2 = []
  ∧ telegrams (cancel_orders pos (log lv line) env st).2 = [].
Proof.
  split; apply telegrams_none.
  - assert (respects no_telegram any_state (cancel_orders pos (mret ()))) as Hc
      by (apply cancel_orders_quiet; try done; by apply respects_ret).
    apply (Hc env st).
  - assert (respects no_telegram any_state (cancel_orders pos (log lv line))) as Hc
      by (apply cancel_orders_quiet; try done; by apply respects_log).
    apply (Hc env st).
Qed.

(** The Telegram texts of a close of Guardian 4.0 whose order went through. *)
Lemma V4_close_telegrams pos qty res env st :
  dryRun (cfg env) = false →
  (rounded pos env st).1.1 = Ok qty →
  (V4_submitted pos qty env st).1.1 = Ok res →
  telegrams (V4.closePosition pos env st).2
  = if configured (cfg env) then [V4_notification pos res] else [].
Proof.
  intros Hdry Hq Hs. rewrite V4_closePosition_run.
  unfold V4_submitted, V4_cancelled in Hs.
  pose proof (rounded_no_telegram pos env st) as T1.
  destruct (rounded pos env st) as [[rq st1] ev1]. cbn [fst snd] in *. subst rq.
  rewrite Hdry.
  pose proof (proj1 (cancel_no_telegram pos INFO "" env st1)) as T2.
  destruct (cancel_orders pos (mret ()) env st1) as [[rc st2] ev2]. cbn [fst snd] in *.
  pose proof (V4_submit_no_telegram pos qty env st2) as T3.
  destruct (V4.submit pos qty env st2) as [[rs st3] ev3]. cbn [fst snd] in *. subst rs.
  destruct (V4_report_run pos res env st3) as (lv & line & ->).
  pose proof (telegrams_send V4.tag (V4_notification pos res) env st3) as T4.
  destruct (send _ _ env st3) as [[r st4] ev4]. cbn [fst snd] in *.
  change (EvClosePosition pos :: ?l) with ([EvClosePosition pos] ++ l).
  change (EvLog lv line :: ev4) with ([EvLog lv line] ++ ev4).
  by rewrite !telegrams_app, T1, T2, T3, T4.
Qed.

(** The Telegram texts of a close of Guardian 3.0 whose order went through. *)
Lemma V3_close_telegrams pos qty res env st :
  dryRun (cfg env) = false →
  (rounded pos env st).1.1 = Ok qty →
  (V3_submitted pos qty env st).1.1 = Ok res →
  telegrams (V3.closePosition pos env st).2
  = if configured (cfg env) then [V3.closed_text (cfg env) pos qty res] else [].
Proof.
  intros Hdry Hq Hs. rewrite V3_closePosition_run.
  unfold V3_submitted, V3_cancelled in Hs.
  pose proof (rounded_no_telegram pos env st) as T1.
  destruct (rounded pos env st) as [[rq st1] ev1]. cbn [fst snd] in *. subst rq.
  rewrite Hdry.
  pose proof (proj2 (cancel_no_telegram pos INFO (symbol pos +:+ " - ордера отменены")
                       env st1)) as T2.
  destruct (cancel_orders pos _ env st1) as [[rc st2] ev2]. cbn [fst snd] in *.
  rewrite V3_submit_run in *. cbn [fst snd] in *. rewrite Hs.
  destruct (V3_report_run pos qty res env (set_requests (S (requests st2)) st2)) as (f & ->).
  pose proof (telegrams_send V3.tag (V3.closed_text (cfg env) pos qty res) env
                (set_requests (S (requests st2)) st2)) as T4.
  destruct (send _ _ env _) as [[r st4] ev4]. cbn [fst snd] in *.
  change (EvClosePosition pos :: ?l) with ([EvClosePosition pos] ++ l).
  change (EvLog ?a ?b :: ev4) with ([EvLog a b] ++ ev4).
  by rewrite !telegrams_app, T1, T2, T4.
Qed.

(** C4, as amended.  In Guardian 4.0, a close whose order went through
    sends one Telegram text, chosen by the status of the order: the
    "closed" text for FILLED, the "not fully closed" text for
    PARTIALLY_FILLED and NEW, the "unexpected status" text for any other
    status; no two of the three texts are ever equal.  In Guardian 3.0
    the text sent does not depend on the status. *)
Theorem close_status_reported pos qty res env st :
  (dryRun (cfg env) = false →
   (rounded pos env st).1.1 = Ok qty →
   (V4_submitted pos qty env st).1.1 = Ok res →
   telegrams (V4.closePosition pos env st).2
   = if configured (cfg env) then [V4_notification pos res] else [])
  ∧ (result_status res = "FILLED" → V4_notification pos res = V4.closed_text pos res)
  ∧ (result_status res = "PARTIALLY_FILLED" ∨ result_status res = "NEW" →
     V4_notification pos res = V4.partial_text pos res)
  ∧ (result_status res ≠ "FILLED" → result_status res ≠ "PARTIALLY_FILLED" →
     result_status res ≠ "NEW" →
     V4_notification pos res = V4.unexpected_text pos res)
  ∧ (∀ p1 r1 p2 r2,
       V4.closed_text p1 r1 ≠ V4.partial_text p2 r2
       ∧ V4.closed_text p1 r1 ≠ V4.unexpected_text p2 r2
       ∧ V4.partial_text p1 r1 ≠ V4.unexpected_text p2 r2)
  ∧ (dryRun (cfg env) = false →
     (rounded pos env st).1.1 = Ok qty →
     (V3_submitted pos qty env st).1.1 = Ok res →
     telegrams (V3.closePosition pos env st).2
     = if configured (cfg env) then [V3.closed_text (cfg env) pos qty res] else [])
  ∧ (∀ c id s1 s2,
       V3.closed_text c pos qty {| orderId := id; result_status := s1 |}
       = V3.closed_text c pos qty {| orderId := id; result_status := s2 |}).
Proof.
  split; [apply V4_close_telegrams|].
  split; [|split; [|split; [|split; [|split]]]].
  - intros H. unfold V4_notification. by rewrite H.
  - intros [H|H]; unfold V4_notification; by rewrite H.
  - intros H1 H2 H3. unfold V4_notification.
    apply String.eqb_neq in H1, H2, H3. by rewrite H1, H2, H3.
  - intros p1 r1 p2 r2. unfold V4.closed_text, V4.partial_text, V4.unexpected_text.
    repeat split; intros H; cbn in H; discriminate H.
  - apply V3_close_telegrams.
  - done.
Qed.

(** A tick that runs to its end enters the close protocol for every
    triggering position of its snapshot. *)
Lemma V4_tick_enters env st p :
  (V4.tick env st).1.1 = Ok () → paused st = false →
  In p (positions (V4.tick env st).1.2) → triggers (cfg env) p = true →
  In (EvClosePosition p) (V4.tick env st).2.
Proof.
  rewrite V4_tick_run. intros Hr Hp.
  destruct (positionRisk (exchange env) (requests st)) as [rs|e]; [|done].
  cbv zeta in *. rewrite Hp in *.
  destruct (close_loop V4.evaluate (parse_positions rs) env V4_evaluates (V4_fetched rs st))
    as ((Hpos & _) & _ & Hall).
  rewrite V4_fetched_positions in Hpos.
  destruct (for_of _ V4.evaluate _ _) as [[r4 st4] ev4]. cbn [fst snd] in *.
  rewrite Hpos. intros Hin Ht. right. apply in_or_app. right. by apply Hall.
Qed.

Lemma V3_tick_enters env st p :
  (V3.tick env st).1.1 = Ok () →
  In p (positions (V3.tick env st).1.2) → triggers (cfg env) p = true →
  In (EvClosePosition p) (V3.tick env st).2.
Proof.
  rewrite V3_tick_run. intros Hr.
  destruct (positionRisk (exchange env) (requests st)) as [rs|e]; [|done].
  destruct (close_loop V3.evaluate (parse_positions rs) env V3_evaluates (V3_fetched rs st))
    as ((Hpos & _) & _ & Hall).
  destruct (for_of _ V3.evaluate _ _) as [[r3 st3] ev3]. cbn [fst snd] in *.
  rewrite Hpos. cbn. intros Hin Ht. right. apply in_or_app. right. by apply Hall.
Qed.

(** A close of Guardian 4.0 whose three submissions are rejected. *)
Lemma V4_close_rejected pos qty m1 m2 m3 env st :
  dryRun (cfg env) = false →
  (rounded pos env st).1.1 = Ok qty →
  let n := requests (V4_cancelled pos env st).1.2 in
  order_answer env pos qty n = Failed m1 →
  order_answer env pos qty (S n) = Failed m2 →
  order_answer env pos qty (S (S n)) = Failed m3 →
  (V4.closePosition pos env st).1.1 = Ok ()
  ∧ ∃ tail,
      (V4.closePosition pos env st).2
      = EvClosePosition pos :: (rounded pos env st).2 ++ (V4_cancelled pos env st).2
        ++ [sent_order pos qty; EvLog WARN (retry_line pos 1); EvSleep 500;
            sent_order pos qty; EvLog WARN (retry_line pos 2); EvSleep 500;
            sent_order pos qty]
        ++ EvLog ERR ("FAILED " +:+ symbol pos +:+ ": " +:+ m3) :: tail
      ∧ telegrams tail = if configured (cfg env) then [V4.failure_text pos m3] else [].
Proof.
  intros Hdry Hq n H1 H2 H3. rewrite V4_closePosition_run.
  unfold V4_cancelled in *.
  destruct (rounded pos env st) as [[rq st1] ev1]. cbn [fst snd] in *. subst rq.
  rewrite Hdry.
  destruct (cancel_orders pos (mret ()) env st1) as [[rc st2] ev2]. cbn [fst snd] in *.
  rewrite V4_submit_run. cbv zeta. fold n. rewrite H1, H2, H3.
  rewrite V4_failed_run.
  match goal with |- context [send ?t ?x env ?s] =>
    pose proof (telegrams_send t x env s) as T; destruct (send t x env s) as [[r st4] ev4]
  end.
  cbn [fst snd] in *. split; [done|]. exists ev4. split; [|done].
  by rewrite <- ?app_assoc.
Qed.

(** A close of Guardian 3.0 whose submission is rejected. *)
Lemma V3_close_rejected pos qty m env st :
  dryRun (cfg env) = false →
  (rounded pos env st).1.1 = Ok qty →
  order_answer env pos qty (requests (V3_cancelled pos env st).1.2) = Failed m →
  (V3.closePosition pos env st).1.1 = Ok ()
  ∧ ∃ tail,
      (V3.closePosition pos env st).2
      = EvClosePosition pos :: (rounded pos env st).2 ++ (V3_cancelled pos env st).2
        ++ [sent_order pos qty]
        ++ EvLog ERR ("Не удалось закрыть " +:+ symbol pos +:+ ": " +:+ m) :: tail
      ∧ telegrams tail = if configured (cfg env) then [V3.failure_text pos m] else [].
Proof.
  intros Hdry Hq H1. rewrite V3_closePosition_run.
  unfold V3_cancelled in *.
  destruct (rounded pos env st) as [[rq st1] ev1]. cbn [fst snd] in *. subst rq.
  rewrite Hdry.
  destruct (cancel_orders pos _ env st1) as [[rc st2] ev2]. cbn [fst snd] in *.
  rewrite V3_submit_run, H1. cbn [thrown].
  rewrite V3_failed_run.
  match goal with |- context [send ?t ?x env ?s] =>
    pose proof (telegrams_send t x env s) as T; destruct (send t x env s) as [[r st4] ev4]
  end.
  cbn [fst snd] in *. split; [done|]. exists ev4. split; [|done].
  by rewrite <- ?app_assoc.
Qed.

(** C3, as amended.  In Guardian 4.0 the close order is submitted at most
    three times, a rejected first or second submission being followed by
    a console line, a wait of 500 ms and the next submission; when all
    three are rejected, [closePosition] writes an error line, sends the
    failure text to Telegram (when Telegram is configured) and returns
    normally, leaving the snapshot and the pause flag as they were, and
    the next tick that runs to its end enters the close protocol again
    for every triggering position; no exception leaves a turn of the
    loop.  In Guardian 3.0 the order is submitted once, without retry,
    and a rejection is reported in the same way. *)
Theorem close_submission_attempts pos qty env st :
  (let n := requests st in
   let sub := sent_order pos qty in
   let pause st := set_now (now st + 500) st in
   let st1 := set_requests (S n) st in
   let st2 := set_requests (S (S n)) (pause st1) in
   let st3 := set_requests (S (S (S n))) (pause st2) in
   let ev2 := [sub; EvLog WARN (retry_line pos 1); EvSleep 500; sub] in
   let ev3 := ev2 ++ [EvLog WARN (retry_line pos 2); EvSleep 500; sub] in
   V4.submit pos qty env st =
     match order_answer env pos qty n with
     | Body res => (Ok res, st1, [sub])
     | Failed _ =>
         match order_answer env pos qty (S n) with
         | Body res => (Ok res, st2, ev2)
         | Failed _ =>
             match order_answer env pos qty (S (S n)) with
             | Body res => (Ok res, st3, ev3)
             | Failed msg => (Throw (Error msg), st3, ev3)
             end
         end
     end)
  ∧ (submissions (V4.closePosition pos env st).2 ≤ 3)%nat
  ∧ (∀ m1 m2 m3,
       dryRun (cfg env) = false →
       (rounded pos env st).1.1 = Ok qty →
       let n := requests (V4_cancelled pos env st).1.2 in
       order_answer env pos qty n = Failed m1 →
       order_answer env pos qty (S n) = Failed m2 →
       order_answer env pos qty (S (S n)) = Failed m3 →
       (V4.closePosition pos env st).1.1 = Ok ()
       ∧ ∃ tail,
           (V4.closePosition pos env st).2
           = EvClosePosition pos :: (rounded pos env st).2 ++ (V4_cancelled pos env st).2
             ++ [sent_order pos qty; EvLog WARN (retry_line pos 1); EvSleep 500;
                 sent_order pos qty; EvLog WARN (retry_line pos 2); EvSleep 500;
                 sent_order pos qty]
             ++ EvLog ERR ("FAILED " +:+ symbol pos +:+ ": " +:+ m3) :: tail
           ∧ telegrams tail = if configured (cfg env) then [V4.failure_text pos m3] else [])
  ∧ same_monitor st (V4.closePosition pos env st).1.2
  ∧ (V4.iteration env st).1.1 = Ok ()
  ∧ (∀ p, let st' := (V4.closePosition pos env st).1.2 in
          (V4.tick env st').1.1 = Ok () → paused st = false →
          In p (positions (V4.tick env st').1.2) → triggers (cfg env) p = true →
          In (EvClosePosition p) (V4.tick env st').2)
  ∧ V3.submit pos qty env st
    = (thrown (order_answer env pos qty (requests st)),
       set_requests (S (requests st)) st, [sent_order pos qty])
  ∧ (submissions (V3.closePosition pos env st).2 ≤ 1)%nat
  ∧ (∀ m,
       dryRun (cfg env) = false →
       (rounded pos env st).1.1 = Ok qty →
       order_answer env pos qty (requests (V3_cancelled pos env st).1.2) = Failed m →
       (V3.closePosition pos env st).1.1 = Ok ()
       ∧ ∃ tail,
           (V3.closePosition pos env st).2
           = EvClosePosition pos :: (rounded pos env st).2 ++ (V3_cancelled pos env st).2
             ++ [sent_order pos qty]
             ++ EvLog ERR ("Не удалось закрыть " +:+ symbol pos +:+ ": " +:+ m) :: tail
           ∧ telegrams tail = if configured (cfg env) then [V3.failure_text pos m] else [])
  ∧ same_monitor st (V3.closePosition pos env st).1.2
  ∧ (V3.iteration env st).1.1 = Ok ().
Proof.
  split; [apply V4_submit_run|].
  split; [apply V4_close_count|].
  split; [intros m1 m2 m3; apply V4_close_rejected|].
  destruct (V4_closePosition_effects pos env st) as (ev4 & _ & _ & Hm4 & _).
  destruct (V3_closePosition_effects pos env st) as (ev3 & _ & _ & Hm3 & _).
  split; [done|]. split; [apply V4_iteration_ok|].
  split.
  { intros p st' Hr Hp. apply V4_tick_enters; [done|]. subst st'.
    destruct Hm4 as (_ & Hpa & _). by rewrite Hpa. }
  split; [apply V3_submit_run|].
  split; [apply V3_close_count|].
  split; [intros m; apply V3_close_rejected|].
  split; [done | apply V3_iteration_ok].
Qed.

(** ** Quantity rounding *)

(** [roundQty] when the precision of the symbol is already cached. *)
Lemma roundQty_cached sym qty p env st :
  symbolInfo st !! sym = Some p →
  roundQty sym qty env st =
    let precision := match p with S _ => p | O => 6%nat end in
    if (100 <? precision)%nat
    then (Throw (Error "toFixed() digits argument must be between 0 and 100"), st, [])
    else (Ok (JS.parseFloat (JS.toFixed qty precision)), st, []).
Proof.
  intros Hp. unfold roundQty, Number_toFixed.
  unfold mbind, M_bind, bind, get, mret, M_ret, ret, throw. rewrite Hp.
  destruct (decide (is_Some (Some p))) as [_|H]; [|by destruct H].
  cbv beta iota zeta. rewrite Hp.
  destruct p as [|p]; [done|]. by destruct (100 <? S p)%nat.
Qed.

(** [roundQty] when the symbol is not cached: the instrument metadata is
    fetched and every instrument with a lot step is recorded first. *)
Lemma roundQty_uncached sym qty env st :
  symbolInfo st !! sym = None →
  roundQty sym qty env st =
    match exchangeInfo (exchange env) (requests st) with
    | Failed msg => (Throw (Error msg), set_requests (S (requests st)) st, [EvExchangeInfo])
    | Body info =>
        let st' := set_symbolInfo (λ m, fold_left load_symbol info m)
                     (set_requests (S (requests st)) st) in
        let precision := match symbolInfo st' !! sym with
                         | Some (S p) => S p
                         | _ => 6%nat
                         end in
        if (100 <? precision)%nat
        then (Throw (Error "toFixed() digits argument must be between 0 and 100"),
              st', [EvExchangeInfo])
        else (Ok (JS.parseFloat (JS.toFixed qty precision)), st', [EvExchangeInfo])
    end.
Proof.
  intros Hp. unfold roundQty, Number_toFixed.
  unfold mbind, M_bind, bind, get, mret, M_ret, ret, throw, http, modify. rewrite Hp.
  destruct (decide (is_Some None)) as [H|_]; [by destruct H|].
  destruct (exchangeInfo (exchange env) (requests st)) as [info|msg]; [|done].
  cbv beta iota zeta delta [thrown].
  by destruct (100 <? _)%nat.
Qed.

Lemma load_symbol_lookup m s lot c r :
  List.find (λ f, String.eqb (filterType f) "LOT_SIZE") (filters s) = Some lot →
  stepSize lot = Some (String c r) →
  load_symbol m s !! info_symbol s = Some (fraction_digits (String c r)).
Proof.
  intros Hf Hs. unfold load_symbol. rewrite Hf, Hs. apply lookup_insert_eq.
Qed.

(** C10.  A lot step without fractional digits, such as "1", is recorded
    as precision 0; and for a symbol whose cached precision is 0,
    [roundQty] rounds to 6 fractional digits, the default of an unknown
    symbol: it returns [parseFloat(qty.toFixed(6))], which for 1.5 is 1.5
    and not the 2 that 0 digits give. *)
Theorem zero_precision_rounds_to_six sym qty env st :
  symbolInfo st !! sym = Some 0%nat →
  roundQty sym qty env st = (Ok (JS.parseFloat (JS.toFixed qty 6)), st, [])
  ∧ fraction_digits "1" = 0%nat
  ∧ (∀ m s lot,
       List.find (λ f, String.eqb (filterType f) "LOT_SIZE") (filters s) = Some lot →
       stepSize lot = Some "1" →
       load_symbol m s !! info_symbol s = Some 0%nat)
  ∧ JS.parseFloat (JS.toFixed (JS.parseFloat "1.5") 6) = JS.parseFloat "1.5"
  ∧ JS.parseFloat (JS.toFixed (JS.parseFloat "1.5") 0) = JS.parseFloat "2".
Proof.
  intros Hp. split; [by rewrite (roundQty_cached _ _ _ _ _ Hp)|].
  split; [done|]. split; [|split; vm_compute; reflexivity].
  intros m s lot Hf Hs. by rewrite (load_symbol_lookup m s lot "1" "" Hf Hs).
Qed.

(** ** Binary64 arithmetic *)

Lemma round_half_even_spec a b :
  0 ≤ a → 0 < b →
  0 ≤ JS.round_half_even a b ∧ 2 * Z.abs (JS.round_half_even a b * b - a) ≤ b.
Proof.
  intros Ha Hb. unfold JS.round_half_even.
  pose proof (Z.div_mod a b ltac:(lia)) as Hd.
  pose proof (Z.mod_pos_bound a b Hb) as Hm.
  pose proof (Z.div_pos a b Ha Hb) as Hq.
  destruct (Z.compare_spec (2 * (a mod b)) b) as [H|H|H];
    [destruct (Z.even (a / b))| |]; split; nia.
Qed.

Lemma scale2_spec a b e :
  -1074 ≤ e →
  ∃ s, 0 < s ∧ a * grid = fst (JS.scale2 a b e) * s
       ∧ b * 2 ^ (e + 1074) = snd (JS.scale2 a b e) * s.
Proof.
  intros He. unfold JS.scale2, grid.
  destruct (Z.leb_spec 0 e) as [H|H]; cbn [fst snd].
  - exists (2 ^ 1074). split; [by apply Z.pow_pos_nonneg|].
    split; [done|]. rewrite Z.pow_add_r by lia. ring.
  - exists (2 ^ (e + 1074)). split; [apply Z.pow_pos_nonneg; lia|].
    split; [|done]. rewrite <- Z.mul_assoc, <- Z.pow_add_r by lia.
    f_equal. f_equal. lia.
Qed.

Lemma binade_spec a b :
  0 < a → 0 < b →
  -1074 ≤ JS.binade a b
  ∧ (-1074 < JS.binade a b →
     2 ^ 52 * (b * 2 ^ (JS.binade a b + 1074)) ≤ a * grid).
Proof.
  intros Ha Hb. unfold JS.binade.
  remember (Z.log2 a - Z.log2 b - 53) as e0 eqn:Ee0.
  destruct (JS.scale2 a b e0) as [n d] eqn:Hs.
  set (e1 := if n <? d * 2 ^ 53 then e0 else e0 + 1).
  change JS.emin with (-1074).
  split; [lia|]. intros He.
  replace (Z.max e1 (-1074)) with e1 in * by lia.
  assert (He0 : -1074 ≤ e0) by (subst e1; destruct (n <? _); lia).
  destruct (scale2_spec a b e0 He0) as (s & Hs0 & Hn & Hd).
  rewrite Hs in Hn, Hd. cbn [fst snd] in Hn, Hd.
  subst e1. destruct (Z.ltb_spec n (d * 2 ^ 53)) as [H|H].
  - (* the estimate from the bit lengths *)
    pose proof (Z.log2_spec a Ha) as [Hla _].
    pose proof (Z.log2_spec b Hb) as [_ Hlb].
    pose proof (Z.log2_nonneg a). pose proof (Z.log2_nonneg b).
    assert (Hw : 2 ^ (e0 + 1074) * 2 ^ Z.succ (Z.log2 b) = 2 ^ Z.log2 a * 2 ^ 1022).
    { rewrite <- !Z.pow_add_r by lia. f_equal. lia. }
    unfold grid. change (2 ^ 1074) with (2 ^ 1022 * 2 ^ 52).
    set (W := 2 ^ (e0 + 1074)) in *. set (K := 2 ^ Z.succ (Z.log2 b)) in *.
    set (A := 2 ^ Z.log2 a) in *. set (G := 2 ^ 1022) in *.
    assert (0 < G) by done. assert (0 < 2 ^ 52) by done.
    set (D := 2 ^ 52) in *.
    assert (HK : 0 < K) by (apply Z.pow_pos_nonneg; lia).
    assert (b * W * K ≤ a * G * K).
    { replace (b * W * K) with (b * (W * K)) by ring. rewrite Hw.
      transitivity (K * (a * G)); [|lia].
      replace (b * (A * G)) with ((b * A) * G) by ring.
      replace (K * (a * G)) with ((K * a) * G) by ring.
      apply Z.mul_le_mono_nonneg_r; [lia|]. nia. }
    assert (b * W ≤ a * G) by (apply Z.mul_le_mono_pos_r with K; assumption).
    nia.
  - replace (e0 + 1 + 1074) with (e0 + 1074 + 1) by lia.
    rewrite Z.pow_add_r by lia. rewrite Hn.
    change (2 ^ 52) with 4503599627370496. change (2 ^ 1) with 2.
    change (2 ^ 53) with 9007199254740992 in H.
    set (c := 2 ^ (e0 + 1074)) in *.
    assert (0 < d) by (assert (0 < b * c); [apply Z.mul_pos_pos; [done|apply Z.pow_pos_nonneg; lia]|nia]).
    nia.
Qed.

Lemma round_to_double_form s a b :
  0 < a → 0 < b →
  JS.round_to_double s a b = S754_infinity s ∨
  ∃ E q, 0 ≤ E ∧ 0 ≤ q
    ∧ scaled (JS.round_to_double s a b) = q * 2 ^ E
    ∧ 2 * Z.abs (q * 2 ^ E * b - a * grid) ≤ b * 2 ^ E
    ∧ (0 < E → 2 ^ 52 * (b * 2 ^ E) ≤ a * grid).
Proof.
  intros Ha Hb. unfold JS.round_to_double.
  destruct (Z.eqb_spec a 0) as [|_]; [lia|].
  destruct (binade_spec a b Ha Hb) as [He Hlow].
  remember (JS.binade a b) as e eqn:Ee. clear Ee.
  destruct (scale2_spec a b e He) as (k & Hk & Hn & Hd).
  destruct (JS.scale2 a b e) as [n d]. cbn [fst snd] in Hn, Hd.
  assert (Hc : 0 < 2 ^ (e + 1074)) by (apply Z.pow_pos_nonneg; lia).
  assert (HG : 0 < grid) by done.
  assert (Hn0 : 0 < n) by nia. assert (Hd0 : 0 < d) by nia.
  destruct (round_half_even_spec n d ltac:(lia) Hd0) as [Hq0 Hq].
  remember (JS.round_half_even n d) as q eqn:Eq. clear Eq.
  assert (Hnear : 2 * Z.abs (q * 2 ^ (e + 1074) * b - a * grid) ≤ b * 2 ^ (e + 1074)).
  { replace (q * 2 ^ (e + 1074) * b) with (q * (b * 2 ^ (e + 1074))) by ring.
    rewrite Hn, Hd. replace (q * (d * k) - n * k) with ((q * d - n) * k) by ring.
    rewrite Z.abs_mul, (Z.abs_eq k) by lia. nia. }
  assert (Hlow' : 0 < e + 1074 → 2 ^ 52 * (b * 2 ^ (e + 1074)) ≤ a * grid)
    by (intros; apply Hlow; lia).
  destruct (Z.eqb_spec q (2 ^ 53)) as [Hq53|Hq53].
  - cbv beta iota.
    destruct (Z.leb_spec (e + 1) JS.etop).
    2: { left. by change (2 ^ 52) with (Z.pos 4503599627370496). }
    right. exists (e + 1074), q. split; [lia|]. split; [done|].
    split; [|by split].
    change (2 ^ 52) with (Z.pos 4503599627370496). cbn [scaled]. subst q.
    replace (e + 1 + 1074) with (1 + (e + 1074)) by lia.
    rewrite Z.pow_add_r by lia. change (2 ^ 53) with (4503599627370496 * 2 ^ 1). ring.
  - destruct q as [|q|q]; [| |lia].
    + right. exists (e + 1074), 0. split; [lia|]. by repeat split.
    + destruct (Z.leb_spec e JS.etop); [|by left]. right.
      exists (e + 1074), (Z.pos q). split; [lia|]. by repeat split.
Qed.

Lemma round_to_double_shape s a b :
  match JS.round_to_double s a b with
  | S754_zero s' | S754_infinity s' => s' = s
  | S754_nan => False
  | S754_finite s' _ e => s' = s ∧ (0 < a → 0 < b → -1074 ≤ e)
  end.
Proof.
  unfold JS.round_to_double.
  destruct (a =? 0); [done|].
  destruct (JS.scale2 a b (JS.binade a b)) as [n d].
  destruct (_ =? 2 ^ 53).
  - change (2 ^ 52) with 4503599627370496. cbv beta iota.
    destruct (_ <=? _); [|done]. split; [done|]. intros Ha Hb.
    pose proof (binade_spec a b Ha Hb). lia.
  - destruct (JS.round_half_even n d); try done.
    destruct (_ <=? _); [|done]. split; [done|]. intros Ha Hb.
    pose proof (binade_spec a b Ha Hb). lia.
Qed.

(** No binary64 is closer to [a / b] than [round_to_double s a b]. *)
Lemma round_to_double_nearest s a b m e :
  0 < a → 0 < b →
  JS.round_to_double s a b ≠ S754_infinity s →
  0 ≤ m < 2 ^ 53 → -1074 ≤ e →
  Z.abs (scaled (JS.round_to_double s a b) * b - a * grid)
    ≤ Z.abs (m * 2 ^ (e + 1074) * b - a * grid).
Proof.
  intros Ha Hb Hfin Hm He.
  destruct (round_to_double_form s a b Ha Hb) as [|(E & q & HE & Hq & -> & Hnear & Hlow)];
    [done|].
  assert (Hc : 0 < 2 ^ E) by (by apply Z.pow_pos_nonneg).
  remember (a * grid) as t eqn:Et.
  destruct (Z.le_gt_cases E (e + 1074)) as [Hle|Hgt].
  - (* the other number is on the grid of the result *)
    replace (e + 1074) with ((e + 1074 - E) + E) by lia.
    rewrite Z.pow_add_r by lia.
    assert (0 < 2 ^ (e + 1074 - E)) by (apply Z.pow_pos_nonneg; lia).
    set (c := 2 ^ E) in *. set (k := m * 2 ^ (e + 1074 - E)).
    replace (m * (2 ^ (e + 1074 - E) * c)) with (k * c) by (unfold k; ring).
    clearbody k c. clear Hlow.
    destruct (Z.eq_dec k q) as [->|Hne]; [done|].
    assert (b * c ≤ Z.abs (k * c * b - q * c * b)).
    { replace (k * c * b - q * c * b) with ((k - q) * (b * c)) by ring.
      assert (0 < b * c) by nia.
      rewrite Z.abs_mul, (Z.abs_eq (b * c)) by lia.
      assert (1 ≤ Z.abs (k - q)) by lia.
      set (z := Z.abs (k - q)) in *. set (w := b * c) in *. clearbody z w. nia. }
    lia.
  - (* the other number is below the binade of the result *)
    assert (H52 : 2 ^ 52 * (b * 2 ^ E) ≤ t) by (apply Hlow; lia).
    assert (Hy : m * 2 ^ (e + 1074) * 2 < 2 ^ 53 * 2 ^ E).
    { assert (HE2 : 2 ^ E = 2 ^ (E - (e + 1074) - 1) * 2 ^ (e + 1074) * 2).
      { replace E with (Z.succ ((E - (e + 1074) - 1) + (e + 1074))) at 1 by lia.
        rewrite Z.pow_succ_r, Z.pow_add_r by lia. ring. }
      rewrite HE2.
      assert (0 < 2 ^ (e + 1074)) by (apply Z.pow_pos_nonneg; lia).
      assert (1 ≤ 2 ^ (E - (e + 1074) - 1)) by (apply Z.lt_pred_le, Z.pow_pos_nonneg; lia).
      set (u := 2 ^ (e + 1074)) in *. set (v := 2 ^ (E - (e + 1074) - 1)) in *.
      assert (m * u < 2 ^ 53 * u) by nia.
      assert (2 ^ 53 * u ≤ 2 ^ 53 * v * u) by nia. lia. }
    change (2 ^ 53) with (2 ^ 52 * 2) in Hy.
    set (c := 2 ^ E) in *. set (y := m * 2 ^ (e + 1074)) in *.
    set (h := 2 ^ 52) in *. assert (0 < h) by done.
    clearbody y c h. clear Hlow.
    assert (Hyb : y * b < h * c * b) by nia.
    assert (Hq52 : h ≤ q).
    { destruct (Z.le_gt_cases h q); [done|]. exfalso.
      assert (q + 1 ≤ h) by lia.
      assert ((q + 1) * (b * c) ≤ h * (b * c)) by (apply Z.mul_le_mono_nonneg_r; nia).
      nia. }
    destruct (Z.eq_dec q h) as [->|Hne].
    + nia.
    + assert (h + 1 ≤ q) by lia.
      assert ((h + 1) * (b * c) ≤ q * (b * c)) by (apply Z.mul_le_mono_nonneg_r; nia).
      nia.
Qed.

Lemma digits2_pos_bound m : Z.pos m < 2 ^ Z.pos (digits2_pos m).
Proof.
  induction m as [m IH|m IH|]; cbn [digits2_pos]; [| |done];
    rewrite Pos2Z.inj_succ, Z.pow_succ_r by lia; lia.
Qed.

Lemma bounded_valid m e :
  bounded 53 1024 m e = true → -1074 ≤ e ∧ Z.pos m < 2 ^ 53.
Proof.
  unfold bounded, canonical_mantissa, fexp, SpecFloat.emin.
  intros [Hc _]%andb_prop. apply Z.eqb_eq in Hc.
  pose proof (digits2_pos_bound m) as Hm.
  split; [lia|].
  eapply Z.lt_le_trans; [exact Hm|]. apply Z.pow_le_mono_r; lia.
Qed.

Lemma grid_split e : -1074 ≤ e → e < 0 → 2 ^ (- e) * 2 ^ (e + 1074) = grid.
Proof. intros. unfold grid. rewrite <- Z.pow_add_r by lia. f_equal. lia. Qed.

Lemma grid_shift e : 0 ≤ e → 2 ^ (e + 1074) = 2 ^ e * grid.
Proof. intros. unfold grid. by rewrite Z.pow_add_r by lia. Qed.

Lemma scaled_round_spec m e f :
  -1074 ≤ e →
  0 ≤ JS.scaled_round m e f
  ∧ 2 * JS.scaled_round m e f * grid
      ≤ 2 * (Z.pos m * 2 ^ (e + 1074)) * 10 ^ Z.of_nat f + grid
  ∧ 2 * (Z.pos m * 2 ^ (e + 1074)) * 10 ^ Z.of_nat f + grid
      < 2 * (JS.scaled_round m e f + 1) * grid.
Proof.
  intros He. unfold JS.scaled_round.
  assert (HP : 0 < 10 ^ Z.of_nat f) by (apply Z.pow_pos_nonneg; lia).
  assert (HG : 0 < grid) by done.
  set (P := 10 ^ Z.of_nat f) in *. clearbody P.
  destruct (Z.leb_spec 0 e) as [H|H].
  - rewrite grid_shift by done.
    assert (0 < 2 ^ e) by (apply Z.pow_pos_nonneg; lia).
    set (c := 2 ^ e) in *. clearbody c. nia.
  - rewrite <- (grid_split e He H).
    assert (Hu : 0 < 2 ^ (- e)) by (apply Z.pow_pos_nonneg; lia).
    assert (Hw : 0 < 2 ^ (e + 1074)) by (apply Z.pow_pos_nonneg; lia).
    set (u := 2 ^ (- e)) in *. set (w := 2 ^ (e + 1074)) in *. clearbody u w.
    pose proof (Z.div_mod (2 * Z.pos m * P + u) (2 * u) ltac:(lia)) as Hd.
    pose proof (Z.mod_pos_bound (2 * Z.pos m * P + u) (2 * u) ltac:(lia)) as Hm.
    set (n := (2 * Z.pos m * P + u) / (2 * u)) in *.
    set (r := (2 * Z.pos m * P + u) mod (2 * u)) in *. clearbody n r.
    assert (0 ≤ n) by nia.
    split; [done|].
    replace (2 * (Z.pos m * w) * P + u * w) with ((2 * Z.pos m * P + u) * w) by ring.
    rewrite Hd.
    split; [nia|].
    replace (2 * (n + 1) * (u * w)) with ((2 * u * n + 2 * u) * w) by ring.
    apply Z.mul_lt_mono_pos_r; lia.
Qed.

Lemma ge_pow10_spec m e k :
  -1074 ≤ e →
  JS.ge_pow10 m e k = true ↔ 10 ^ k * grid ≤ Z.pos m * 2 ^ (e + 1074).
Proof.
  intros He. unfold JS.ge_pow10.
  assert (HG : 0 < grid) by done.
  destruct (Z.leb_spec 0 e) as [H|H].
  - rewrite grid_shift by done. rewrite Z.leb_le.
    set (c := 2 ^ e). set (t := 10 ^ k). clearbody c t. nia.
  - rewrite <- (grid_split e He H). rewrite Z.leb_le.
    assert (Hw : 0 < 2 ^ (e + 1074)) by (apply Z.pow_pos_nonneg; lia).
    set (u := 2 ^ (- e)) in *. set (w := 2 ^ (e + 1074)) in *. set (t := 10 ^ k).
    clearbody u w t. split; [nia|]. intros Hle.
    replace (t * (u * w)) with (t * u * w) in Hle by ring.
    by apply Z.mul_le_mono_pos_r in Hle.
Qed.

Lemma decimal_to_double_fixed s n f :
  JS.decimal_to_double s n (- Z.of_nat f) = JS.round_to_double s n (10 ^ Z.of_nat f).
Proof.
  unfold JS.decimal_to_double. destruct (Z.leb_spec 0 (- Z.of_nat f)) as [H|H].
  - replace (Z.of_nat f) with 0 by lia. cbn [Z.opp]. by rewrite Z.pow_0_r, Z.mul_1_r.
  - by rewrite Z.opp_involutive.
Qed.

Lemma same_double_eq x y : JS.same_double x y = true → x = y.
Proof.
  destruct x as [s1|s1| |s1 m1 e1], y as [s2|s2| |s2 m2 e2]; cbn; try done.
  - by intros ->%Bool.eqb_prop.
  - by intros ->%Bool.eqb_prop.
  - intros [[->%Bool.eqb_prop ->%Pos.eqb_eq]%andb_prop ->%Z.eqb_eq]%andb_prop. done.
Qed.

Lemma binade_upper a b :
  0 < a → 0 < b → a * grid < 2 ^ 53 * (b * 2 ^ (JS.binade a b + 1074)).
Proof.
  intros Ha Hb. unfold JS.binade.
  remember (Z.log2 a - Z.log2 b - 53) as e0 eqn:Ee0.
  destruct (JS.scale2 a b e0) as [n d] eqn:Hs.
  change JS.emin with (-1074).
  pose proof (Z.log2_spec a Ha) as [_ Hla].
  pose proof (Z.log2_spec b Hb) as [Hlb _].
  pose proof (Z.log2_nonneg a). pose proof (Z.log2_nonneg b).
  assert (Hgen : ∀ E, 0 ≤ E → e0 + 1 + 1074 ≤ E → a * grid < 2 ^ 53 * (b * 2 ^ E)).
  { intros E HE0 HE.
    assert (HE' : 2 ^ 53 * (2 ^ Z.log2 b * 2 ^ E) = 2 ^ Z.succ (Z.log2 a) * grid * 2 ^ (E - (e0 + 1 + 1074))).
    { unfold grid. rewrite <- !Z.pow_add_r by lia. f_equal. lia. }
    assert (1 ≤ 2 ^ (E - (e0 + 1 + 1074))) by (apply Z.lt_pred_le, Z.pow_pos_nonneg; lia).
    assert (0 < 2 ^ E) by (apply Z.pow_pos_nonneg; lia).
    assert (HG : 0 < grid) by done.
    set (A := 2 ^ Z.succ (Z.log2 a)) in *. set (B := 2 ^ Z.log2 b) in *.
    set (c := 2 ^ E) in *. set (u := 2 ^ (E - (e0 + 1 + 1074))) in *.
    set (h := 2 ^ 53) in *. assert (0 < h) by done. clearbody A B c u h.
    assert (a * grid < A * grid) by nia.
    assert (A * grid ≤ A * grid * u) by nia.
    assert (h * (B * c) ≤ h * (b * c)) by nia.
    lia. }
  destruct (Z.ltb_spec n (d * 2 ^ 53)) as [Hnd|Hnd].
  - destruct (Z.le_gt_cases (-1074) e0) as [He0|He0].
    + replace (Z.max e0 (-1074)) with e0 by lia.
      destruct (scale2_spec a b e0 He0) as (k & Hk & Hn & Hd).
      rewrite Hs in Hn, Hd. cbn [fst snd] in Hn, Hd. rewrite Hn, Hd.
      set (h := 2 ^ 53) in *. clearbody h. nia.
    + apply Hgen; lia.
  - apply Hgen; lia.
Qed.

Lemma digits2_pos_lower m : 2 ^ (Z.pos (digits2_pos m) - 1) ≤ Z.pos m.
Proof.
  induction m as [m IH|m IH|]; cbn [digits2_pos]; [| |done];
    rewrite Pos2Z.inj_succ; replace (Z.succ (Z.pos (digits2_pos m)) - 1)
      with (Z.succ (Z.pos (digits2_pos m) - 1)) by lia;
    rewrite Z.pow_succ_r by lia; lia.
Qed.

Lemma bounded_canonical m e :
  bounded 53 1024 m e = true →
  e ≤ 971 ∧ ((2 ^ 52 ≤ Z.pos m ∧ -1074 ≤ e) ∨ (Z.pos m < 2 ^ 52 ∧ e = -1074)).
Proof.
  unfold bounded, canonical_mantissa, fexp, SpecFloat.emin.
  intros [Hc He%Z.leb_le]%andb_prop. apply Z.eqb_eq in Hc.
  split; [lia|].
  pose proof (digits2_pos_bound m) as Hu. pose proof (digits2_pos_lower m) as Hl.
  destruct (Z.le_gt_cases 53 (Z.pos (digits2_pos m))) as [H|H].
  - left. split; [|lia]. replace (Z.pos (digits2_pos m)) with 53 in Hl by lia. exact Hl.
  - right. split; [|lia].
    eapply Z.lt_le_trans; [exact Hu|]. apply Z.pow_le_mono_r; lia.
Qed.

Lemma pow2_lt_inv x y : 0 ≤ y → 2 ^ x < 2 * 2 ^ y → x ≤ y.
Proof.
  intros Hy H. destruct (Z.le_gt_cases x y) as [|Hgt]; [done|]. exfalso.
  assert (2 ^ (y + 1) ≤ 2 ^ x) by (apply Z.pow_le_mono_r; lia).
  rewrite Z.pow_add_r in * by lia. lia.
Qed.

(** A binary64 is the nearest binary64 to itself. *)
Lemma round_to_double_exact s a b m e :
  0 < a → 0 < b → bounded 53 1024 m e = true →
  a * grid = Z.pos m * 2 ^ (e + 1074) * b →
  JS.round_to_double s a b = S754_finite s m e.
Proof.
  intros Ha Hb Hbd Hx.
  destruct (bounded_canonical m e Hbd) as [Htop Hcan].
  destruct (bounded_valid m e Hbd) as [He Hm].
  destruct (binade_spec a b Ha Hb) as [Hbin Hlow].
  pose proof (binade_upper a b Ha Hb) as Hup.
  assert (Hw : 0 < 2 ^ (e + 1074)) by (apply Z.pow_pos_nonneg; lia).
  assert (Hc : 0 < 2 ^ (JS.binade a b + 1074)) by (apply Z.pow_pos_nonneg; lia).
  assert (Hbe : JS.binade a b = e).
  { rewrite Hx in Hup, Hlow.
    set (w := 2 ^ (e + 1074)) in *. set (c := 2 ^ (JS.binade a b + 1074)) in *.
    change (2 ^ 53) with (2 * 2 ^ 52) in *. set (h := 2 ^ 52) in *.
    assert (0 < h) by done.
    destruct Hcan as [[Hn _]|[Hsub ->]].
    - assert (Hwc : w < 2 * c).
      { apply (Z.mul_lt_mono_pos_l (h * b)); [nia|].
        assert (h * (w * b) ≤ Z.pos m * (w * b)) by (apply Z.mul_le_mono_nonneg_r; nia).
        clearbody w c h. lia. }
      assert (e + 1074 ≤ JS.binade a b + 1074) by (apply pow2_lt_inv; [lia|done]).
      destruct (Z.eq_dec (JS.binade a b) e) as [|Hne]; [done|]. exfalso.
      assert (h * (b * c) ≤ Z.pos m * w * b) by (apply Hlow; lia).
      assert (Hcw : c < 2 * w).
      { apply (Z.mul_lt_mono_pos_l (h * b)); [nia|].
        assert (Z.pos m * (w * b) < 2 * h * (w * b)) by (apply Z.mul_lt_mono_pos_r; nia).
        clearbody w c h. lia. }
      assert (JS.binade a b + 1074 ≤ e + 1074) by (apply pow2_lt_inv; [lia|done]).
      lia.
    - destruct (Z.eq_dec (JS.binade a b) (-1074)) as [|Hne]; [done|]. exfalso.
      assert (h * (b * c) ≤ Z.pos m * w * b) by (apply Hlow; lia).
      change w with 1 in *. rewrite Z.mul_1_r in *. clearbody c h.
      assert (h * b * 1 ≤ h * b * c) by (apply Z.mul_le_mono_nonneg_l; nia).
      assert (Z.pos m * b < h * b) by (apply Z.mul_lt_mono_pos_r; lia).
      lia. }
  unfold JS.round_to_double.
  destruct (Z.eqb_spec a 0) as [|_]; [lia|].
  rewrite Hbe. destruct (scale2_spec a b e He) as (k & Hk & Hn & Hd).
  destruct (JS.scale2 a b e) as [n d]. cbn [fst snd] in Hn, Hd.
  assert (Hd0 : 0 < d) by nia.
  assert (Hnd : n = Z.pos m * d).
  { apply (Z.mul_reg_r _ _ k); [lia|]. rewrite <- Hn, Hx.
    replace (Z.pos m * 2 ^ (e + 1074) * b) with (Z.pos m * (b * 2 ^ (e + 1074))) by ring.
    rewrite Hd. ring. }
  assert (Hq : JS.round_half_even n d = Z.pos m).
  { unfold JS.round_half_even. rewrite Hnd, Z.mod_mul, Z.div_mul by lia.
    destruct (Z.compare_spec (2 * 0) d); lia. }
  rewrite Hq. destruct (Z.eqb_spec (Z.pos m) (2 ^ 53)) as [|_]; [lia|].
  destruct (Z.leb_spec e JS.etop) as [|Hgt]; [done|]. change JS.etop with 971 in Hgt. lia.
Qed.

(** ** Decimal literals *)

Lemma is_digit_pretty d : JS.is_digit (pretty_N_char d) = true.
Proof. unfold pretty_N_char. by repeat case_match. Qed.

Lemma digit_value_pretty d : (d < 10)%N → JS.digit_value (pretty_N_char d) = Z.of_N d.
Proof.
  intros H. rewrite <- (N2Nat.id d).
  assert (Hk : (N.to_nat d < 10)%nat) by lia.
  destruct (N.to_nat d) as [|[|[|[|[|[|[|[|[|[|k]]]]]]]]]]; try reflexivity. lia.
Qed.

Lemma string_app_cons c a b : (String c a +:+ b)%string = String c (a +:+ b).
Proof. reflexivity. Qed.

Lemma string_app_nil_r a : (a +:+ EmptyString)%string = a.
Proof. induction a as [|c a IH]; [done|]. by rewrite string_app_cons, IH. Qed.

Lemma string_app_assoc a b c : (a +:+ b +:+ c)%string = ((a +:+ b) +:+ c)%string.
Proof. induction a as [|x a IH]; [done|]. by rewrite !string_app_cons, IH. Qed.

Lemma string_length_app a b : String.length (a +:+ b) = (String.length a + String.length b)%nat.
Proof. induction a as [|x a IH]; [done|]. rewrite string_app_cons. cbn. by rewrite IH. Qed.

Lemma all_digits_app a b :
  all_digits (a +:+ b) = all_digits a && all_digits b.
Proof.
  induction a as [|c a IH]; [done|]. rewrite string_app_cons. cbn. by rewrite IH, andb_assoc.
Qed.

Lemma digits_value_app acc a b :
  JS.digits_value acc (a +:+ b) = JS.digits_value (JS.digits_value acc a) b.
Proof.
  revert acc. induction a as [|c a IH]; intros acc; [done|]. rewrite string_app_cons. cbn. apply IH.
Qed.

Lemma all_digits_zeros k : all_digits (JS.zeros k) = true.
Proof. induction k; [done|]. cbn. exact IHk. Qed.

Lemma digits_value_zeros k : JS.digits_value 0 (JS.zeros k) = 0.
Proof. induction k; [done|]. cbn. exact IHk. Qed.

Lemma length_zeros k : String.length (JS.zeros k) = k.
Proof. induction k; [done|]. cbn. by rewrite IHk. Qed.

(** The digits that [pretty_N_go] puts in front of a string. *)
Lemma pretty_N_go_digits x :
  ∀ s, ∃ ds, pretty_N_go x s = (ds +:+ s)%string
    ∧ all_digits ds = true
    ∧ (x = 0%N → ds = EmptyString)
    ∧ ((0 < x)%N →
       10 ^ (Z.of_nat (String.length ds) - 1) ≤ Z.of_N x < 10 ^ Z.of_nat (String.length ds))
    ∧ ∀ acc, JS.digits_value acc ds = acc * 10 ^ Z.of_nat (String.length ds) + Z.of_N x.
Proof.
  induction x as [x IH] using (well_founded_induction N.lt_wf_0). intros s.
  destruct (decide (0 < x)%N) as [Hx|Hx].
  - rewrite pretty_N_go_step by done.
    destruct (IH (x `div` 10)%N ltac:(by apply N.div_lt) (String (pretty_N_char (x `mod` 10)) s))
      as (ds & -> & Hd & H0 & Hlen & Hv).
    exists (ds +:+ String (pretty_N_char (x `mod` 10)) EmptyString)%string.
    pose proof (N.div_mod x 10 ltac:(done)) as Hdm.
    pose proof (N.mod_lt x 10 ltac:(done)) as Hlt.
    rewrite string_length_app. cbn [String.length].
    rewrite Nat.add_1_r, Nat2Z.inj_succ.
    split; [by rewrite <- string_app_assoc|].
    split; [by rewrite all_digits_app, Hd; cbn; rewrite is_digit_pretty|].
    split; [lia|].
    split.
    + intros _. replace (Z.succ (Z.of_nat (String.length ds)) - 1)
        with (Z.of_nat (String.length ds)) by lia.
      rewrite Z.pow_succ_r by lia.
      destruct (decide (x `div` 10 = 0)%N) as [Hz|Hz].
      * rewrite (H0 Hz). cbn [String.length Z.of_nat]. rewrite Z.pow_0_r. lia.
      * specialize (Hlen ltac:(lia)).
        assert (Hl1 : 1 ≤ Z.of_nat (String.length ds)).
        { destruct ds; [|cbn [String.length]; lia].
          cbn in Hlen. lia. }
        replace (Z.of_nat (String.length ds)) with (Z.succ (Z.of_nat (String.length ds) - 1))
          at 1 by lia.
        rewrite Z.pow_succ_r by lia.
        apply (f_equal Z.of_N) in Hdm. rewrite N2Z.inj_add, N2Z.inj_mul in Hdm.
        apply N2Z.inj_lt in Hlt. change (Z.of_N 10) with 10 in *.
        pose proof (N2Z.is_nonneg (x `mod` 10)).
        set (q := Z.of_N (x `div` 10)) in *. set (r := Z.of_N (x `mod` 10)) in *.
        set (P1 := 10 ^ (Z.of_nat (String.length ds) - 1)) in *.
        set (P2 := 10 ^ Z.of_nat (String.length ds)) in *.
        clearbody q r P1 P2. clear IH. lia.
    + intros acc. rewrite digits_value_app, Hv. cbn [JS.digits_value].
      rewrite digit_value_pretty by done.
      rewrite Z.pow_succ_r by lia.
      rewrite Hdm at 3. rewrite N2Z.inj_add, N2Z.inj_mul. change (Z.of_N 10) with 10. ring.
  - replace x with 0%N by lia. rewrite pretty_N_go_0. exists EmptyString.
    split; [done|]. split; [done|]. split; [done|]. split; [lia|].
    intros acc. cbn. lia.
Qed.

Lemma string_of_Z_digits n :
  0 ≤ n →
  all_digits (JS.string_of_Z n) = true
  ∧ JS.string_of_Z n ≠ EmptyString
  ∧ JS.digits_value 0 (JS.string_of_Z n) = n.
Proof.
  intros Hn. unfold JS.string_of_Z, pretty, pretty_N.
  destruct (decide (Z.to_N n = 0%N)) as [H0|H0].
  - assert (n = 0) as -> by lia. by repeat split.
  - destruct (pretty_N_go_digits (Z.to_N n) EmptyString) as (ds & -> & Hd & _ & Hlen & Hv).
    rewrite string_app_nil_r. split; [done|]. split.
    + intros ->. specialize (Hlen ltac:(lia)). cbn in Hlen. lia.
    + rewrite Hv. lia.
Qed.

(** A number of [k] digits is written with [k] characters. *)
Lemma string_of_Z_length n k :
  1 ≤ k → 10 ^ (k - 1) ≤ n < 10 ^ k →
  Z.of_nat (String.length (JS.string_of_Z n)) = k.
Proof.
  intros Hk Hn.
  assert (0 < 10 ^ (k - 1)) by (apply Z.pow_pos_nonneg; lia).
  unfold JS.string_of_Z, pretty, pretty_N.
  destruct (decide (Z.to_N n = 0%N)) as [H0|H0]; [lia|].
  destruct (pretty_N_go_digits (Z.to_N n) EmptyString) as (ds & -> & _ & _ & Hlen & _).
  rewrite string_app_nil_r. specialize (Hlen ltac:(lia)).
  rewrite Z2N.id in Hlen by lia.
  set (l := Z.of_nat (String.length ds)) in *.
  assert (0 ≤ l) by (unfold l; lia).
  destruct (Z.lt_trichotomy l k) as [Hlt|[Heq|Hgt]]; [|done|]; exfalso.
  - assert (10 ^ l ≤ 10 ^ (k - 1)) by (apply Z.pow_le_mono_r; lia). lia.
  - assert (10 ^ k ≤ 10 ^ (l - 1)) by (apply Z.pow_le_mono_r; lia). lia.
Qed.

Lemma digit_plain c :
  JS.is_digit c = true →
  JS.is_space c = false
  ∧ (∀ r, JS.read_sign (String c r) = (false, String c r))
  ∧ (∀ r, String.prefix "Infinity" (String c r) = false)
  ∧ c ≠ "."%char.
Proof.
  destruct c as [[] [] [] [] [] [] [] []]; intros H; try discriminate H; by repeat split.
Qed.

Lemma span_digits_all ds r :
  all_digits ds = true →
  match r with String c _ => JS.is_digit c = false | EmptyString => True end →
  JS.span_digits (ds +:+ r) = (ds, r).
Proof.
  intros Hd Hr. induction ds as [|c ds IH].
  - change (EmptyString +:+ r)%string with r.
    destruct r as [|c r]; [done|]. cbn [JS.span_digits]. by rewrite Hr.
  - cbn [all_digits] in Hd. apply andb_prop in Hd as [Hc Hd].
    rewrite string_app_cons. cbn [JS.span_digits]. by rewrite Hc, (IH Hd).
Qed.

(** The exponent part that [Number::toString] writes. *)
Lemma read_exponent_mark z :
  JS.read_exponent ((if z <? 0 then "e-" else "e+") +:+ JS.string_of_Z (Z.abs z)) = z.
Proof.
  destruct (string_of_Z_digits (Z.abs z) ltac:(lia)) as (Hd & Hne & Hv).
  remember (JS.string_of_Z (Z.abs z)) as es eqn:Ees. clear Ees.
  assert (Hsp : JS.span_digits es = (es, EmptyString)).
  { rewrite <- (string_app_nil_r es) at 1. by apply span_digits_all. }
  destruct (Z.ltb_spec z 0) as [Hz|Hz].
  - change ("e-" +:+ es)%string with (String "e" (String "-" es)).
    cbn [JS.read_exponent JS.read_sign]. change (Ascii.eqb "e" "e") with true.
    cbn [orb]. rewrite Hsp. destruct es; [done|]. lia.
  - change ("e+" +:+ es)%string with (String "e" (String "+" es)).
    cbn [JS.read_exponent JS.read_sign]. change (Ascii.eqb "e" "e") with true.
    cbn [orb]. rewrite Hsp. destruct es; [done|]. lia.
Qed.

(** Decimal literals without a fraction: digits and an optional exponent part. *)
Lemma parseFloat_integer_exp ip ex :
  ip ≠ EmptyString → all_digits ip = true →
  (ex = EmptyString ∨ ∃ r, ex = String "e" r) →
  JS.parseFloat (ip +:+ ex)
  = JS.decimal_to_double false (JS.digits_value 0 ip) (JS.read_exponent ex).
Proof.
  intros Hne Hd Hex. destruct ip as [|c ip]; [done|].
  pose proof Hd as Hd'. cbn [all_digits] in Hd'. apply andb_prop in Hd' as [Hc _].
  destruct (digit_plain c Hc) as (Hsp & Hsg & Hinf & _).
  unfold JS.parseFloat. rewrite string_app_cons. cbn [JS.skip_spaces].
  rewrite Hsp, Hsg, Hinf. rewrite <- string_app_cons.
  rewrite (span_digits_all (String c ip) ex Hd); [|by destruct Hex as [->|[r ->]]].
  replace (match ex with String "." r => JS.span_digits r | _ => (EmptyString, ex) end)
    with (EmptyString, ex) by (by destruct Hex as [->|[r ->]]).
  rewrite string_app_nil_r. cbn [String.length Z.of_nat]. by rewrite Z.sub_0_r.
Qed.

(** Decimal literals with a fraction and an optional exponent part. *)
Lemma parseFloat_fixed_exp ip fp ex :
  ip ≠ EmptyString → all_digits ip = true → all_digits fp = true →
  (ex = EmptyString ∨ ∃ r, ex = String "e" r) →
  JS.parseFloat (ip +:+ "." +:+ fp +:+ ex)
  = JS.decimal_to_double false (JS.digits_value 0 (ip +:+ fp))
      (JS.read_exponent ex - Z.of_nat (String.length fp)).
Proof.
  intros Hne Hd Hf Hex. destruct ip as [|c ip]; [done|].
  pose proof Hd as Hd'. cbn [all_digits] in Hd'. apply andb_prop in Hd' as [Hc _].
  destruct (digit_plain c Hc) as (Hsp & Hsg & Hinf & _).
  unfold JS.parseFloat. rewrite string_app_cons. cbn [JS.skip_spaces].
  rewrite Hsp, Hsg, Hinf. rewrite <- string_app_cons.
  rewrite (span_digits_all (String c ip) ("." +:+ fp +:+ ex) Hd eq_refl).
  change ("." +:+ fp +:+ ex)%string with (String "." (fp +:+ ex)). cbv beta iota.
  rewrite (span_digits_all fp ex Hf); [|by destruct Hex as [->|[r ->]]].
  by rewrite string_app_cons.
Qed.

Lemma parseFloat_integer ip :
  ip ≠ EmptyString → all_digits ip = true →
  JS.parseFloat ip = JS.decimal_to_double false (JS.digits_value 0 ip) 0.
Proof.
  intros Hne Hd. rewrite <- (string_app_nil_r ip) at 1.
  by rewrite parseFloat_integer_exp; [|done|done|left].
Qed.

Lemma parseFloat_fixed ip fp :
  ip ≠ EmptyString → all_digits ip = true → all_digits fp = true →
  JS.parseFloat (ip +:+ "." +:+ fp)
  = JS.decimal_to_double false (JS.digits_value 0 (ip +:+ fp))
      (- Z.of_nat (String.length fp)).
Proof.
  intros Hne Hd Hf. rewrite <- (string_app_nil_r fp) at 1.
  by rewrite parseFloat_fixed_exp; [|done|done|done|left].
Qed.

Lemma substring_full s : String.substring 0 (String.length s) s = s.
Proof. induction s as [|c s IH]; [done|]. cbn. by rewrite IH. Qed.

Lemma substring_split s :
  ∀ j, (j ≤ String.length s)%nat →
  (String.substring 0 j s +:+ String.substring j (String.length s - j) s)%string = s.
Proof.
  induction s as [|c s IH]; intros [|j] Hj; cbn in *; try done; try lia.
  - by rewrite substring_full.
  - rewrite string_app_cons, IH by lia. done.
Qed.

Lemma length_substring_0 s :
  ∀ j, (j ≤ String.length s)%nat → String.length (String.substring 0 j s) = j.
Proof.
  induction s as [|c s IH]; intros [|j] Hj; cbn in *; try done; try lia.
  by rewrite IH by lia.
Qed.

(** Reading back the digits that [toFixed] wrote. *)
Lemma parseFloat_place_point n f :
  0 ≤ n →
  JS.parseFloat (JS.place_point n f) = JS.decimal_to_double false n (- Z.of_nat f).
Proof.
  intros Hn. destruct (string_of_Z_digits n Hn) as (Hd & Hne & Hv).
  unfold JS.place_point. destruct f as [|f].
  - by rewrite parseFloat_integer, Hv.
  - remember (JS.string_of_Z n) as m eqn:Em. clear Em.
    set (m' := if (String.length m <=? S f)%nat
               then (JS.zeros (S f + 1 - String.length m) +:+ m)%string else m).
    assert (Hd' : all_digits m' = true).
    { unfold m'. destruct (_ <=? _)%nat; [|done].
      by rewrite all_digits_app, all_digits_zeros, Hd. }
    assert (Hv' : JS.digits_value 0 m' = n).
    { unfold m'. destruct (_ <=? _)%nat; [|done].
      by rewrite digits_value_app, digits_value_zeros. }
    assert (Hl : (S f + 1 ≤ String.length m')%nat).
    { unfold m'. destruct (Nat.leb_spec (String.length m) (S f)); [|lia].
      rewrite string_length_app, length_zeros. lia. }
    clearbody m'. cbv zeta.
    set (j := (String.length m' - S f)%nat).
    pose proof (substring_split m' j ltac:(lia)) as Hsplit.
    replace (String.length m' - j)%nat with (S f) in Hsplit by lia.
    pose proof (length_substring_0 m' j ltac:(lia)) as Hlj.
    remember (String.substring 0 j m') as ip eqn:Eip.
    remember (String.substring j (S f) m') as fp eqn:Efp.
    assert (Hlf : String.length fp = S f).
    { pose proof (f_equal String.length Hsplit) as Hlen.
      rewrite string_length_app in Hlen. lia. }
    rewrite <- Hsplit, all_digits_app in Hd'. apply andb_prop in Hd' as [Hi Hf].
    rewrite parseFloat_fixed; [|destruct ip; [cbn in Hlj; lia|done]|done|done].
    by rewrite Hsplit, Hv', Hlf.
Qed.

Lemma digits_value_zeros_acc k acc :
  JS.digits_value acc (JS.zeros k) = acc * 10 ^ Z.of_nat k.
Proof.
  revert acc. induction k as [|k IH]; intros acc.
  - cbn. lia.
  - cbn [JS.zeros JS.digits_value]. rewrite IH.
    rewrite Nat2Z.inj_succ, Z.pow_succ_r by lia.
    change (JS.digit_value "0") with 0. ring.
Qed.

Lemma decimal_to_double_integer s n j :
  0 ≤ j → JS.decimal_to_double s (n * 10 ^ j) 0 = JS.decimal_to_double s n j.
Proof.
  intros Hj. unfold JS.decimal_to_double.
  destruct (Z.leb_spec 0 j); [|lia]. cbn [Z.leb Z.compare].
  by rewrite Z.pow_0_r, Z.mul_1_r.
Qed.

Lemma parseFloat_exponential ds k n :
  all_digits ds = true → Z.of_nat (String.length ds) = k → 1 ≤ k →
  let mark : string := if n - 1 <? 0 then "e-" else "e+" in
  let ex := (mark +:+ JS.string_of_Z (Z.abs (n - 1)))%string in
  JS.parseFloat
    (if k =? 1 then (ds +:+ ex)%string
     else (String.substring 0 1 ds +:+ "." +:+
           String.substring 1 (Z.to_nat (k - 1)) ds +:+ ex)%string)
  = JS.decimal_to_double false (JS.digits_value 0 ds) (n - k).
Proof.
  intros Hd Hk Hk1 mark ex.
  assert (Hex : ex = EmptyString ∨ ∃ r, ex = String "e" r).
  { right. unfold ex, mark. destruct (n - 1 <? 0); eexists; reflexivity. }
  assert (Hre : JS.read_exponent ex = n - 1) by apply read_exponent_mark.
  clearbody ex. clear mark.
  destruct (Z.eqb_spec k 1) as [->|Hne].
  - rewrite parseFloat_integer_exp; [|by destruct ds|done|done]. by rewrite Hre.
  - pose proof (substring_split ds 1 ltac:(lia)) as Hsplit.
    replace (String.length ds - 1)%nat with (Z.to_nat (k - 1)) in Hsplit by lia.
    pose proof (length_substring_0 ds 1 ltac:(lia)) as Hl1.
    remember (String.substring 0 1 ds) as ip eqn:Eip.
    remember (String.substring 1 (Z.to_nat (k - 1)) ds) as fp eqn:Efp.
    assert (Hlf : Z.of_nat (String.length fp) = k - 1).
    { pose proof (f_equal String.length Hsplit) as Hlen.
      rewrite string_length_app in Hlen. lia. }
    rewrite <- Hsplit, all_digits_app in Hd. apply andb_prop in Hd as [Hi Hf].
    rewrite parseFloat_fixed_exp; [|by destruct ip|done|done|done].
    rewrite Hsplit, Hre, Hlf. f_equal. lia.
Qed.

Ltac to_Z :=
  repeat match goal with
  | H : _ && _ = true |- _ => apply andb_prop in H as [? ?]
  | H : _ && _ = false |- _ => apply andb_false_iff in H
  | H : (_ <=? _) = true |- _ => apply Z.leb_le in H
  | H : (_ <=? _) = false |- _ => apply Z.leb_gt in H
  | H : (_ <? _) = true |- _ => apply Z.ltb_lt in H
  | H : (_ <? _) = false |- _ => apply Z.ltb_ge in H
  end.

(** Reading back what [Number::toString] writes for the digits [s]. *)
Lemma parseFloat_format_digits s k n :
  0 ≤ s → Z.of_nat (String.length (JS.string_of_Z s)) = k →
  JS.parseFloat (JS.format_digits s k n) = JS.decimal_to_double false s (n - k).
Proof.
  intros Hs Hk. destruct (string_of_Z_digits s Hs) as (Hd & Hne & Hv).
  unfold JS.format_digits.
  remember (JS.string_of_Z s) as ds eqn:Eds. clear Eds.
  assert (Hk1 : 1 ≤ k) by (destruct ds; [done|cbn [String.length] in Hk; lia]).
  destruct ((k <=? n) && (n <=? 21)) eqn:H1; [|destruct ((0 <? n) && (n <=? 21)) eqn:H2;
    [|destruct ((-6 <? n) && (n <=? 0)) eqn:H3]]; to_Z.
  - (* an integer, padded with zeros *)
    rewrite <- (string_app_nil_r (ds +:+ _)).
    rewrite parseFloat_integer_exp; [| |by rewrite all_digits_app, Hd, all_digits_zeros|by left].
    2: { destruct ds; [done|]. by rewrite string_app_cons. }
    rewrite digits_value_app, Hv, digits_value_zeros_acc.
    rewrite Z2Nat.id by lia. cbn [JS.read_exponent].
    apply decimal_to_double_integer. lia.
  - (* the point inside the digits *)
    assert (Hnk : n < k) by lia.
    pose proof (substring_split ds (Z.to_nat n) ltac:(lia)) as Hsplit.
    replace (String.length ds - Z.to_nat n)%nat with (Z.to_nat (k - n)) in Hsplit by lia.
    pose proof (length_substring_0 ds (Z.to_nat n) ltac:(lia)) as Hl1.
    remember (String.substring 0 (Z.to_nat n) ds) as ip eqn:Eip.
    remember (String.substring (Z.to_nat n) (Z.to_nat (k - n)) ds) as fp eqn:Efp.
    assert (Hlf : Z.of_nat (String.length fp) = k - n).
    { pose proof (f_equal String.length Hsplit) as Hlen.
      rewrite string_length_app in Hlen. lia. }
    rewrite <- Hsplit, all_digits_app in Hd. apply andb_prop in Hd as [Hi Hf].
    rewrite parseFloat_fixed; [|destruct ip; [cbn in Hl1; lia|done]|done|done].
    rewrite Hsplit, Hv, Hlf. f_equal. lia.
  - (* zeros after the point *)
    change ("0." +:+ JS.zeros (Z.to_nat (- n)) +:+ ds)%string
      with ("0" +:+ "." +:+ (JS.zeros (Z.to_nat (- n)) +:+ ds))%string.
    rewrite parseFloat_fixed; [|done|done|by rewrite all_digits_app, all_digits_zeros].
    rewrite string_length_app, length_zeros.
    change ("0" +:+ JS.zeros (Z.to_nat (- n)) +:+ ds)%string
      with (JS.zeros (S (Z.to_nat (- n))) +:+ ds)%string.
    rewrite digits_value_app, digits_value_zeros, Hv. f_equal. lia.
  - (* exponential notation *)
    rewrite <- Hv. by apply parseFloat_exponential.
Qed.

(** ** Rounding to fractional digits *)

Lemma not_five_grid k : 10 * k ≠ grid.
Proof.
  intros H. assert (H5 : grid mod 5 = 0).
  { rewrite <- H. replace (10 * k) with (2 * k * 5) by ring. apply Z.mod_mul. lia. }
  by vm_compute in H5.
Qed.

(** Arithmetic core: [sx] and [sr] are a number and the binary64 nearest
    to its decimal rounding [n / P], both in units of [1 / G]. *)
Lemma same_digits_core G P sx sr n n' :
  0 < G → 1 ≤ P →
  2 * n * G ≤ 2 * sx * P + G < 2 * (n + 1) * G →
  2 * n' * G ≤ 2 * sr * P + G < 2 * (n' + 1) * G →
  Z.abs (sr * P - n * G) ≤ Z.abs (sx * P - n * G) →
  ((sr - sx) * P ≠ G) →
  n' = n.
Proof.
  intros HG HP Hx Hr Hnear Htie.
  assert (2 * (n * G) ≤ 2 * (sr * P) + G < 2 * (n * G) + 2 * G) by lia.
  nia.
Qed.

(** A tie between two neighbouring decimals of [f] digits is not a
    binary64 next to the number that was printed. *)
Lemma no_tie m e f sr :
  -1074 ≤ e → Z.pos m < 2 ^ 53 →
  let n := JS.scaled_round m e f in
  let sx := Z.pos m * 2 ^ (e + 1074) in
  let P := 10 ^ Z.of_nat f in
  (n < 2 ^ 53 → Z.abs (sr * P - n * grid) ≤ Z.abs (n * 2 ^ (0 + 1074) * P - n * grid)) →
  Z.abs (sr * P - n * grid) ≤ Z.abs (sx * P - n * grid) →
  (sr - sx) * P ≠ grid.
Proof.
  intros He Hm n sx P Hint Hnear Ht.
  destruct (scaled_round_spec m e f He) as (Hn & Hx1 & Hx2).
  fold n sx P in Hx1, Hx2.
  assert (HG : 0 < grid) by done.
  destruct f as [|f].
  - change P with 1 in *. rewrite !Z.mul_1_r in *.
    assert (Hhalf : 2 * sx = (2 * n - 1) * grid) by lia.
    destruct (Z.le_gt_cases 0 e) as [H|H].
    + unfold sx in Hhalf. rewrite grid_shift in Hhalf by done.
      set (z := Z.pos m * 2 ^ e) in *.
      assert (2 * z - 2 * n + 1 = 0) by nia. lia.
    + assert (Hsmall : n < 2 ^ 53).
      { unfold sx in Hhalf. rewrite <- (grid_split e He H) in Hhalf.
        assert (Hu : 2 ^ (- e) = 2 * 2 ^ (- e - 1)).
        { rewrite <- Z.pow_succ_r by lia. f_equal. lia. }
        assert (0 < 2 ^ (- e - 1)) by (apply Z.pow_pos_nonneg; lia).
        assert (0 < 2 ^ (e + 1074)) by (apply Z.pow_pos_nonneg; lia).
        rewrite Hu in Hhalf.
        set (u := 2 ^ (- e - 1)) in *. set (w := 2 ^ (e + 1074)) in *.
        assert (Hmu : Z.pos m = (2 * n - 1) * u).
        { apply (Z.mul_reg_r _ _ (2 * w)); [lia|]. lia. }
        assert (2 * n - 1 ≤ Z.pos m) by nia.
        change (2 ^ 53) with 9007199254740992 in *. lia. }
      specialize (Hint Hsmall). change (2 ^ (0 + 1074)) with grid in Hint. lia.
  - unfold P in Ht. rewrite Nat2Z.inj_succ, Z.pow_succ_r in Ht by lia.
    apply (not_five_grid (10 ^ Z.of_nat f * (sr - sx))). rewrite <- Ht. ring.
Qed.

Lemma below_pow21 m e :
  -1074 ≤ e → Z.pos m < 2 ^ 53 →
  Z.pos m * 2 ^ (e + 1074) < 10 ^ 21 * grid →
  Z.pos m * 2 ^ (e + 1074) + grid ≤ 10 ^ 21 * grid.
Proof.
  intros He Hm Hx. assert (HG : 0 < grid) by done.
  destruct (Z.le_gt_cases 17 e) as [H|H].
  - replace (e + 1074) with ((e - 17) + 17 + 1074) in * by lia.
    rewrite !Z.pow_add_r in * by lia. fold grid in *.
    change (10 ^ 21) with (7629394531250000 * 2 ^ 17) in *.
    set (z := Z.pos m * 2 ^ (e - 17)) in *.
    replace (Z.pos m * (2 ^ (e - 17) * 2 ^ 17 * grid)) with (z * (2 ^ 17 * grid)) in *
      by (unfold z; ring).
    set (T := 2 ^ 17 * grid) in *.
    assert (grid ≤ T) by (unfold T; change (2 ^ 17) with 131072; lia).
    assert (z < 7629394531250000) by nia.
    nia.
  - assert (Hw : 2 ^ (e + 1074) ≤ 2 ^ 16 * grid).
    { unfold grid. rewrite <- Z.pow_add_r by lia. apply Z.pow_le_mono_r; lia. }
    assert (0 < 2 ^ (e + 1074)) by (apply Z.pow_pos_nonneg; lia).
    set (w := 2 ^ (e + 1074)) in *.
    change (2 ^ 53) with 9007199254740992 in *. change (2 ^ 16) with 65536 in *.
    change (10 ^ 21) with 1000000000000000000000.
    assert (Z.pos m * w ≤ 9007199254740991 * w) by nia.
    nia.
Qed.

(** The binary64 nearest to the printed decimal prints as the same
    decimal, and is below [10^21] when the number was. *)
Lemma rerounded_digits m e f m' e' :
  bounded 53 1024 m e = true →
  0 < JS.scaled_round m e f →
  JS.round_to_double false (JS.scaled_round m e f) (10 ^ Z.of_nat f)
    = S754_finite false m' e' →
  JS.scaled_round m' e' f = JS.scaled_round m e f
  ∧ (JS.ge_pow10 m e 21 = false → JS.ge_pow10 m' e' 21 = false).
Proof.
  intros Hb Hn Hr.
  destruct (bounded_valid m e Hb) as [He Hm].
  assert (HP : 0 < 10 ^ Z.of_nat f) by (apply Z.pow_pos_nonneg; lia).
  assert (HG : 0 < grid) by done.
  pose proof (round_to_double_shape false (JS.scaled_round m e f) (10 ^ Z.of_nat f)) as Hs.
  rewrite Hr in Hs. destruct Hs as [_ He']. specialize (He' Hn HP).
  assert (Hfin : JS.round_to_double false (JS.scaled_round m e f) (10 ^ Z.of_nat f)
                 ≠ S754_infinity false) by (by rewrite Hr).
  pose proof (round_to_double_nearest false _ _ (Z.pos m) e Hn HP Hfin ltac:(lia) He) as Hnear.
  pose proof (λ H : JS.scaled_round m e f < 2 ^ 53,
    round_to_double_nearest false _ _ (JS.scaled_round m e f) 0 Hn HP Hfin ltac:(lia) ltac:(lia))
    as Hint.
  rewrite Hr in Hnear, Hint. cbn [scaled] in Hnear, Hint.
  rewrite (Z.mul_comm (JS.scaled_round m e f) grid) in Hnear, Hint.
  rewrite (Z.mul_comm grid) in Hnear, Hint.
  pose proof (no_tie m e f (Z.pos m' * 2 ^ (e' + 1074)) He Hm Hint Hnear) as Htie.
  destruct (scaled_round_spec m e f He) as (_ & Hx1 & Hx2).
  destruct (scaled_round_spec m' e' f He') as (_ & Hr1 & Hr2).
  assert (Hsame : JS.scaled_round m' e' f = JS.scaled_round m e f).
  { apply (same_digits_core grid (10 ^ Z.of_nat f) (Z.pos m * 2 ^ (e + 1074))
             (Z.pos m' * 2 ^ (e' + 1074))); try done; lia. }
  split; [done|]. intros Hlt.
  destruct (JS.ge_pow10 m' e' 21) eqn:Hge; [|done]. exfalso.
  apply ge_pow10_spec in Hge; [|done].
  assert (Hx : Z.pos m * 2 ^ (e + 1074) < 10 ^ 21 * grid).
  { destruct (Z.lt_ge_cases (Z.pos m * 2 ^ (e + 1074)) (10 ^ 21 * grid)) as [|Hc]; [done|].
    apply ge_pow10_spec in Hc; [|done]. congruence. }
  pose proof (below_pow21 m e He Hm Hx) as Hroom.
  rewrite Hsame in Hr1, Hr2.
  set (sx := Z.pos m * 2 ^ (e + 1074)) in *. set (sr := Z.pos m' * 2 ^ (e' + 1074)) in *.
  set (P := 10 ^ Z.of_nat f) in *. set (n := JS.scaled_round m e f) in *.
  assert (sr * P < sx * P + grid) by lia.
  assert (sr < sx + grid) by nia.
  lia.
Qed.

Lemma all_decimals_denotes m e :
  bounded 53 1024 m e = true →
  denotes (S754_finite false m e) (JS.all_decimals m e).
Proof.
  intros Hb. destruct (bounded_valid m e Hb) as [He _].
  unfold JS.all_decimals, denotes.
  destruct (Z.leb_spec 0 e) as [H|H].
  - assert (0 < 2 ^ e) by (apply Z.pow_pos_nonneg; lia).
    split; [nia|]. split; [done|].
    replace (0 + _ - _) with 0 by lia.
    unfold JS.decimal_to_double. cbn [Z.leb Z.compare].
    rewrite Z.pow_0_r, Z.mul_1_r.
    apply round_to_double_exact; [nia|done|done|].
    rewrite grid_shift by done. ring.
  - assert (0 < 5 ^ (- e)) by (apply Z.pow_pos_nonneg; lia).
    split; [nia|]. split; [done|].
    replace (e + _ - _) with e by lia.
    unfold JS.decimal_to_double. destruct (Z.leb_spec 0 e); [lia|].
    apply round_to_double_exact; [nia|apply Z.pow_pos_nonneg; lia|done|].
    rewrite <- (grid_split e He H).
    replace 10 with (5 * 2) by done. rewrite Z.pow_mul_l. ring.
Qed.

Lemma fits_denotes x s k n :
  1 ≤ k →
  (10 ^ (k - 1) <=? s) && (s <? 10 ^ k)
    && JS.same_double (JS.decimal_to_double false s (n - k)) x = true →
  denotes x (s, k, n).
Proof.
  intros Hk [[Hlo%Z.leb_le Hhi%Z.ltb_lt]%andb_prop Hx%same_double_eq]%andb_prop.
  assert (0 < 10 ^ (k - 1)) by (apply Z.pow_pos_nonneg; lia).
  split; [lia|]. split; [by apply string_of_Z_length|done].
Qed.

Lemma shortest_denotes fuel m e a b n0 :
  bounded 53 1024 m e = true →
  ∀ k, 1 ≤ k →
  denotes (S754_finite false m e) (JS.shortest fuel (S754_finite false m e) m e a b n0 k).
Proof.
  intros Hb.
  induction fuel as [|fuel IH]; intros k Hk; cbn [JS.shortest];
    destruct (JS.scale10 a b (n0 - k)) as [p q]; cbv zeta;
    set (best := JS.round_half_even p q);
    set (other := if best =? p / q then p / q + 1 else p / q);
    destruct (best =? 10 ^ k), (other =? 10 ^ k); cbv beta iota;
    repeat lazymatch goal with
    | |- denotes _ (if ?c then _ else _) =>
        let H := fresh "Hfit" in
        destruct c eqn:H; [by apply fits_denotes|clear H]
    end;
    first [by apply all_decimals_denotes | apply IH; lia].
Qed.

(** [parseFloat] reads the number back from what [Number::toString]
    writes for it. *)
Lemma parseFloat_Number_toString m e :
  bounded 53 1024 m e = true →
  JS.parseFloat (JS.Number_toString (S754_finite false m e)) = S754_finite false m e.
Proof.
  intros Hb. unfold JS.Number_toString.
  destruct (JS.scale2 (Z.pos m) 1 (- e)) as [a b].
  cbv zeta.
  pose proof (shortest_denotes 16 m e a b
    (JS.magnitude10 4 a b ((Z.log2 a - Z.log2 b - 1) * 30103 / 100000)) Hb 1 ltac:(lia)) as Hden.
  destruct (JS.shortest _ _ _ _ _ _ _ _) as [[d k] n].
  destruct Hden as (Hd & Hk & Hx).
  change (EmptyString +:+ ?s)%string with s.
  by rewrite parseFloat_format_digits.
Qed.

Lemma scaled_round_nonneg m e f : 0 ≤ JS.scaled_round m e f.
Proof.
  unfold JS.scaled_round.
  assert (0 < 10 ^ Z.of_nat f) by (apply Z.pow_pos_nonneg; lia).
  destruct (Z.leb_spec 0 e).
  - assert (0 ≤ 2 ^ e) by (apply Z.pow_nonneg; lia). nia.
  - assert (0 < 2 ^ (- e)) by (apply Z.pow_pos_nonneg; lia).
    apply Z.div_pos; nia.
Qed.

Lemma rounded_zero f : rounded_to f (S754_zero false) = S754_zero false.
Proof.
  unfold rounded_to, JS.toFixed.
  by rewrite parseFloat_place_point, decimal_to_double_fixed.
Qed.

Lemma rounded_finite m e f :
  JS.ge_pow10 m e 21 = false →
  rounded_to f (S754_finite false m e)
  = JS.round_to_double false (JS.scaled_round m e f) (10 ^ Z.of_nat f).
Proof.
  intros Hlt. unfold rounded_to, JS.toFixed. rewrite Hlt.
  change (EmptyString +:+ ?s)%string with s.
  rewrite parseFloat_place_point by apply scaled_round_nonneg.
  apply decimal_to_double_fixed.
Qed.

(** At and above [10^21], [toFixed] writes the number as [String] does,
    and reading it gives the number again. *)
Lemma rounded_large m e f :
  bounded 53 1024 m e = true → JS.ge_pow10 m e 21 = true →
  rounded_to f (S754_finite false m e) = S754_finite false m e.
Proof.
  intros Hb Hge. unfold rounded_to, JS.toFixed. rewrite Hge.
  by apply parseFloat_Number_toString.
Qed.

(** Rounding a quantity to [f] fractional digits gives a number that the
    same rounding leaves as it is. *)
Lemma rounded_to_idempotent f x :
  is_size x = true → rounded_to f (rounded_to f x) = rounded_to f x.
Proof.
  intros Hq. destruct x as [[]|[]| |[] m e]; try done.
  - by rewrite !rounded_zero.
  - cbn [is_size negb andb] in Hq.
    destruct (JS.ge_pow10 m e 21) eqn:Hlt; [by rewrite !rounded_large|].
    rewrite (rounded_finite m e f Hlt).
    pose proof (round_to_double_shape false (JS.scaled_round m e f) (10 ^ Z.of_nat f)) as Hs.
    destruct (Z.eq_dec (JS.scaled_round m e f) 0) as [H0|H0].
    { rewrite H0. unfold JS.round_to_double. cbn [Z.eqb]. apply rounded_zero. }
    pose proof (scaled_round_nonneg m e f) as Hn.
    destruct (JS.round_to_double false _ _) as [s|s| |s m' e'] eqn:Hr.
    + subst s. apply rounded_zero.
    + by subst s.
    + done.
    + destruct Hs as [-> _].
      destruct (rerounded_digits m e f m' e' Hq ltac:(lia) Hr) as [Hsame Hlt'].
      by rewrite (rounded_finite m' e' f (Hlt' Hlt)), Hsame.
Qed.

(** [Math.abs] gives a quantity. *)
Lemma Math_abs_is_size x :
  match x with S754_finite _ m e => bounded 53 1024 m e = true | _ => True end →
  is_size (JS.Math_abs x) = true.
Proof. by destruct x. Qed.

(** What a call of [roundQty] that returns has computed. *)
Lemma roundQty_returns sym qty env st r st' evs :
  roundQty sym qty env st = (Ok r, st', evs) →
  r = rounded_to (precision_of st' sym) qty
  ∧ (precision_of st' sym ≤ 100)%nat
  ∧ (is_Some (symbolInfo st !! sym) → st' = st ∧ evs = []).
Proof.
  intros Hrun. unfold precision_of, rounded_to.
  destruct (symbolInfo st !! sym) as [p|] eqn:Hp.
  - rewrite (roundQty_cached sym qty p env st Hp) in Hrun. cbv zeta in Hrun.
    destruct (Nat.ltb_spec 100 (match p with S _ => p | O => 6%nat end)) as [|Hle];
      [done|]. injection Hrun as <- <- <-. rewrite Hp.
    by destruct p.
  - rewrite (roundQty_uncached sym qty env st Hp) in Hrun.
    destruct (exchangeInfo (exchange env) (requests st)) as [info|msg]; [|done].
    cbv zeta in Hrun.
    match type of Hrun with context [(100 <? ?p)%nat] =>
      destruct (Nat.ltb_spec 100 p) as [|Hle]; [done|]
    end.
    injection Hrun as <- <- <-.
    split; [done|]. split; [done|]. by intros [? ?].
Qed.

(** C9.  Quantity rounding is idempotent.  For every quantity (a
    binary64 that is not negative, as [Math.abs] of a position amount is)
    and every number of fractional digits, rounding the rounded quantity
    again gives the identical number.  For every symbol: a call of
    [roundQty] that returns has rounded at the precision of the symbol,
    [symbolInfo.get(symbol) || 6]; when the symbol is cached, [roundQty]
    applied to the result returns that same result, with no request and
    no change of state; any further call that returns at the same
    precision returns that same result; and a symbol that is absent from
    the cache has been rounded to the default of 6 fractional digits.
    A symbol that is absent from the cache and from the instrument
    metadata that [roundQty] then loads is so rounded, to 6 digits. *)
Theorem roundQty_idempotent sym qty env st :
  is_size qty = true →
  (∀ f, rounded_to f (rounded_to f qty) = rounded_to f qty)
  ∧ (∀ r st' evs,
       roundQty sym qty env st = (Ok r, st', evs) →
       r = rounded_to (precision_of st' sym) qty
       ∧ (is_Some (symbolInfo st' !! sym) →
          roundQty sym r env st' = (Ok r, st', []))
       ∧ (∀ r2 st2 evs2,
            roundQty sym r env st' = (Ok r2, st2, evs2) →
            precision_of st2 sym = precision_of st' sym → r2 = r)
       ∧ (symbolInfo st' !! sym = None → r = rounded_to 6 qty))
  ∧ (∀ info,
       symbolInfo st !! sym = None →
       exchangeInfo (exchange env) (requests st) = Body info →
       fold_left load_symbol info (symbolInfo st) !! sym = None →
       ∃ st', roundQty sym qty env st = (Ok (rounded_to 6 qty), st', [EvExchangeInfo])
              ∧ symbolInfo st' !! sym = None).
Proof.
  intros Hq. split; [intros f; by apply rounded_to_idempotent|]. split.
  - intros r st' evs Hrun.
    destruct (roundQty_returns _ _ _ _ _ _ _ Hrun) as (Hr & Hle & _).
    split; [done|]. split.
    + intros [p Hp]. rewrite (roundQty_cached sym r p env st' Hp). cbv zeta.
      replace (match p with S _ => p | O => 6%nat end) with (precision_of st' sym)
        by (unfold precision_of; rewrite Hp; by destruct p).
      destruct (Nat.ltb_spec 100 (precision_of st' sym)) as [|_]; [lia|].
      fold (rounded_to (precision_of st' sym) r).
      by rewrite Hr, rounded_to_idempotent.
    + split.
      * intros r2 st2 evs2 Hrun2 Hsame.
        destruct (roundQty_returns _ _ _ _ _ _ _ Hrun2) as (Hr2 & _ & _).
        by rewrite Hr2, Hsame, Hr, rounded_to_idempotent.
      * intros Hp. rewrite Hr. unfold precision_of. by rewrite Hp.
  - intros info Hp Hinfo Hgone.
    rewrite (roundQty_uncached sym qty env st Hp), Hinfo. cbv zeta.
    change (symbolInfo (set_symbolInfo _ _))
      with (fold_left load_symbol info (symbolInfo st)).
    rewrite Hgone. change (100 <? 6)%nat with false. cbv iota.
    eexists. split; [reflexivity|exact Hgone].
Qed.

(** The numbers that stay are those that the rounding returns, not all
    those that a decimal of as many digits denotes: [2^-44] is what the
    29-digit decimal below reads as, and rounding it to 29 digits gives
    its predecessor, which then stays. *)
Remark parsed_decimal_moves :
  let x := JS.parseFloat "0.00000000000005684341886080802" in
  x = S754_finite false 4503599627370496 (-96)
  ∧ rounded_to 29 x = S754_finite false 9007199254740991 (-97)
  ∧ rounded_to 29 (rounded_to 29 x) = rounded_to 29 x.
Proof. repeat split; vm_compute; reflexivity. Qed.

(** ** The snapshot and the loop *)



Lemma same_counters_refl st : same_counters st st.
Proof. by unfold same_counters. Qed.

Lemma same_counters_trans a b c : same_counters a b → same_counters b c → same_counters a c.
Proof. unfold same_counters. intros (-> & -> & ->) (-> & -> & ->). done. Qed.

Ltac counters_cond := idtac; first [exact I | done | by (intros; unfold same_counters; cbn)].



Lemma V3_tick_counters : respects any_event same_counters V3.tick.
Proof.
  unfold V3.tick, getPositions, V3.printPositions, V3.evaluate, V3.closePosition,
    roundQty, Number_toFixed, cancel_orders, cancelAllOrders, getAlgoOrders, cancelAlgoOrder,
    V3.submit, V3.report, V3.failed, send, marketClose, clearSymbol.
  pose proof same_counters_refl. pose proof same_counters_trans.
  respects_auto counters_cond.
Qed.

Lemma V4_tick_positions env st :
  positions (V4.tick env st).1.2
  = match positionRisk (exchange env) (requests st) with
    | Body rs => parse_positions rs
    | Failed _ => positions st
    end.
Proof.
  rewrite V4_tick_run.
  destruct (positionRisk (exchange env) (requests st)) as [rs|msg]; [|done].
  cbv zeta. destruct (paused st); [cbn [fst snd]; by rewrite V4_fetched_positions|].
  destruct (close_loop V4.evaluate (parse_positions rs) env V4_evaluates (V4_fetched rs st))
    as ((H1 & _) & _).
  destruct (for_of _ _ _ _) as [[r st'] evs]. cbn [fst snd] in *.
  by rewrite H1, V4_fetched_positions.
Qed.

Lemma V3_tick_positions env st :
  positions (V3.tick env st).1.2
  = match positionRisk (exchange env) (requests st) with
    | Body rs => parse_positions rs
    | Failed _ => positions st
    end.
Proof.
  rewrite V3_tick_run.
  destruct (positionRisk (exchange env) (requests st)) as [rs|msg]; [|done].
  destruct (close_loop V3.evaluate (parse_positions rs) env V3_evaluates (V3_fetched rs st))
    as ((H1 & _) & _).
  destruct (for_of _ _ _ _) as [[r st'] evs]. cbn [fst snd] in *.
  by rewrite H1.
Qed.

(** X2.  A tick whose position fetch is answered replaces the snapshot by
    the positions of the answer, whether or not it goes on to close any
    of them and whether or not it runs to its end.  A tick whose position
    fetch fails throws the error of the fetch after that one request and
    leaves the snapshot, and everything else but the request counter, as
    it was.  Both rewrites. *)
Theorem tick_keeps_last_snapshot env st :
  (∀ rs, positionRisk (exchange env) (requests st) = Body rs →
     positions (V4.tick env st).1.2 = parse_positions rs
     ∧ positions (V3.tick env st).1.2 = parse_positions rs)
  ∧ (∀ msg, positionRisk (exchange env) (requests st) = Failed msg →
     V4.tick env st = (Throw (Error msg), set_requests (S (requests st)) st, [EvPositionRisk])
     ∧ V3.tick env st = (Throw (Error msg), set_requests (S (requests st)) st, [EvPositionRisk])).
Proof.
  split.
  - intros rs Hrs. by rewrite V4_tick_positions, V3_tick_positions, Hrs.
  - intros msg Hmsg. rewrite V4_tick_run, V3_tick_run, Hmsg. done.
Qed.



Lemma V4_iteration_failed_run env st msg st1 ev1 :
  V4.tick env st = (Throw (Error msg), st1, ev1) →
  V4.iteration env st
  = let st2 := set_errors (S (errors st1)) st1 in
    let line := EvLog ERR ("Tick: " +:+ slice0 50 msg) in
    if (10 <=? S (errors st1))%nat then
      (Ok (), later (intervalMs (cfg env)) (later 30000 st2),
       ev1 ++ [line; EvLog WARN (pretty (S (errors st1)) +:+ " errors, sleep 30s");
               EvSleep 30000; EvSleep (intervalMs (cfg env))])
    else (Ok (), later (intervalMs (cfg env)) st2, ev1 ++ [line; EvSleep (intervalMs (cfg env))]).
Proof.
  intros Ht. unfold V4.iteration.
  unfold mbind at 1 2, M_bind at 1 2, bind at 1 2, ask, try_catch.
  unfold mbind at 1, M_bind at 1, bind at 1. rewrite Ht.
  unfold sleep, message_of. run.
  destruct (errors st1) as [|[|[|[|[|[|[|[|[|n]]]]]]]]]; cbn; by rewrite <- ?app_assoc.
Qed.

Lemma V3_iteration_ok_run env st st1 ev1 :
  V3.tick env st = (Ok (), st1, ev1) →
  V3.iteration env st
  = (Ok (), later (intervalMs (cfg env)) (set_errors 0 (set_lastTick (now st1) st1)),
     ev1 ++ [EvSleep (intervalMs (cfg env))]).
Proof.
  intros Ht. unfold V3.iteration.
  unfold mbind at 1 2, M_bind at 1 2, bind at 1 2, ask, try_catch.
  unfold mbind at 1, M_bind at 1, bind at 1. rewrite Ht.
  unfold sleep. run. by rewrite app_nil_r.
Qed.

Lemma V3_iteration_failed_run env st msg st1 ev1 :
  V3.tick env st = (Throw (Error msg), st1, ev1) →
  V3.iteration env st
  = let st2 := set_errors (S (errors st1)) st1 in
    let line := EvLog ERR ("Tick: " +:+ msg) in
    if (10 <=? S (errors st1))%nat then
      (Ok (), later (intervalMs (cfg env)) (later 30000 st2),
       ev1 ++ [line;
               EvLog WARN (pretty (S (errors st1)) +:+ " ошибок подряд, ждём 30 секунд...");
               EvSleep 30000; EvSleep (intervalMs (cfg env))])
    else (Ok (), later (intervalMs (cfg env)) st2, ev1 ++ [line; EvSleep (intervalMs (cfg env))]).
Proof.
  intros Ht. unfold V3.iteration.
  unfold mbind at 1 2, M_bind at 1 2, bind at 1 2, ask, try_catch.
  unfold mbind at 1, M_bind at 1, bind at 1. rewrite Ht.
  unfold sleep, message_of. run.
  destruct (errors st1) as [|[|[|[|[|[|[|[|[|n]]]]]]]]]; cbn; by rewrite <- ?app_assoc.
Qed.



(** ** More on the close protocol *)

Lemma for_of_events {A} (P : event → Prop) (f : A → M unit) l env :
  (∀ x st, Forall P (f x env st).2) → ∀ st, Forall P (for_of l f env st).2.
Proof.
  intros Hf. induction l as [|x l IH]; intros st; cbn [for_of]; [by cbn|].
  unfold mbind, M_bind, bind. specialize (Hf x st).
  destruct (f x env st) as [[[[]|e] st1] ev1]; cbn [fst snd] in *; [|done].
  specialize (IH st1). destruct (for_of l f env st1) as [[r st2] ev2].
  by apply Forall_app.
Qed.

Lemma roundQty_dry sym qty : respects dry_event any_state (roundQty sym qty).
Proof.
  unfold roundQty, Number_toFixed.
  pose proof any_state_refl. pose proof any_state_trans.
  respects_auto plain_cond.
Qed.

Lemma logs_dry evs : Forall is_log evs → Forall dry_event evs.
Proof. intros H. eapply Forall_impl; [exact H|]. by intros []. Qed.

(** X4.  In a dry run a tick issues no request but the position fetch and
    the fetch of the instrument metadata: no cancellation, no order, no
    Telegram message.  And [closePosition], once the quantity is rounded,
    returns with the state that the rounding left. *)
Theorem dry_run_never_trades env st :
  dryRun (cfg env) = true →
  Forall dry_event (V4.tick env st).2 ∧ Forall dry_event (V3.tick env st).2
  ∧ ∀ pos qty,
      (rounded pos env st).1.1 = Ok qty →
      (V4.closePosition pos env st).1.1 = Ok ()
      ∧ (V3.closePosition pos env st).1.1 = Ok ()
      ∧ (V4.closePosition pos env st).1.2 = (rounded pos env st).1.2
      ∧ (V3.closePosition pos env st).1.2 = (rounded pos env st).1.2.
Proof.
  intros Hdry.
  assert (H4 : ∀ pos st, Forall dry_event (V4.evaluate pos env st).2).
  { intros pos st0. destruct (V4_evaluate_run pos env st0) as [msg ->].
    destruct (triggers (cfg env) pos); [|by cbn].
    rewrite V4_closePosition_run. unfold rounded.
    destruct (roundQty_dry (symbol pos) (JS.Math_abs (amt pos)) env st0) as (Hq & _).
    destruct (roundQty _ _ env st0) as [[[qty|e] st1] ev1]; cbn [fst snd] in *.
    - rewrite Hdry. cbn [fst snd]. repeat constructor. apply Forall_app. split; [done|].
      by repeat constructor.
    - by repeat constructor. }
  assert (H3 : ∀ pos st, Forall dry_event (V3.evaluate pos env st).2).
  { intros pos st0. destruct (V3_evaluate_run pos env st0) as [msg ->].
    destruct (triggers (cfg env) pos); [|by cbn].
    rewrite V3_closePosition_run. unfold rounded.
    destruct (roundQty_dry (symbol pos) (JS.Math_abs (amt pos)) env st0) as (Hq & _).
    destruct (roundQty _ _ env st0) as [[[qty|e] st1] ev1]; cbn [fst snd] in *.
    - rewrite Hdry. cbn [fst snd]. repeat constructor. apply Forall_app. split; [done|].
      by repeat constructor.
    - by repeat constructor. }
  split; [|split].
  - rewrite V4_tick_run.
    destruct (positionRisk (exchange env) (requests st)) as [rs|msg]; [|by repeat constructor].
    cbv zeta. destruct (paused st).
    + cbn [snd]. constructor; [done|]. apply logs_dry, V4_printed_logs.
    + pose proof (for_of_events dry_event V4.evaluate (parse_positions rs) env H4
                    (V4_fetched rs st)) as Hl.
      destruct (for_of _ _ _ _) as [[r st'] evs]. cbn [snd] in *.
      constructor; [done|]. apply Forall_app. split; [|done].
      apply logs_dry, V4_printed_logs.
  - rewrite V3_tick_run.
    destruct (positionRisk (exchange env) (requests st)) as [rs|msg]; [|by repeat constructor].
    pose proof (for_of_events dry_event V3.evaluate (parse_positions rs) env H3
                  (V3_fetched rs st)) as Hl.
    destruct (for_of _ _ _ _) as [[r st'] evs]. cbn [snd] in *.
    constructor; [done|]. apply Forall_app. split; [|done].
    apply logs_dry, V3_printed_logs.
  - intros pos qty Hq. rewrite V4_closePosition_run, V3_closePosition_run.
    destruct (rounded pos env st) as [[rq st1] ev1]. cbn [fst snd] in Hq. subst rq.
    by rewrite Hdry.
Qed.

(** X5.  When the precision of the symbol is not cached and the instrument
    metadata cannot be fetched, [closePosition] throws the error of that
    fetch: nothing is cancelled, no order is submitted and no message is
    sent.  In the loop of [tick] the exception ends the loop: the
    positions after the triggering one are not evaluated in this tick.
    Both rewrites. *)
Theorem close_needs_the_lot_step pos msg env st :
  symbolInfo st !! symbol pos = None →
  exchangeInfo (exchange env) (requests st) = Failed msg →
  let st' := set_requests (S (requests st)) st in
  V4.closePosition pos env st = (Throw (Error msg), st', [EvClosePosition pos; EvExchangeInfo])
  ∧ V3.closePosition pos env st = (Throw (Error msg), st', [EvClosePosition pos; EvExchangeInfo])
  ∧ (triggers (cfg env) pos = true →
     ∀ rest,
       (∃ line, for_of (pos :: rest) V4.evaluate env st
                = (Throw (Error msg), st',
                   [EvLog ERR line; EvClosePosition pos; EvExchangeInfo]))
       ∧ (∃ line, for_of (pos :: rest) V3.evaluate env st
                  = (Throw (Error msg), st',
                     [EvLog ERR line; EvClosePosition pos; EvExchangeInfo]))).
Proof.
  intros Hp Hinfo st'.
  assert (H4 : V4.closePosition pos env st
               = (Throw (Error msg), st', [EvClosePosition pos; EvExchangeInfo])).
  { rewrite V4_closePosition_run. unfold rounded.
    by rewrite (roundQty_uncached _ _ _ _ Hp), Hinfo. }
  assert (H3 : V3.closePosition pos env st
               = (Throw (Error msg), st', [EvClosePosition pos; EvExchangeInfo])).
  { rewrite V3_closePosition_run. unfold rounded.
    by rewrite (roundQty_uncached _ _ _ _ Hp), Hinfo. }
  split; [done|]. split; [done|].
  intros Htr rest. split.
  - destruct (V4_evaluate_run pos env st) as [line Hev]. exists line.
    cbn [for_of]. unfold mbind, M_bind, bind. by rewrite Hev, Htr, H4.
  - destruct (V3_evaluate_run pos env st) as [line Hev]. exists line.
    cbn [for_of]. unfold mbind, M_bind, bind. by rewrite Hev, Htr, H3.
Qed.


Lemma no_submit_only pos qty evs : Forall no_submit evs → Forall (only_order pos qty) evs.
Proof. intros H. eapply Forall_impl; [exact H|]. by intros []. Qed.

Lemma V4_submit_orders pos qty env st :
  Forall (only_order pos qty) (V4.submit pos qty env st).2
  ∧ ∀ e, (V4.submit pos qty env st).1.1 = Throw e → is_error e.
Proof.
  rewrite V4_submit_run. cbv zeta. unfold sent_order, only_order.
  repeat destruct_inner; split; try (by repeat constructor); by intros ? [= <-].
Qed.

(** X6.  Outside a dry run, once the quantity is rounded, [closePosition]
    submits the close order whatever became of the cancellations:
    Guardian 4.0 at least once and at most three times, Guardian 3.0
    exactly once.  Every order it sends is the close order of the
    position for the rounded quantity, and [closePosition] returns
    normally whether or not the order went through. *)
Theorem close_order_always_sent pos qty env st :
  dryRun (cfg env) = false →
  (rounded pos env st).1.1 = Ok qty →
  ((V4.closePosition pos env st).1.1 = Ok ()
   ∧ (1 ≤ submissions (V4.closePosition pos env st).2 ≤ 3)%nat
   ∧ Forall (only_order pos qty) (V4.closePosition pos env st).2)
  ∧ ((V3.closePosition pos env st).1.1 = Ok ()
     ∧ submissions (V3.closePosition pos env st).2 = 1%nat
     ∧ Forall (only_order pos qty) (V3.closePosition pos env st).2).
Proof.
  intros Hdry Hq. split.
  - rewrite V4_closePosition_run. unfold rounded in *.
    assert (respects no_submit any_state (roundQty (symbol pos) (JS.Math_abs (amt pos)))) as Hr
      by (by apply roundQty_quiet).
    destruct (Hr env st) as (H1 & _ & _).
    destruct (roundQty _ _ env st) as [[rq st1] ev1]. cbn [fst snd] in *. subst rq.
    rewrite Hdry.
    assert (respects no_submit any_state (cancel_orders pos (mret ()))) as Hc
      by (apply cancel_orders_quiet; try done; by apply respects_ret).
    destruct (Hc env st1) as (H2 & _ & _).
    destruct (cancel_orders pos (mret ()) env st1) as [[rc st2] ev2]. cbn [fst snd] in *.
    pose proof (V4_submit_count pos qty env st2) as H3.
    destruct (V4_submit_orders pos qty env st2) as [H3' H3e].
    destruct (V4.submit pos qty env st2) as [[rs st3] ev3]. cbn [fst snd] in *.
    assert (∃ st4 ev4,
              match rs with
              | Ok res => V4.report pos res env st3
              | Throw e => V4.failed pos e env st3
              end = (Ok (), st4, ev4) ∧ Forall no_submit ev4) as (st4 & ev4 & -> & H4).
    { destruct rs as [res|e].
      - assert (respects no_submit any_state (V4.report pos res)) as Hrep
          by (by apply V4_report_quiet).
        destruct (Hrep env st3) as (H & _). pose proof (V4_report_ok pos res env st3) as Hok.
        destruct (V4.report pos res env st3) as [[r st4] ev4]. cbn in *. subst r. eauto.
      - destruct e as [msg|]; [|by destruct (H3e ThrownNull)].
        assert (respects no_submit any_state (V4.failed pos (Error msg))) as Hrep
          by (by apply V4_failed_quiet).
        destruct (Hrep env st3) as (H & _). rewrite V4_failed_run in *.
        destruct (send _ _ _ _) as [[r st4] ev4]. eauto. }
    cbn [fst snd]. split; [done|]. split.
    + rewrite submissions_marker, !submissions_app, (submissions_none ev1),
        (submissions_none ev2), (submissions_none ev4) by done. lia.
    + constructor; [done|]. rewrite !Forall_app.
      auto using no_submit_only.
  - rewrite V3_closePosition_run. unfold rounded in *.
    assert (respects no_submit any_state (roundQty (symbol pos) (JS.Math_abs (amt pos)))) as Hr
      by (by apply roundQty_quiet).
    destruct (Hr env st) as (H1 & _ & _).
    destruct (roundQty _ _ env st) as [[rq st1] ev1]. cbn [fst snd] in *. subst rq.
    rewrite Hdry.
    assert (respects no_submit any_state
              (cancel_orders pos (log INFO (symbol pos +:+ " - ордера отменены")))) as Hc
      by (apply cancel_orders_quiet; try done; by apply respects_log).
    destruct (Hc env st1) as (H2 & _ & _).
    destruct (cancel_orders pos _ env st1) as [[rc st2] ev2]. cbn [fst snd] in *.
    rewrite V3_submit_run. set (st3 := set_requests _ _).
    assert (∃ st4 ev4,
              match thrown (order_answer env pos qty (requests st2)) with
              | Ok res => V3.report pos qty res env st3
              | Throw e => V3.failed pos e env st3
              end = (Ok (), st4, ev4) ∧ Forall no_submit ev4) as (st4 & ev4 & -> & H4).
    { destruct (order_answer env pos qty (requests st2)) as [res|msg]; cbn [thrown].
      - assert (respects no_submit any_state (V3.report pos qty res)) as Hrep
          by (by apply V3_report_quiet).
        destruct (Hrep env st3) as (H & _). pose proof (V3_report_ok pos qty res env st3) as Hok.
        destruct (V3.report pos qty res env st3) as [[r st4] ev4]. cbn in *. subst r. eauto.
      - assert (respects no_submit any_state (V3.failed pos (Error msg))) as Hrep
          by (by apply V3_failed_quiet).
        destruct (Hrep env st3) as (H & _). rewrite V3_failed_run in *.
        destruct (send _ _ _ _) as [[r st4] ev4]. eauto. }
    cbn [fst snd]. split; [done|]. split.
    + rewrite submissions_marker, !submissions_app, (submissions_none ev1),
        (submissions_none ev2), (submissions_none ev4) by done. done.
    + constructor; [done|]. rewrite !Forall_app.
      split; [auto using no_submit_only|]. split; [auto using no_submit_only|].
      split; [by repeat constructor|auto using no_submit_only].
Qed.


Lemma cancelled_app a b : cancelled (a ++ b) = cancelled a ++ cancelled b.
Proof. apply omap_app. Qed.

Lemma cancel_each_run sym env orders :
  ∀ st,
    cancelled (cancel_each sym orders env st).2 `prefix_of` active_ids orders
    ∧ Forall (λ e, ∃ id, e = EvCancelAlgoOrder sym id) (cancel_each sym orders env st).2
    ∧ ((∀ k id, algoOrder (exchange env) k sym id = Body ()) →
       cancelled (cancel_each sym orders env st).2 = active_ids orders
       ∧ (cancel_each sym orders env st).1.1 = Ok ()).
Proof.
  unfold cancel_each, active_ids.
  induction orders as [|o orders IH]; intros st; cbn [for_of List.filter map].
  - cbn. split; [done|]. split; [done|]. done.
  - unfold mbind, M_bind, bind.
    destruct (String.eqb (algoStatus o) "NEW"); cbn [map].
    + unfold cancelAlgoOrder, http.
      destruct (algoOrder (exchange env) (requests st) sym (algoId o)) as [[]|msg] eqn:Ha;
        cbn [thrown fst snd].
      * destruct (IH (set_requests (S (requests st)) st)) as (H1 & H2 & H3).
        destruct (for_of orders _ env _) as [[r st2] ev2]. cbn [fst snd] in *.
        change (cancelled ([EvCancelAlgoOrder sym (algoId o)] ++ ev2))
          with (algoId o :: cancelled ev2).
        split; [by apply prefix_cons|]. split; [constructor; eauto|].
        intros Hall. destruct (H3 Hall) as [-> ->]. done.
      * split; [cbn; by apply prefix_cons, prefix_nil|]. split; [repeat constructor; eauto|].
        intros Hall. by rewrite Hall in Ha.
    + change ((mret () : M unit) env st) with (Ok (), st, @nil event). cbv beta iota.
      destruct (IH st) as (H1 & H2 & H3).
      destruct (for_of orders _ env st) as [[r st2] ev2]. cbn [fst snd app] in *. done.
Qed.

Lemma swallow_run (m : M unit) env st :
  try_catch m (λ _, mret ()) env st = (Ok (), (m env st).1.2, (m env st).2).
Proof.
  unfold try_catch. destruct (m env st) as [[[[]|e] st1] ev1]; cbn; by rewrite ?app_nil_r.
Qed.

(** The two cancellation steps, by the answers of the exchange. *)
Lemma cancel_orders_run pos after env st :
  (∀ st0, ∃ evs, after env st0 = (Ok (), st0, evs) ∧ Forall is_log evs) →
  ∃ ev1 ev2 st1,
    (cancel_orders pos after env st).2
    = EvCancelAllOrders (symbol pos) :: ev1 ++ EvOpenAlgoOrders (symbol pos) :: ev2
    ∧ Forall is_log ev1
    ∧ requests st1 = S (S (requests st))
    ∧ ev2 = match openAlgoOrders (exchange env) (S (requests st)) (symbol pos) with
            | Body body => (cancel_each (symbol pos) (default [] body) env st1).2
            | Failed _ => []
            end.
Proof.
  intros Hafter. unfold cancel_orders.
  unfold mbind at 1, M_bind at 1, bind at 1.
  rewrite swallow_run. cbv beta iota. rewrite swallow_run. cbn [fst snd].
  set (st0 := set_requests (S (requests st)) st).
  assert (∃ ev1, ((cancelAllOrders (symbol pos) ≫= λ _, after) env st).1.2 = st0
                 ∧ ((cancelAllOrders (symbol pos) ≫= λ _, after) env st).2
                   = EvCancelAllOrders (symbol pos) :: ev1
                 ∧ Forall is_log ev1) as (ev1 & -> & -> & Hlog).
  { unfold mbind, M_bind, bind, cancelAllOrders, http. fold st0.
    destruct (allOpenOrders _ _ _) as [[]|msg]; cbn [thrown].
    - destruct (Hafter st0) as (evs & -> & Hevs). by exists evs.
    - by exists []. }
  exists ev1. eexists. exists (set_requests (S (S (requests st))) st0).
  split; [|split; [done|split; [done|reflexivity]]].
  unfold getAlgoOrders, http.
  unfold mbind at 1 2, M_bind at 1 2, bind at 1 2.
  change (requests st0) with (S (requests st)).
  destruct (openAlgoOrders (exchange env) (S (requests st)) (symbol pos)) as [body|msg];
    cbn [thrown fst snd].
  - unfold cancel_each. unfold mret at 1, M_ret at 1, ret at 1. cbn [fst snd app].
    by destruct (for_of _ _ env _) as [[r st2] ev2].
  - done.
Qed.

(** The cancellations in the loop of [closePosition], the first of them
    issued as request [requests st]: they stop with the first one that
    the exchange refuses. *)
Lemma cancel_each_cut sym env orders :
  ∀ st,
    (∀ k id msg,
       active_ids orders !! k = Some id →
       (∀ j idj, (j < k)%nat → active_ids orders !! j = Some idj →
                 algoOrder (exchange env) (requests st + j) sym idj = Body ()) →
       algoOrder (exchange env) (requests st + k) sym id = Failed msg →
       cancelled (cancel_each sym orders env st).2 = take (S k) (active_ids orders))
    ∧ ((∀ j idj, active_ids orders !! j = Some idj →
                 algoOrder (exchange env) (requests st + j) sym idj = Body ()) →
       cancelled (cancel_each sym orders env st).2 = active_ids orders).
Proof.
  unfold cancel_each, active_ids.
  induction orders as [|o orders IH]; intros st; cbn [for_of List.filter map].
  - split; [by intros k id msg [=]|done].
  - unfold mbind, M_bind, bind.
    destruct (String.eqb (algoStatus o) "NEW"); cbn [map].
    + unfold cancelAlgoOrder, http.
      destruct (IH (set_requests (S (requests st)) st)) as [Hcut Hall].
      cbn [requests set_requests] in Hcut, Hall.
      destruct (algoOrder (exchange env) (requests st) sym (algoId o)) as [[]|msg0] eqn:Ha;
        cbn [thrown fst snd].
      * destruct (for_of orders _ env _) as [[r st2] ev2]. cbn [fst snd] in *.
        change (cancelled ([EvCancelAlgoOrder sym (algoId o)] ++ ev2))
          with (algoId o :: cancelled ev2).
        split.
        -- intros [|k] id msg Hid Hbefore Hfail.
           { cbn in Hid. injection Hid as <-. rewrite Nat.add_0_r in Hfail. congruence. }
           cbn [take]. f_equal. apply (Hcut k id msg).
           ++ exact Hid.
           ++ intros j idj Hj Hidj. replace (S (requests st) + j)%nat
                with (requests st + S j)%nat by lia.
              apply Hbefore; [lia|exact Hidj].
           ++ by replace (S (requests st) + k)%nat with (requests st + S k)%nat by lia.
        -- intros Hok. f_equal. apply Hall. intros j idj Hidj.
           replace (S (requests st) + j)%nat with (requests st + S j)%nat by lia.
           by apply Hok.
      * split.
        -- intros [|k] id msg Hid Hbefore Hfail; [done|].
           specialize (Hbefore 0%nat (algoId o) ltac:(lia) eq_refl).
           rewrite Nat.add_0_r in Hbefore. congruence.
        -- intros Hok. specialize (Hok 0%nat (algoId o) eq_refl).
           rewrite Nat.add_0_r in Hok. congruence.
    + change ((mret () : M unit) env st) with (Ok (), st, @nil event). cbv beta iota.
      destruct (IH st) as [Hcut Hall].
      destruct (for_of orders _ env st) as [[r st2] ev2]. cbn [fst snd app] in *. done.
Qed.

(** X7.  The conditional orders that [closePosition] sets out to cancel
    one by one are the orders of status NEW in the answer to its fetch,
    in the order of the answer.  When the exchange refuses one of these
    cancellations, the loop ends there: the orders before the refused
    one and the refused one were tried, the orders after it are not
    touched.  When no cancellation is refused, all of them are
    cancelled; when the fetch fails, none is tried.  The two
    cancellation steps never throw.  Both rewrites. *)
Theorem close_cancels_active_orders pos env st :
  let sym := symbol pos in
  let answer := openAlgoOrders (exchange env) (S (requests st)) sym in
  let first := S (S (requests st)) in
  let ev4 := (cancel_orders pos (mret ()) env st).2 in
  let ev3 := (cancel_orders pos (log INFO (sym +:+ " - ордера отменены")) env st).2 in
  (∀ body,
     answer = Body body →
     let ids := active_ids (default [] body) in
     cancelled ev4 `prefix_of` ids
     ∧ cancelled ev3 `prefix_of` ids
     ∧ (∀ k id msg,
          ids !! k = Some id →
          (∀ j idj, (j < k)%nat → ids !! j = Some idj →
                    algoOrder (exchange env) (first + j) sym idj = Body ()) →
          algoOrder (exchange env) (first + k) sym id = Failed msg →
          cancelled ev4 = take (S k) ids ∧ cancelled ev3 = take (S k) ids)
     ∧ ((∀ j idj, ids !! j = Some idj →
                  algoOrder (exchange env) (first + j) sym idj = Body ()) →
        cancelled ev4 = ids ∧ cancelled ev3 = ids))
  ∧ (∀ msg, answer = Failed msg → cancelled ev4 = [] ∧ cancelled ev3 = [])
  ∧ (cancel_orders pos (mret ()) env st).1.1 = Ok ()
  ∧ (cancel_orders pos (log INFO (sym +:+ " - ордера отменены")) env st).1.1 = Ok ().
Proof.
  cbv zeta.
  assert (H4 : ∀ st0, ∃ evs, (mret () : M unit) env st0 = (Ok (), st0, evs) ∧ Forall is_log evs)
    by (intros st0; by exists []).
  assert (H3 : ∀ st0, ∃ evs, log INFO (symbol pos +:+ " - ордера отменены") env st0
                             = (Ok (), st0, evs) ∧ Forall is_log evs)
    by (intros st0; eexists; split; [reflexivity|by repeat constructor]).
  destruct (cancel_orders_run pos _ env st H4) as (a1 & a2 & sa & -> & Ha1 & Hsa & Ha2).
  destruct (cancel_orders_run pos _ env st H3) as (b1 & b2 & sb & -> & Hb1 & Hsb & Hb2).
  assert (Hlogs : ∀ evs, Forall is_log evs → cancelled evs = []).
  { induction 1 as [|e evs He _ IH]; [done|]. by destruct e. }
  assert (Hca : cancelled (EvCancelAllOrders (symbol pos) :: a1
                            ++ EvOpenAlgoOrders (symbol pos) :: a2) = cancelled a2).
  { change (cancelled (?x :: ?l)) with (cancelled l).
    rewrite cancelled_app, (Hlogs a1 Ha1). done. }
  assert (Hcb : cancelled (EvCancelAllOrders (symbol pos) :: b1
                            ++ EvOpenAlgoOrders (symbol pos) :: b2) = cancelled b2).
  { change (cancelled (?x :: ?l)) with (cancelled l).
    rewrite cancelled_app, (Hlogs b1 Hb1). done. }
  rewrite Hca, Hcb. split; [|split; [|split; apply cancel_orders_ok]].
  - intros body Hbody. rewrite Hbody in Ha2, Hb2. subst a2 b2.
    destruct (cancel_each_run (symbol pos) env (default [] body) sa) as (P1 & _ & _).
    destruct (cancel_each_run (symbol pos) env (default [] body) sb) as (Q1 & _ & _).
    destruct (cancel_each_cut (symbol pos) env (default [] body) sa) as [Pcut Pall].
    destruct (cancel_each_cut (symbol pos) env (default [] body) sb) as [Qcut Qall].
    rewrite Hsa in Pcut, Pall. rewrite Hsb in Qcut, Qall.
    split; [done|]. split; [done|]. split.
    + intros k id msg Hid Hbefore Hfail. split; [by apply (Pcut k id msg)|by apply (Qcut k id msg)].
    + intros Hok. split; [by apply Pall|by apply Qall].
  - intros msg Hmsg. rewrite Hmsg in Ha2, Hb2. by subst a2 b2.
Qed.


(** ** Alerts for missing stops *)

(** What the detection of a position in [check] comes to, whatever the
    message of the error it may throw. *)
Lemma checkSL_result msg1 msg2 sym sd env st b :
  (checkSL msg1 sym sd env st).1.1 = Ok b →
  ∃ n evs, checkSL msg1 sym sd env st = (Ok b, set_requests n st, evs)
           ∧ checkSL msg2 sym sd env st = (Ok b, set_requests n st, evs)
           ∧ Forall no_telegram evs.
Proof.
  rewrite !checkSL_run. cbv zeta.
  repeat destruct_inner; intros [= <-]; do 2 eexists;
    (split; [reflexivity|split; [reflexivity|by repeat constructor]]).
Qed.

Lemma V4_checkPosition_missing pos env st n evs :
  checkSL "Network error" (symbol pos) (side pos) env st = (Ok false, set_requests n st, evs) →
  V4.checkPosition pos env st =
    let st1 := set_cache (<[symbol pos := {| hasSL := false; lastCheck := now st |}]>)
                 (set_requests n st) in
    if at_least (now st - default 0 (lastNotify st !! symbol pos)) (telegramInterval (cfg env)) then
      let '(_, st3, ev3) :=
        send V4.tag (V4_alert pos) env (set_lastNotify (<[symbol pos := now st]>) st1) in
      (Ok (), st3, evs ++ EvLog WARN (symbol pos +:+ " NO SL") :: ev3)
    else (Ok (), st1, evs).
Proof.
  intros Hrun. unfold V4.checkPosition.
  unfold try_catch, mbind at 1, M_bind at 1, bind. rewrite Hrun.
  unfold shouldNotify. run.
  destruct (at_least _ _); cbn; [|by rewrite app_nil_r].
  fold (V4_alert pos).
  destruct (send V4.tag (V4_alert pos) env _) as [[[b|e] st3] ev3] eqn:Hs; cbn; rewrite ?app_nil_r; [done|].
  pose proof (send_run V4.tag (V4_alert pos) env
    (set_lastNotify <[symbol pos:=now st]>
       (set_cache <[symbol pos:={| hasSL := false; lastCheck := now st |}]>
          (set_requests n st)))) as Hsr.
  rewrite Hs in Hsr. by repeat destruct_inner.
Qed.

Lemma V3_checkPosition_missing pos env st n evs :
  checkSL "Network error during SL check" (symbol pos) (side pos) env st
    = (Ok false, set_requests n st, evs) →
  V3.checkPosition pos env st =
    let st1 := set_cache (<[symbol pos := {| hasSL := false; lastCheck := now st |}]>)
                 (set_requests n st) in
    let line := EvLog WARN (symbol pos +:+ " - НЕТ SL! PnL: " +:+ V3.formatPnL (pnl pos)) in
    if at_least (now st - default 0 (lastNotify st !! symbol pos)) (telegramInterval (cfg env)) then
      let '(_, st3, ev3) :=
        send V3.tag (V3_alert pos) env (set_lastNotify (<[symbol pos := now st]>) st1) in
      (Ok (), st3, evs ++ line :: ev3)
    else (Ok (), st1, evs ++ [line]).
Proof.
  intros Hrun. unfold V3.checkPosition.
  unfold try_catch, mbind at 1, M_bind at 1, bind. rewrite Hrun.
  unfold shouldNotify. run.
  destruct (at_least _ _); cbn; [|by rewrite ?app_nil_r].
  fold (V3_alert pos).
  destruct (send V3.tag (V3_alert pos) env _) as [[[b|e] st3] ev3] eqn:Hs; cbn; rewrite ?app_nil_r; [reflexivity|].
  exfalso. rewrite send_run in Hs.
  destruct (configured (cfg env)); [destruct (sendMessage _ _ _)|]; discriminate.
Qed.

Lemma send_lastNotify tag text env st : lastNotify (send tag text env st).1.2 = lastNotify st.
Proof. rewrite send_run. by repeat destruct_inner. Qed.

(** X8.  When the detection finds no stop for a position, the turn of
    [check] on it sends one Telegram alert, the alert of the position
    (when Telegram is configured), and records the time, exactly when
    [now - last >= telegramInterval], where [last] is the time recorded
    for the symbol and 0 when there is none; otherwise, and always when
    the interval is NaN, it sends nothing and leaves the records as they
    are.  When the interval is an integer no greater than the clock
    (epoch milliseconds), the alert goes out exactly when no alert for
    the symbol was recorded within the interval.  Both rewrites. *)
Theorem missing_stop_alert_is_throttled msg pos env st :
  (checkSL msg (symbol pos) (side pos) env st).1.1 = Ok false →
  let out4 := V4.checkPosition pos env st in
  let out3 := V3.checkPosition pos env st in
  let due := at_least (now st - default 0 (lastNotify st !! symbol pos))
               (telegramInterval (cfg env)) in
  telegrams out4.2 = (if due && configured (cfg env) then [V4_alert pos] else [])
  ∧ telegrams out3.2 = (if due && configured (cfg env) then [V3_alert pos] else [])
  ∧ lastNotify out4.1.2
    = (if due then <[symbol pos := now st]> (lastNotify st) else lastNotify st)
  ∧ lastNotify out3.1.2
    = (if due then <[symbol pos := now st]> (lastNotify st) else lastNotify st)
  ∧ (telegramInterval (cfg env) = PNaN → due = false)
  ∧ (∀ i, telegramInterval (cfg env) = PInt i → i ≤ now st →
       (due = true ↔ ¬ recently_notified env st (symbol pos))).
Proof.
  intros Hres.
  destruct (checkSL_result msg "Network error" _ _ _ _ _ Hres) as (n & evs & _ & H4 & Hq).
  destruct (checkSL_result msg "Network error during SL check" _ _ _ _ _ Hres)
    as (n' & evs' & _ & H3 & Hq').
  cbv zeta.
  rewrite (V4_checkPosition_missing _ _ _ _ _ H4), (V3_checkPosition_missing _ _ _ _ _ H3).
  cbv zeta.
  assert (Hiff : ∀ i, telegramInterval (cfg env) = PInt i → i ≤ now st →
            (at_least (now st - default 0 (lastNotify st !! symbol pos))
               (telegramInterval (cfg env)) = true
             ↔ ¬ recently_notified env st (symbol pos))).
  { intros i Hi Hnow. split.
    - intros Hdue Hrec. apply not_due_with_recent_record in Hrec. congruence.
    - by apply due_without_recent_record with i. }
  assert (HN : telegramInterval (cfg env) = PNaN →
               at_least (now st - default 0 (lastNotify st !! symbol pos))
                 (telegramInterval (cfg env)) = false) by (by intros ->).
  destruct (at_least _ _).
  - set (s4 := set_lastNotify _ _).
    pose proof (telegrams_send V4.tag (V4_alert pos) env s4) as T4.
    pose proof (send_lastNotify V4.tag (V4_alert pos) env s4) as L4.
    destruct (send V4.tag (V4_alert pos) env s4) as [[r4 st4] ev4].
    set (s3 := set_lastNotify _ _).
    pose proof (telegrams_send V3.tag (V3_alert pos) env s3) as T3.
    pose proof (send_lastNotify V3.tag (V3_alert pos) env s3) as L3.
    destruct (send V3.tag (V3_alert pos) env s3) as [[r3 st3] ev3].
    cbn [fst snd andb] in *. rewrite !telegrams_app, (telegrams_none _ Hq), (telegrams_none _ Hq').
    change (telegrams (?e :: ?l)) with (telegrams l).
    rewrite T4, T3, L4, L3. done.
  - cbn [fst snd andb]. rewrite telegrams_app, (telegrams_none _ Hq), (telegrams_none _ Hq').
    done.
Qed.

Lemma V4_checkPosition_present pos env st n evs :
  checkSL "Network error" (symbol pos) (side pos) env st = (Ok true, set_requests n st, evs) →
  V4.checkPosition pos env st =
    let st1 := set_cache (<[symbol pos := {| hasSL := true; lastCheck := now st |}]>)
                 (set_requests n st) in
    match cache st !! symbol pos with
    | Some p =>
        if hasSL p then (Ok (), st1, evs)
        else (Ok (), set_lastNotify (delete (symbol pos)) st1,
              evs ++ [EvLog SUCCESS (symbol pos +:+ " SL ok")])
    | None => (Ok (), st1, evs)
    end.
Proof.
  intros Hrun. unfold V4.checkPosition.
  unfold try_catch, mbind at 1, M_bind at 1, bind. rewrite Hrun.
  unfold clearSymbol. run.
  destruct (cache st !! symbol pos) as [[[] ?]|]; cbn; by rewrite ?app_nil_r.
Qed.

Lemma V3_checkPosition_present pos env st n evs :
  checkSL "Network error during SL check" (symbol pos) (side pos) env st
    = (Ok true, set_requests n st, evs) →
  V3.checkPosition pos env st =
    let st1 := set_cache (<[symbol pos := {| hasSL := true; lastCheck := now st |}]>)
                 (set_requests n st) in
    match cache st !! symbol pos with
    | Some p =>
        if hasSL p then (Ok (), st1, evs)
        else (Ok (), set_lastNotify (delete (symbol pos)) st1,
              evs ++ [EvLog SUCCESS (symbol pos +:+ " - SL установлен")])
    | None => (Ok (), st1, evs)
    end.
Proof.
  intros Hrun. unfold V3.checkPosition.
  unfold try_catch, mbind at 1, M_bind at 1, bind. rewrite Hrun.
  unfold clearSymbol. run.
  destruct (cache st !! symbol pos) as [[[] ?]|]; cbn; by rewrite ?app_nil_r.
Qed.

(** X9.  When the detection finds a stop, the turn of [check] sends no
    Telegram message.  If the symbol was known as unprotected, its alert
    record is deleted, so that no alert counts as recent any more;
    if it was protected or unknown, the alert records stay as they
    are.  Both rewrites. *)
Theorem restored_stop_rearms_alert msg pos env st :
  (checkSL msg (symbol pos) (side pos) env st).1.1 = Ok true →
  let out4 := V4.checkPosition pos env st in
  let out3 := V3.checkPosition pos env st in
  telegrams out4.2 = [] ∧ telegrams out3.2 = []
  ∧ (protection st (symbol pos) = Unprotected →
       lastNotify out4.1.2 = delete (symbol pos) (lastNotify st)
       ∧ lastNotify out3.1.2 = delete (symbol pos) (lastNotify st)
       ∧ ¬ recently_notified env out4.1.2 (symbol pos)
       ∧ ¬ recently_notified env out3.1.2 (symbol pos))
  ∧ (protection st (symbol pos) ≠ Unprotected →
       lastNotify out4.1.2 = lastNotify st ∧ lastNotify out3.1.2 = lastNotify st).
Proof.
  intros Hres.
  destruct (checkSL_result msg "Network error" _ _ _ _ _ Hres) as (n & evs & _ & H4 & Hq).
  destruct (checkSL_result msg "Network error during SL check" _ _ _ _ _ Hres)
    as (n' & evs' & _ & H3 & Hq').
  cbv zeta.
  rewrite (V4_checkPosition_present _ _ _ _ _ H4), (V3_checkPosition_present _ _ _ _ _ H3).
  cbv zeta. unfold protection, recently_notified.
  destruct (cache st !! symbol pos) as [[[] ?]|]; cbn [fst snd hasSL];
    rewrite ?telegrams_app, ?(telegrams_none _ Hq), ?(telegrams_none _ Hq'); cbn;
    (split; [done|split; [done|split; [|done]]]); try done.
  intros _. rewrite lookup_delete_eq. repeat split; by intros (t & [=] & _).
Qed.


Lemma checked_app a b : checked (a ++ b) = checked a ++ checked b.
Proof. apply omap_app. Qed.

Lemma V4_checkPosition_turn pos env st :
  ∃ st' evs,
    V4.checkPosition pos env st = (Ok (), st', evs)
    ∧ checked evs = [symbol pos]
    ∧ ∀ k, k ≠ symbol pos → lastNotify st' !! k = lastNotify st !! k.
Proof.
  unfold V4.checkPosition.
  unfold try_catch, mbind at 1, M_bind at 1, bind. rewrite checkSL_run. cbv zeta.
  repeat destruct_inner; checkPosition_cases; simplify_eq; do 2 eexists;
    (split; [reflexivity|split; [reflexivity|]]); intros k Hk; cbn;
    rewrite ?lookup_insert_ne, ?lookup_delete_ne by done; done.
Qed.

Lemma V3_checkPosition_turn pos env st :
  ∃ st' evs,
    V3.checkPosition pos env st = (Ok (), st', evs)
    ∧ checked evs = [symbol pos]
    ∧ ∀ k, k ≠ symbol pos → lastNotify st' !! k = lastNotify st !! k.
Proof.
  unfold V3.checkPosition.
  unfold try_catch, mbind at 1, M_bind at 1, bind. rewrite checkSL_run. cbv zeta.
  repeat destruct_inner; checkPosition_cases; simplify_eq; do 2 eexists;
    (split; [reflexivity|split; [reflexivity|]]); intros k Hk; cbn;
    rewrite ?lookup_insert_ne, ?lookup_delete_ne by done; done.
Qed.

Lemma check_loop_turns (checkPosition : Position → M unit) :
  (∀ pos env st, ∃ st' evs,
      checkPosition pos env st = (Ok (), st', evs)
      ∧ checked evs = [symbol pos]
      ∧ ∀ k, k ≠ symbol pos → lastNotify st' !! k = lastNotify st !! k) →
  ∀ ps env st, ∃ st' evs,
    for_of ps checkPosition env st = (Ok (), st', evs)
    ∧ checked evs = map symbol ps
    ∧ ∀ k, held ps k = false → lastNotify st' !! k = lastNotify st !! k.
Proof.
  intros Hturn ps env. induction ps as [|pos ps IH]; intros st.
  - by exists st, [].
  - cbn [for_of]. unfold mbind, M_bind, bind.
    destruct (Hturn pos env st) as (st1 & ev1 & -> & Hc & Hl).
    destruct (IH st1) as (st2 & ev2 & -> & Hc2 & Hl2).
    do 2 eexists. split; [reflexivity|]. split.
    + by rewrite checked_app, Hc, Hc2.
    + intros k [Hne Hh]%held_cons_false. rewrite Hl2, Hl by done. done.
Qed.

Lemma evict_lastNotify ps env st k :
  held ps k = false →
  lastNotify (evict ps env st).1.2 !! k
  = match cache st !! k with Some _ => None | None => lastNotify st !! k end.
Proof.
  intros Hk. rewrite evict_run. cbn. rewrite drop_gone_lookup.
  destruct (cache st !! k) as [v|] eqn:Hv.
  - rewrite decide_True; [done|]. split; [|done].
    apply list_elem_of_fmap. exists (k, v). split; [done|].
    by apply elem_of_map_to_list.
  - rewrite decide_False; [done|]. intros [Hin _].
    apply list_elem_of_fmap in Hin as ([k' v] & -> & Hin).
    apply elem_of_map_to_list in Hin. cbn in Hv. congruence.
Qed.

Lemma check_run (checkPosition : Position → M unit) env st :
  (∀ pos env st, ∃ st' evs,
      checkPosition pos env st = (Ok (), st', evs)
      ∧ checked evs = [symbol pos]
      ∧ ∀ k, k ≠ symbol pos → lastNotify st' !! k = lastNotify st !! k) →
  let out := (st0 ← get; evict (positions st0);; for_of (positions st0) checkPosition) env st in
  checked out.2 = map symbol (positions st)
  ∧ ∀ k, held (positions st) k = false →
      lastNotify out.1.2 !! k
      = match cache st !! k with Some _ => None | None => lastNotify st !! k end.
Proof.
  intros Hturn. cbv zeta.
  unfold mbind at 1, M_bind at 1, bind at 1, get. unfold mbind, M_bind, bind.
  pose proof (evict_lastNotify (positions st) env st) as He.
  destruct (evict (positions st) env st) as [[r st1] ev1] eqn:Hev.
  rewrite evict_run in Hev. injection Hev as <- Hst1 <-.
  destruct (check_loop_turns _ Hturn (positions st) env st1) as (st2 & ev2 & -> & Hc & Hl).
  cbn in *. split; [done|]. intros k Hk. by rewrite Hl, He.
Qed.

(** X10.  [check] runs the detection once for every position of the
    snapshot, in the order of the snapshot, whatever the detections of
    the other positions found or threw.  Both rewrites. *)
Theorem check_examines_every_position env st :
  checked (V4.check env st).2 = map symbol (positions st)
  ∧ checked (V3.check env st).2 = map symbol (positions st).
Proof.
  split.
  - apply (check_run V4.checkPosition env st V4_checkPosition_turn).
  - apply (check_run V3.checkPosition env st V3_checkPosition_turn).
Qed.

(** X11.  After [check], a symbol that the snapshot does not hold has
    no alert record if it had a cache entry, and the record it had
    otherwise.  Both rewrites. *)
Theorem vanished_symbol_forgets_alert env st sym :
  held (positions st) sym = false →
  lastNotify (V4.check env st).1.2 !! sym
    = match cache st !! sym with Some _ => None | None => lastNotify st !! sym end
  ∧ lastNotify (V3.check env st).1.2 !! sym
    = match cache st !! sym with Some _ => None | None => lastNotify st !! sym end.
Proof.
  intros Hk. split.
  - by apply (check_run V4.checkPosition env st V4_checkPosition_turn).
  - by apply (check_run V3.checkPosition env st V3_checkPosition_turn).
Qed.


(** ** The retry helper *)

Lemma retry_loop_http {A} ev (answer : Exchange → nat → response A) attempts delayMs name env :
  ∀ k remaining lastError st out,
    (k < remaining ≤ attempts)%nat →
    (∀ j, (j < k)%nat → ∃ m, answer (exchange env) (requests st + j)%nat = Failed m) →
    match answer (exchange env) (requests st + k)%nat with
    | Body a => out = Ok a
    | Failed m => remaining = S k ∧ out = Throw (Error m)
    end →
    retry_loop (http ev answer) attempts delayMs name remaining lastError env st
    = (out, retried k delayMs st,
       failed_attempts ev name attempts delayMs (S (attempts - remaining)) k ++ [ev]).
Proof.
  induction k as [|k IH]; intros remaining lastError st out Hk Hfail Hout.
  - destruct remaining as [|r]; [lia|]. cbn [retry_loop].
    rewrite Nat.add_0_r in Hout. unfold retried. rewrite Nat.add_0_r.
    unfold try_catch at 1, http at 1.
    destruct (answer (exchange env) (requests st)) as [a|m] eqn:Ha; cbn [thrown fst snd].
    + subst out. f_equal. f_equal.
      destruct st; unfold set_requests, set_now; cbn; f_equal; lia.
    + destruct Hout as [[= ->] ->]. rewrite Nat.sub_0_r, Nat.ltb_irrefl. run.
      f_equal. f_equal. destruct st; unfold set_requests, set_now; cbn; f_equal; lia.
  - destruct remaining as [|r]; [lia|].
    destruct (Hfail 0%nat ltac:(lia)) as [m0 Hm0]. rewrite Nat.add_0_r in Hm0.
    cbn [retry_loop]. unfold try_catch at 1, http at 1. rewrite Hm0. cbn [thrown fst snd].
    replace (attempts - r <? attempts)%nat with true by (symmetry; apply Nat.ltb_lt; lia).
    unfold sleep, attempt_line. unfold mbind at 1 2 3, M_bind at 1 2 3, bind, log, emit, modify.
    cbn [fst snd].
    set (st1 := set_now _ _).
    rewrite (IH r (Error m0) st1 out).
    + replace (S (attempts - r)) with (S (S (attempts - S r))) by lia.
      assert (retried k delayMs st1 = retried (S k) delayMs st) as ->.
      { subst st1. unfold retried. destruct st; unfold set_requests, set_now; cbn; f_equal; lia. }
      cbn. rewrite ?app_nil_r. unfold attempt_line.
      replace (S (attempts - S r)) with (attempts - r)%nat by lia. done.
    + lia.
    + intros j Hj. destruct (Hfail (S j) ltac:(lia)) as [m Hm]. exists m.
      subst st1. cbn. rewrite <- Hm. f_equal. lia.
    + replace (requests st1 + k)%nat with (requests st + S k)%nat by (subst st1; cbn; lia).
      destruct (answer _ _); [done|]. destruct Hout as [? ->]. split; [lia|done].
Qed.

(** X12.  [retry] around a request.  If the first [k] attempts fail and
    the next one is answered, [retry] returns that answer after [k + 1]
    requests, having printed a warning and waited [delayMs] after each
    failure.  If all the attempts fail, it throws the error of the last
    one, after as many requests as attempts and without a wait after the
    last.  Given zero attempts it throws [null] without a request. *)
Theorem retry_stops_at_first_success {A} ev (answer : Exchange → nat → response A)
    attempts delayMs name env st k :
  (∀ j, (j < k)%nat → ∃ m, answer (exchange env) (requests st + j)%nat = Failed m) →
  (k < attempts)%nat →
  let out := retry (http ev answer) attempts delayMs name env st in
  (∀ a, answer (exchange env) (requests st + k)%nat = Body a →
     out = (Ok a, retried k delayMs st, failed_attempts ev name attempts delayMs 1 k ++ [ev]))
  ∧ (∀ m, answer (exchange env) (requests st + k)%nat = Failed m → attempts = S k →
     out = (Throw (Error m), retried k delayMs st,
            failed_attempts ev name attempts delayMs 1 k ++ [ev]))
  ∧ retry (http ev answer) 0 delayMs name env st = (Throw ThrownNull, st, []).
Proof.
  intros Hfail Hk. cbv zeta. unfold retry. split; [|split; [|done]].
  - intros a Ha.
    rewrite (retry_loop_http ev answer attempts delayMs name env k attempts ThrownNull st (Ok a));
      [by rewrite Nat.sub_diag | lia | done | by rewrite Ha].
  - intros m Hm Hatt.
    rewrite (retry_loop_http ev answer attempts delayMs name env k attempts ThrownNull st
               (Throw (Error m)));
      [by rewrite Nat.sub_diag | lia | done | by rewrite Hm].
Qed.


(** ** Quantities and lot steps *)

Lemma digits2_pos_le p : Z.pos p < 2 ^ 53 → Z.pos (digits2_pos p) ≤ 53.
Proof.
  intros Hp. pose proof (digits2_pos_lower p) as Hl.
  assert (2 ^ (Z.pos (digits2_pos p) - 1) < 2 * 2 ^ 52) as H by lia.
  apply pow2_lt_inv in H; lia.
Qed.

Lemma digits2_pos_ge p : 2 ^ 52 ≤ Z.pos p → 53 ≤ Z.pos (digits2_pos p).
Proof.
  intros Hp. pose proof (digits2_pos_bound p) as Hu.
  destruct (Z.le_gt_cases 53 (Z.pos (digits2_pos p))) as [|Hlt]; [done|]. exfalso.
  assert (2 ^ Z.pos (digits2_pos p) ≤ 2 ^ 52) by (apply Z.pow_le_mono_r; lia). lia.
Qed.

(** What [round_to_double] returns is a binary64: the mantissa has at
    most 53 bits, exactly 53 above the subnormal range, and the exponent
    is in range. *)
Lemma round_to_double_bounded s a b s' m e :
  0 < a → 0 < b →
  JS.round_to_double s a b = S754_finite s' m e → bounded 53 1024 m e = true.
Proof.
  intros Ha Hb. unfold JS.round_to_double.
  destruct (Z.eqb_spec a 0) as [|_]; [lia|].
  destruct (binade_spec a b Ha Hb) as [He Hlow].
  pose proof (binade_upper a b Ha Hb) as Hup.
  remember (JS.binade a b) as E eqn:EE. clear EE.
  destruct (scale2_spec a b E He) as (k & Hk & Hn & Hd).
  destruct (JS.scale2 a b E) as [n d]. cbn [fst snd] in Hn, Hd.
  assert (Hc : 0 < 2 ^ (E + 1074)) by (apply Z.pow_pos_nonneg; lia).
  assert (HG : 0 < grid) by done.
  assert (Hn0 : 0 < n) by nia. assert (Hd0 : 0 < d) by nia.
  destruct (round_half_even_spec n d ltac:(lia) Hd0) as [Hq0 Hq].
  remember (JS.round_half_even n d) as q eqn:Eq. clear Eq.
  assert (Hnd : n < 2 ^ 53 * d).
  { apply (Z.mul_lt_mono_pos_r k); [done|]. nia. }
  assert (Hq53 : q ≤ 2 ^ 53).
  { change (2 ^ 53) with 9007199254740992 in *. nia. }
  assert (Hq52 : -1074 < E → 2 ^ 52 ≤ q).
  { intros HE. specialize (Hlow HE).
    assert (2 ^ 52 * d ≤ n).
    { apply (Z.mul_le_mono_pos_r _ _ k); [done|]. nia. }
    change (2 ^ 52) with 4503599627370496 in *. nia. }
  unfold bounded, canonical_mantissa, fexp, SpecFloat.emin.
  destruct (Z.eqb_spec q (2 ^ 53)) as [->|Hne].
  - change (2 ^ 52) with (Z.pos 4503599627370496). cbv beta iota.
    destruct (Z.leb_spec (E + 1) JS.etop) as [Htop|]; [|done].
    intros [= <- <- <-]. apply andb_true_intro. split.
    + apply Z.eqb_eq. change (Z.pos (digits2_pos 4503599627370496)) with 53. lia.
    + apply Z.leb_le. unfold JS.etop, JS.emax, JS.prec in Htop. lia.
  - destruct q as [|p|p]; [done| |done].
    destruct (Z.leb_spec E JS.etop) as [Htop|]; [|done].
    intros [= <- <- <-]. apply andb_true_intro. split.
    + apply Z.eqb_eq.
      pose proof (digits2_pos_le p ltac:(lia)) as Hle.
      destruct (Z.eq_dec E (-1074)) as [->|HE]; [lia|].
      pose proof (digits2_pos_ge p (Hq52 ltac:(lia))). lia.
    + apply Z.leb_le. unfold JS.etop, JS.emax, JS.prec in Htop. lia.
Qed.

(** Rounding a quantity gives a quantity. *)
Lemma rounded_is_size f x : is_size x = true → is_size (rounded_to f x) = true.
Proof.
  intros Hq. destruct x as [[]|[]| |[] m e]; try done.
  - by rewrite rounded_zero.
  - cbn [is_size negb andb] in Hq.
    destruct (JS.ge_pow10 m e 21) eqn:Hlt; [by rewrite rounded_large|].
    rewrite (rounded_finite m e f Hlt).
    pose proof (round_to_double_shape false (JS.scaled_round m e f) (10 ^ Z.of_nat f)) as Hs.
    destruct (Z.eq_dec (JS.scaled_round m e f) 0) as [H0|H0].
    { by rewrite H0. }
    pose proof (scaled_round_nonneg m e f) as Hn.
    assert (HP : 0 < 10 ^ Z.of_nat f) by (apply Z.pow_pos_nonneg; lia).
    destruct (JS.round_to_double false _ _) as [s|s| |s m' e'] eqn:Hr.
    + by subst s.
    + by subst s.
    + done.
    + destruct Hs as [-> _]. cbn [is_size negb andb].
      eapply round_to_double_bounded; [| |exact Hr]; lia.
Qed.

Lemma text_of_size x :
  is_size x = true → JS.parseFloat (JS.Number_toString x) = x.
Proof.
  intros Hq. destruct x as [[]|[]| |[] m e]; try done.
  by apply parseFloat_Number_toString.
Qed.

(** X13.  The quantity that [roundQty] returns for a quantity that is
    not negative is not negative either, and the text of it, which
    [closePosition] sends as the quantity of the order, reads back as
    exactly that number. *)
Theorem order_quantity_text_exact sym qty env st r st' evs :
  is_size qty = true →
  roundQty sym qty env st = (Ok r, st', evs) →
  is_size r = true ∧ JS.parseFloat (JS.Number_toString r) = r.
Proof.
  intros Hq Hrun. destruct (roundQty_returns _ _ _ _ _ _ _ Hrun) as (-> & _).
  pose proof (rounded_is_size (precision_of st' sym) qty Hq) as Hr.
  split; [done|]. by apply text_of_size.
Qed.


Lemma split_nonempty sep s : split sep s ≠ [].
Proof.
  destruct s as [|c r]; cbn; [done|].
  destruct (Ascii.eqb c sep); [done|]. by destruct (split sep r).
Qed.

Lemma split_no_dot a : no_dot a = true → split "." a = [a].
Proof.
  induction a as [|c a IH]; [done|]. cbn [no_dot split].
  intros [Hc Ha]%andb_prop. apply negb_true_iff in Hc. rewrite Hc, (IH Ha). done.
Qed.

Lemma split_dot a r : no_dot a = true → split "." (a +:+ "." +:+ r) = a :: split "." r.
Proof.
  induction a as [|c a IH]; intros Ha.
  - done.
  - cbn [no_dot] in Ha. apply andb_prop in Ha as [Hc Ha]. apply negb_true_iff in Hc.
    rewrite string_app_cons. cbn [split]. rewrite Hc, (IH Ha). done.
Qed.

(** X14.  The precision read off a lot step is the number of characters
    between the first dot of the step and the second one, or the end of
    the step; it is 0 for a step without a dot. *)
Theorem fraction_digits_counts a b c :
  no_dot a = true → no_dot b = true →
  fraction_digits a = 0%nat
  ∧ fraction_digits (a +:+ "." +:+ b) = String.length b
  ∧ fraction_digits (a +:+ "." +:+ b +:+ "." +:+ c) = String.length b.
Proof.
  intros Ha Hb. unfold fraction_digits. repeat split.
  - by rewrite (split_no_dot a Ha).
  - by rewrite (split_dot a b Ha), (split_no_dot b Hb).
  - by rewrite (split_dot a _ Ha), (split_dot b c Hb).
Qed.

Lemma load_symbol_step m s :
  load_symbol m s = match lot_step s with
                    | Some step => <[info_symbol s := fraction_digits step]> m
                    | None => m
                    end.
Proof.
  unfold load_symbol, lot_step.
  destruct (List.find _ _) as [lot|]; [|done].
  by destruct (stepSize lot) as [[|c r]|].
Qed.

Lemma load_symbols_keep info m k :
  is_Some (m !! k) → is_Some (fold_left load_symbol info m !! k).
Proof.
  revert m. induction info as [|s info IH]; intros m Hk; [done|].
  cbn. apply IH. rewrite load_symbol_step. destruct (lot_step s); [|done].
  destruct (decide (info_symbol s = k)) as [->|Hne].
  - rewrite lookup_insert_eq. by eexists.
  - by rewrite lookup_insert_ne.
Qed.

Lemma load_symbols_other info m k :
  (∀ s, In s info → lot_step s ≠ None → info_symbol s ≠ k) →
  fold_left load_symbol info m !! k = m !! k.
Proof.
  revert m. induction info as [|s info IH]; intros m Hk; [done|].
  cbn. rewrite IH by (intros s' Hs'; apply Hk; by right).
  rewrite load_symbol_step. destruct (lot_step s) eqn:Hs; [|done].
  apply lookup_insert_ne. apply Hk; [by left|]. by rewrite Hs.
Qed.

Lemma load_symbols_listed info m s step :
  In s info → lot_step s = Some step →
  ∃ s' step', In s' info ∧ info_symbol s' = info_symbol s ∧ lot_step s' = Some step'
    ∧ fold_left load_symbol info m !! info_symbol s = Some (fraction_digits step').
Proof.
  induction info as [|x info IH] using rev_ind; intros Hin Hstep; [done|].
  rewrite fold_left_app. cbn [fold_left]. rewrite load_symbol_step.
  destruct (lot_step x) as [sx|] eqn:Hx.
  - destruct (decide (info_symbol x = info_symbol s)) as [Heq|Hne].
    + exists x, sx. rewrite in_app_iff. repeat split; [right; by left|done|done|].
      rewrite Heq. apply lookup_insert_eq.
    + apply in_app_iff in Hin as [Hin|[->|[]]]; [|done].
      destruct (IH Hin Hstep) as (s' & step' & H1 & H2 & H3 & H4).
      exists s', step'. rewrite in_app_iff. repeat split; [by left|done|done|].
      by rewrite lookup_insert_ne.
  - apply in_app_iff in Hin as [Hin|[->|[]]]; [|congruence].
    destruct (IH Hin Hstep) as (s' & step' & H1 & H2 & H3 & H4).
    exists s', step'. rewrite in_app_iff. repeat split; [by left|done|done|done].
Qed.

(** X15.  A call of [roundQty] for a symbol that is not cached, when the
    metadata fetch is answered: the precisions already cached are kept;
    every listed instrument with a non-empty [LOT_SIZE] step is recorded
    with the precision of the step of an instrument of that symbol in the
    list; a symbol that no such instrument carries is left as it was.
    After the call, [roundQty] for a cached symbol makes no request and
    changes nothing, and [roundQty] for the same symbol, if the list did
    not give it a step, fetches the metadata again. *)
Theorem exchange_info_records_lot_steps sym qty env st info :
  symbolInfo st !! sym = None →
  exchangeInfo (exchange env) (requests st) = Body info →
  let st' := (roundQty sym qty env st).1.2 in
  (∀ k, is_Some (symbolInfo st !! k) → is_Some (symbolInfo st' !! k))
  ∧ (∀ s step, In s info → lot_step s = Some step →
       ∃ s' step', In s' info ∧ info_symbol s' = info_symbol s ∧ lot_step s' = Some step'
         ∧ symbolInfo st' !! info_symbol s = Some (fraction_digits step'))
  ∧ (∀ k, (∀ s, In s info → lot_step s ≠ None → info_symbol s ≠ k) →
       symbolInfo st' !! k = symbolInfo st !! k)
  ∧ (∀ k qty2, is_Some (symbolInfo st' !! k) →
       (roundQty k qty2 env st').1.2 = st' ∧ (roundQty k qty2 env st').2 = [])
  ∧ (symbolInfo st' !! sym = None →
       (roundQty sym qty env st').2 = [EvExchangeInfo]).
Proof.
  intros Hp Hinfo. cbv zeta.
  assert ((roundQty sym qty env st).1.2
          = set_symbolInfo (λ m, fold_left load_symbol info m)
              (set_requests (S (requests st)) st)) as ->.
  { rewrite (roundQty_uncached sym qty env st Hp), Hinfo. cbv zeta.
    by destruct (100 <? _)%nat. }
  set (st' := set_symbolInfo _ _).
  split; [|split; [|split; [|split]]].
  - intros k Hk. by apply load_symbols_keep.
  - intros s step Hin Hs. by apply load_symbols_listed with step.
  - intros k Hk. by apply load_symbols_other.
  - intros k qty2 [p Hk]. rewrite (roundQty_cached k qty2 p env st' Hk). cbv zeta.
    by destruct (100 <? _)%nat.
  - intros Hnone. rewrite (roundQty_uncached sym qty env st' Hnone).
    destruct (exchangeInfo (exchange env) (requests st')); [|done].
    cbv zeta. by destruct (100 <? _)%nat.
Qed.


(** ** Outages and the healthcheck *)

Lemma V4_outage_turn env st :
  outage env →
  ∃ st' evs, V4.iteration env st = (Ok (), st', evs) ∧ outage_after 1 st st'
             ∧ Forall (λ e, ¬ close_event e) evs.
Proof.
  intros Hout. destruct (Hout (requests st)) as [msg Hmsg].
  assert (V4.tick env st = (Throw (Error msg), set_requests (S (requests st)) st,
                            [EvPositionRisk])) as Ht by (by rewrite V4_tick_run, Hmsg).
  rewrite (V4_iteration_failed_run _ _ _ _ _ Ht). cbv zeta.
  destruct (10 <=? _)%nat; do 2 eexists; (split; [reflexivity|]);
    (split; [unfold outage_after; cbn; repeat split; lia|]);
    repeat constructor; by intros [].
Qed.

Lemma V3_outage_turn env st :
  outage env →
  ∃ st' evs, V3.iteration env st = (Ok (), st', evs) ∧ outage_after 1 st st'
             ∧ Forall (λ e, ¬ close_event e) evs.
Proof.
  intros Hout. destruct (Hout (requests st)) as [msg Hmsg].
  assert (V3.tick env st = (Throw (Error msg), set_requests (S (requests st)) st,
                            [EvPositionRisk])) as Ht by (by rewrite V3_tick_run, Hmsg).
  rewrite (V3_iteration_failed_run _ _ _ _ _ Ht). cbv zeta.
  destruct (10 <=? _)%nat; do 2 eexists; (split; [reflexivity|]);
    (split; [unfold outage_after; cbn; repeat split; lia|]);
    repeat constructor; by intros [].
Qed.

Lemma outage_turns (iteration : M unit) env :
  (∀ st, ∃ st' evs, iteration env st = (Ok (), st', evs) ∧ outage_after 1 st st'
                    ∧ Forall (λ e, ¬ close_event e) evs) →
  ∀ n st, ∃ st' evs, turns iteration n env st = (Ok (), st', evs) ∧ outage_after n st st'
                     ∧ Forall (λ e, ¬ close_event e) evs.
Proof.
  intros Hturn. induction n as [|n IH]; intros st.
  - exists st, []. split; [done|]. split; [|done].
    unfold outage_after. repeat split; lia.
  - cbn [turns]. unfold mbind, M_bind, bind.
    destruct (Hturn st) as (st1 & ev1 & -> & H1 & Hq1).
    destruct (IH st1) as (st2 & ev2 & -> & H2 & Hq2).
    do 2 eexists. split; [reflexivity|]. split; [|by apply Forall_app].
    unfold outage_after in *.
    destruct H1 as (? & ? & ? & ? & ?), H2 as (? & ? & ? & ? & ?).
    repeat split; first [lia | congruence].
Qed.

(** X16.  While the exchange refuses every position fetch, [n] turns of
    the monitor's loop return normally; they count [n] more errors, make
    [n] requests, keep the snapshot, the cache and [lastTick], and do
    nothing of the close protocol.  The healthcheck of Guardian 3.0 then
    answers 200 while the errors in a row are fewer than ten, and 503
    from the tenth on. *)
Theorem outage_is_survived env st n :
  outage env →
  let o4 := turns V4.iteration n env st in
  let o3 := turns V3.iteration n env st in
  (o4.1.1 = Ok () ∧ outage_after n st o4.1.2 ∧ Forall (λ e, ¬ close_event e) o4.2)
  ∧ (o3.1.1 = Ok () ∧ outage_after n st o3.1.2 ∧ Forall (λ e, ¬ close_event e) o3.2)
  ∧ healthcheck (Some (true, o3.1.2)) = if (errors st + n <? 10)%nat then 200 else 503.
Proof.
  intros Hout. cbv zeta.
  destruct (outage_turns V4.iteration env (λ s, V4_outage_turn env s Hout) n st)
    as (st4 & ev4 & -> & H4 & Hq4).
  destruct (outage_turns V3.iteration env (λ s, V3_outage_turn env s Hout) n st)
    as (st3 & ev3 & -> & H3 & Hq3).
  cbn [fst snd]. repeat split; try done; try apply H4; try apply H3.
  unfold healthcheck, getHealth. cbn. destruct H3 as (-> & _). done.
Qed.

(** X17.  The healthcheck of Guardian 3.0 answers 503 while the
    guardian is not built and while the monitor is not running.  After a
    turn of the loop whose tick ran to its end it answers 200 if the
    monitor is running, with no errors and the time of the end of the
    tick as [lastTick], however many ticks failed before.  After a turn
    whose tick threw it answers 200 only if the monitor is running and
    fewer than nine ticks had failed in a row before; [lastTick] is
    kept. *)
Theorem health_follows_the_last_tick env st running :
  let out := (V3.iteration env st).1.2 in
  healthcheck None = 503
  ∧ healthcheck (Some (false, out)) = 503
  ∧ ((V3.tick env st).1.1 = Ok () →
       healthcheck (Some (running, out)) = (if running then 200 else 503)
       ∧ health_errors (getHealth running out) = 0%nat
       ∧ health_lastTick (getHealth running out) = now (V3.tick env st).1.2)
  ∧ (∀ e, (V3.tick env st).1.1 = Throw e →
       healthcheck (Some (running, out))
         = (if running && (errors st <? 9)%nat then 200 else 503)
       ∧ health_lastTick (getHealth running out) = lastTick st).
Proof.
  cbv zeta.
  destruct (V3_tick_counters env st) as (_ & (He3 & Hl3 & _) & _).
  pose proof (V3_tick_throws env st) as Ht3.
  split; [done|]. split; [done|].
  destruct (V3.tick env st) as [[[[]|[msg|]] st1] ev1] eqn:Ht; cbn [fst snd] in *.
  - rewrite (V3_iteration_ok_run _ _ _ _ Ht). split; [|by intros e [=]].
    intros _. unfold healthcheck, getHealth. cbn. by rewrite andb_true_r.
  - rewrite (V3_iteration_failed_run _ _ _ _ _ Ht). cbv zeta.
    split; [by intros [=]|]. intros e _. rewrite He3.
    unfold healthcheck, getHealth.
    destruct (10 <=? S (errors st))%nat; cbn [fst snd]; cbn -[Nat.ltb Nat.leb];
      (split; [reflexivity|done]).
  - by destruct (Ht3 ThrownNull).
Qed.


(** ** The commands of the bot *)

Lemma set_requests_paused n b st : set_requests n (set_paused b st) = set_paused b (set_requests n st).
Proof. done. Qed.

Lemma cmdPause_run env st :
  (V4.cmdPause env st).1 = (Ok (), commanded true env st).
Proof.
  unfold V4.cmdPause, commanded. unfold mbind, M_bind, bind, modify, log, emit.
  rewrite send_run. cbn.
  destruct (configured (cfg env)); [destruct (sendMessage _ _ _)|]; done.
Qed.

Lemma cmdResume_run env st :
  (V4.cmdResume env st).1 = (Ok (), commanded false env st).
Proof.
  unfold V4.cmdResume, commanded. unfold mbind, M_bind, bind, modify, log, emit, ask.
  rewrite send_run. cbn.
  destruct (configured (cfg env)); [destruct (sendMessage _ _ _)|]; done.
Qed.

Lemma cmdStatus_run env st :
  (V4.cmdStatus env st).1 = (Ok (), commanded (paused st) env st).
Proof.
  unfold V4.cmdStatus, commanded. unfold mbind, M_bind, bind, get, ask, mret, M_ret, ret.
  rewrite send_run. cbn.
  destruct (configured (cfg env)); [destruct (sendMessage _ _ _)|]; cbn;
    by rewrite ?set_paused_id.
Qed.

Lemma cmdHelp_run env st :
  (Bot.cmdHelp env st).1 = (Ok (), commanded (paused st) env st).
Proof.
  unfold Bot.cmdHelp, commanded. unfold mbind, M_bind, bind, get, ask, mret, M_ret, ret.
  rewrite send_run. cbn.
  destruct (configured (cfg env)); [destruct (sendMessage _ _ _)|]; cbn;
    by rewrite ?set_paused_id.
Qed.

(** X18.  The commands of the bot return normally whether or not
    Telegram takes their message.  [cmdPause] sets the pause flag,
    [cmdResume] clears it, [cmdStatus] and [cmdHelp] leave it; nothing
    else of the state changes but the request counter, by the one request
    made when Telegram is configured.  A resume after a pause leaves the
    monitor not paused. *)
Theorem pause_and_resume_set_the_flag env st :
  (V4.cmdPause env st).1 = (Ok (), commanded true env st)
  ∧ (V4.cmdResume env st).1 = (Ok (), commanded false env st)
  ∧ (V4.cmdStatus env st).1 = (Ok (), commanded (paused st) env st)
  ∧ (Bot.cmdHelp env st).1 = (Ok (), commanded (paused st) env st)
  ∧ (∀ env', paused (V4.cmdResume env' (V4.cmdPause env st).1.2).1.2 = false).
Proof.
  rewrite cmdPause_run, cmdResume_run, cmdStatus_run, cmdHelp_run.
  repeat split; try done.
  intros env'. by rewrite cmdResume_run.
Qed.

Lemma lift_run {A} (m : M A) env st r st' :
  (m env st).1 = (r, st') → (Bot.lift m env st).1 = (r, st').
Proof. unfold Bot.lift. by destruct (m env st) as [[? ?] ?]. Qed.

Lemma handleCallback_run c env st :
  (Bot.handleCallback c env st).1
  = match Bot.data c with
    | Some (String a r) => (Ok (), pressed (String a r) env st)
    | _ => (Ok (), st)
    end.
Proof.
  unfold Bot.handleCallback, pressed.
  destruct (Bot.data c) as [[|a r]|]; [done| |done].
  unfold Bot.then_, Bot.answerCallbackQuery. cbv zeta.
  set (st1 := set_requests _ st).
  destruct (String.eqb _ "status").
  { pose proof (lift_run _ env st1 _ _ (cmdStatus_run env st1)) as H.
    destruct (Bot.lift _ _ _) as [[? ?] ?]. by injection H as -> ->. }
  destruct (String.eqb _ "pause").
  { pose proof (lift_run _ env st1 _ _ (cmdPause_run env st1)) as H.
    destruct (Bot.lift _ _ _) as [[? ?] ?]. by injection H as -> ->. }
  destruct (String.eqb _ "resume").
  { pose proof (lift_run _ env st1 _ _ (cmdResume_run env st1)) as H.
    destruct (Bot.lift _ _ _) as [[? ?] ?]. by injection H as -> ->. }
  done.
Qed.

Lemma handleUpdate_run chatId command_of u env st :
  (Bot.handleUpdate chatId command_of u env st).1
  = match Bot.callback_query u with
    | Some c => (Bot.handleCallback c env st).1
    | None =>
        match Bot.message u with
        | Some m =>
            match Bot.text m with
            | Some (String a r) =>
                if String.eqb (Bot.chat m) chatId
                then (Ok (), typed (command_of (String a r)) env st)
                else (Ok (), st)
            | _ => (Ok (), st)
            end
        | None => (Ok (), st)
        end
    end.
Proof.
  unfold Bot.handleUpdate, typed.
  destruct (Bot.callback_query u) as [c|]; [done|].
  destruct (Bot.message u) as [[[[|a r]|] ch]|]; try done. cbn [Bot.text Bot.chat].
  destruct (String.eqb ch chatId); [|done]. cbn [negb].
  destruct (_ || _).
  { apply lift_run, cmdHelp_run. }
  destruct (String.eqb _ "/status").
  { apply lift_run, cmdStatus_run. }
  destruct (String.eqb _ "/pause").
  { apply lift_run, cmdPause_run. }
  destruct (String.eqb _ "/resume").
  { apply lift_run, cmdResume_run. }
  done.
Qed.

Lemma commanded_fields flag env st :
  positions (commanded flag env st) = positions st ∧ cache (commanded flag env st) = cache st
  ∧ errors (commanded flag env st) = errors st
  ∧ lastNotify (commanded flag env st) = lastNotify st
  ∧ symbolInfo (commanded flag env st) = symbolInfo st ∧ now (commanded flag env st) = now st
  ∧ paused (commanded flag env st) = flag.
Proof. unfold commanded. by destruct (configured (cfg env)). Qed.

Lemma pressed_fields d env st :
  (positions (pressed d env st) = positions st ∧ cache (pressed d env st) = cache st
   ∧ errors (pressed d env st) = errors st ∧ lastNotify (pressed d env st) = lastNotify st
   ∧ symbolInfo (pressed d env st) = symbolInfo st ∧ now (pressed d env st) = now st)
  ∧ paused (pressed d env st)
    = (if String.eqb d "pause" then true
       else if String.eqb d "resume" then false else paused st).
Proof.
  unfold pressed. cbv zeta.
  destruct (String.eqb_spec d "status") as [->|_].
  { cbn [String.eqb Ascii.eqb Bool.eqb]. split; [|apply commanded_fields].
    by destruct (commanded_fields (paused st) env (set_requests (S (requests st)) st))
      as (-> & -> & -> & -> & -> & -> & _). }
  destruct (String.eqb d "pause").
  { split; [|apply commanded_fields].
    by destruct (commanded_fields true env (set_requests (S (requests st)) st))
      as (-> & -> & -> & -> & -> & -> & _). }
  destruct (String.eqb d "resume"); [|done].
  split; [|apply commanded_fields].
  by destruct (commanded_fields false env (set_requests (S (requests st)) st))
    as (-> & -> & -> & -> & -> & -> & _).
Qed.

Lemma typed_fields cmd env st :
  (positions (typed cmd env st) = positions st ∧ cache (typed cmd env st) = cache st
   ∧ errors (typed cmd env st) = errors st ∧ lastNotify (typed cmd env st) = lastNotify st
   ∧ symbolInfo (typed cmd env st) = symbolInfo st ∧ now (typed cmd env st) = now st)
  ∧ paused (typed cmd env st)
    = (if String.eqb cmd "/pause" then true
       else if String.eqb cmd "/resume" then false else paused st).
Proof.
  unfold typed.
  destruct (String.eqb_spec cmd "/start") as [->|_].
  { cbn [orb String.eqb Ascii.eqb Bool.eqb]. split; [|apply commanded_fields].
    by destruct (commanded_fields (paused st) env st) as (-> & -> & -> & -> & -> & -> & _). }
  destruct (String.eqb_spec cmd "/help") as [->|_].
  { cbn [orb String.eqb Ascii.eqb Bool.eqb]. split; [|apply commanded_fields].
    by destruct (commanded_fields (paused st) env st) as (-> & -> & -> & -> & -> & -> & _). }
  cbn [orb].
  destruct (String.eqb_spec cmd "/status") as [->|_].
  { cbn [String.eqb Ascii.eqb Bool.eqb]. split; [|apply commanded_fields].
    by destruct (commanded_fields (paused st) env st) as (-> & -> & -> & -> & -> & -> & _). }
  destruct (String.eqb cmd "/pause").
  { split; [|apply commanded_fields].
    by destruct (commanded_fields true env st) as (-> & -> & -> & -> & -> & -> & _). }
  destruct (String.eqb cmd "/resume"); [|done].
  split; [|apply commanded_fields].
  by destruct (commanded_fields false env st) as (-> & -> & -> & -> & -> & -> & _).
Qed.

(** X19.  [handleUpdate] returns normally and changes nothing of the
    state but the pause flag and the request counter.  The flag is set by
    a pressed button with the data [pause] and by a text message of the
    configured chat whose command word is [/pause], cleared likewise by
    [resume] and [/resume], and changed by no other update.  The chat of
    a pressed button is not looked at.  An update without a pressed
    button whose message comes from another chat does nothing at all. *)
Theorem bot_obeys_owner_and_buttons chatId command_of u env st :
  let out := Bot.handleUpdate chatId command_of u env st in
  out.1.1 = Ok ()
  ∧ (positions out.1.2 = positions st ∧ cache out.1.2 = cache st
     ∧ errors out.1.2 = errors st ∧ lastNotify out.1.2 = lastNotify st
     ∧ symbolInfo out.1.2 = symbolInfo st ∧ now out.1.2 = now st)
  ∧ (∀ flag, asks_for chatId command_of u flag → paused out.1.2 = flag)
  ∧ (paused out.1.2 ≠ paused st → asks_for chatId command_of u (paused out.1.2))
  ∧ (Bot.callback_query u = None →
     (∀ m, Bot.message u = Some m → Bot.chat m ≠ chatId) →
     out = (Ok (), st, [])).
Proof.
  cbv zeta. split; [|split; [|split; [|split]]].
  5:{ intros Hc Hm. unfold Bot.handleUpdate. rewrite Hc.
      destruct (Bot.message u) as [[[[|a r]|] ch]|]; try done.
      specialize (Hm _ eq_refl). cbn in Hm. apply String.eqb_neq in Hm. by rewrite Hm. }
  all: rewrite handleUpdate_run; unfold asks_for.
  all: destruct (Bot.callback_query u) as [c|].
  all: try (rewrite handleCallback_run; destruct (Bot.data c) as [[|a r]|]; cbn [fst snd];
            try pose proof (pressed_fields (String a r) env st) as [Hf Hp]).
  all: try (destruct (Bot.message u) as [[[[|a r]|] ch]|]; cbn [fst snd Bot.text Bot.chat];
            try (destruct (String.eqb_spec ch chatId) as [->|Hch]; cbn [fst snd];
                 try pose proof (typed_fields (command_of (String a r)) env st) as [Hf Hp])).
  all: try done.
  all: try (intros []; intros [=]; fail).
  all: try (intros [] (m & t & [= <-] & [= <-] & ? & ? & ?); done).
  all: try (intros flag; rewrite Hp; destruct flag; intros [= ->]; done).
  all: try (rewrite Hp; repeat destruct (String.eqb_spec _ _); try done; intros _; congruence).
  all: try (intros flag (m & t & [= <-] & [= <-] & ? & ? & Hcmd); cbn in *; rewrite Hp, Hcmd;
            by destruct flag).
  - intros flag [= Heq]. rewrite Hp, Heq. by destruct flag.
  - rewrite Hp.
    destruct (String.eqb_spec (String a r) "pause") as [Heq|_]; [by rewrite Heq|].
    destruct (String.eqb_spec (String a r) "resume") as [Heq|_]; [by rewrite Heq|done].
  - rewrite Hp. intros Hne. eexists _, _. repeat split; [done|].
    destruct (String.eqb_spec (command_of (String a r)) "/pause") as [Heq|_]; [done|].
    destruct (String.eqb_spec (command_of (String a r)) "/resume") as [Heq|_]; done.
Qed.


(** ** Independence from Telegram *)

Lemma silent_app a b : silent (a ++ b) = silent a ++ silent b.
Proof. apply omap_app. Qed.

Lemma deaf_ret {A} (a : A) : deaf eq (mret a) (mret a).
Proof. by intros env1 env2 st _. Qed.

Lemma deaf_throw {A} e : deaf (A:=A) eq (throw e) (throw e).
Proof. by intros env1 env2 st _. Qed.

Lemma deaf_get : deaf eq get get.
Proof. by intros env1 env2 st _. Qed.

Lemma deaf_ask : deaf same_market ask ask.
Proof. by intros env1 env2 st H. Qed.

Lemma deaf_emit e : deaf eq (emit e) (emit e).
Proof. by intros env1 env2 st _. Qed.

Lemma deaf_log l1 l2 msg1 msg2 : deaf eq (log l1 msg1) (log l2 msg2).
Proof. by intros env1 env2 st _. Qed.

Lemma deaf_modify f : deaf eq (modify f) (modify f).
Proof. by intros env1 env2 st _. Qed.

Lemma deaf_message_of e : deaf eq (message_of e) (message_of e).
Proof. intros env1 env2 st _. by destruct e. Qed.

Lemma deaf_http {A} ev (answer : Exchange → nat → response A) :
  (∀ env1 env2, same_market env1 env2 →
     ∀ n, answer (exchange env1) n = answer (exchange env2) n) →
  deaf eq (http ev answer) (http ev answer).
Proof.
  intros Ha env1 env2 st H. unfold http. cbn. rewrite (Ha env1 env2 H).
  repeat split. by destruct (answer _ _).
Qed.

Lemma deaf_send tag text : deaf any_value (send tag text) (send tag text).
Proof.
  intros env1 env2 st H. rewrite !send_run. destruct H as (<- & _).
  destruct (configured (cfg env1)); [|done].
  by destruct (sendMessage (exchange env1) _ _), (sendMessage (exchange env2) _ _).
Qed.

Lemma deaf_bind {A B} R S (m1 m2 : M A) (k1 k2 : A → M B) :
  deaf R m1 m2 → (∀ a b, R a b → deaf S (k1 a) (k2 b)) → deaf S (m1 ≫= k1) (m2 ≫= k2).
Proof.
  intros Hm Hk env1 env2 st H. unfold mbind, M_bind, bind.
  destruct (Hm env1 env2 st H) as (H1 & H2 & H3).
  destruct (m1 env1 st) as [[[a|e] s1] ev1], (m2 env2 st) as [[[b|e'] s2] ev2];
    cbn [fst snd same_outcome] in *; try done. subst s2.
  destruct (Hk a b H3 env1 env2 s1 H) as (H4 & H5 & H6).
  destruct (k1 a env1 s1) as [[r1 t1] w1], (k2 b env2 s1) as [[r2 t2] w2]; cbn -[silent] in *.
  rewrite !silent_app. by rewrite H2, H5.
Qed.

Lemma deaf_try_catch {A} R (m1 m2 : M A) (h1 h2 : error → M A) :
  deaf R m1 m2 → (∀ e, deaf R (h1 e) (h2 e)) → deaf R (try_catch m1 h1) (try_catch m2 h2).
Proof.
  intros Hm Hh env1 env2 st H. unfold try_catch.
  destruct (Hm env1 env2 st H) as (H1 & H2 & H3).
  destruct (m1 env1 st) as [[[a|e] s1] ev1], (m2 env2 st) as [[[b|e'] s2] ev2];
    cbn [fst snd same_outcome] in *; try done. subst s2 e'.
  destruct (Hh e env1 env2 s1 H) as (H4 & H5 & H6).
  destruct (h1 e env1 s1) as [[r1 t1] w1], (h2 e env2 s1) as [[r2 t2] w2]; cbn -[silent] in *.
  rewrite !silent_app. by rewrite H2, H5.
Qed.

Lemma deaf_for_of {A} (l : list A) (f1 f2 : A → M unit) :
  (∀ x, deaf eq (f1 x) (f2 x)) → deaf eq (for_of l f1) (for_of l f2).
Proof.
  intros Hf. induction l as [|x l IH]; cbn [for_of].
  - apply deaf_ret.
  - eapply deaf_bind; [apply Hf|]. by intros.
Qed.

Lemma deaf_weaken {A} (m1 m2 : M A) : deaf eq m1 m2 → deaf any_value m1 m2.
Proof.
  intros Hm env1 env2 st H. destruct (Hm env1 env2 st H) as (H1 & H2 & H3).
  repeat split; try done.
  by destruct (m1 env1 st).1.1, (m2 env2 st).1.1.
Qed.

(** Proves [deaf R m m] by following the structure of [m]. *)
Ltac deaf_auto :=
  lazymatch goal with
  | |- deaf _ (mbind _ _) (mbind _ _) =>
      eapply deaf_bind;
      [deaf_auto
      |let a := fresh "a" in let b := fresh "b" in let H := fresh "H" in
       intros a b H;
       first [ subst b | destruct H as (H & _); try rewrite H | clear H ];
       deaf_auto]
  | |- deaf _ (try_catch _ _) (try_catch _ _) =>
      apply deaf_try_catch; [deaf_auto | intros ?; deaf_auto]
  | |- deaf _ (for_of _ _) (for_of _ _) => apply deaf_for_of; intros ?; deaf_auto
  | |- deaf _ (mret _) (mret _) => apply deaf_ret
  | |- deaf _ (throw _) (throw _) => apply deaf_throw
  | |- deaf _ get get => apply deaf_get
  | |- deaf _ ask ask => apply deaf_ask
  | |- deaf _ (message_of _) (message_of _) => apply deaf_message_of
  | |- deaf _ (log _ _) (log _ _) => apply deaf_log
  | |- deaf _ (emit _) (emit _) => apply deaf_emit
  | |- deaf _ (modify _) (modify _) => apply deaf_modify
  | |- deaf _ (send _ _) (send _ _) => apply deaf_send
  | |- deaf _ (http _ _) (http _ _) =>
      apply deaf_http;
      let H := fresh in
      intros ? ? H ?; destruct H as (? & ? & ? & ? & ? & ? & ? & ?); cbv beta; solve [auto]
  | |- deaf _ (match ?x with _ => _ end) (match ?x with _ => _ end) => destruct x; deaf_auto
  | |- deaf _ (let _ := _ in _) _ => cbv zeta; deaf_auto
  | |- deaf _ _ _ => solve [eauto]
  end.

Lemma checkSL_deaf msg sym sd : deaf eq (checkSL msg sym sd) (checkSL msg sym sd).
Proof. unfold checkSL, getAlgoOrders, getOpenOrders. deaf_auto. Qed.

Lemma evict_deaf ps : deaf eq (evict ps) (evict ps).
Proof. unfold evict, clearSymbol. deaf_auto. Qed.

Lemma roundQty_deaf sym qty : deaf eq (roundQty sym qty) (roundQty sym qty).
Proof. unfold roundQty, Number_toFixed. deaf_auto. Qed.

Lemma cancel_orders_deaf pos after :
  deaf eq after after → deaf eq (cancel_orders pos after) (cancel_orders pos after).
Proof.
  intros Ha. unfold cancel_orders, cancelAllOrders, getAlgoOrders, cancelAlgoOrder. deaf_auto.
Qed.

Lemma retry_loop_deaf {A} (fn : M A) attempts delayMs name remaining lastError :
  deaf eq fn fn →
  deaf eq (retry_loop fn attempts delayMs name remaining lastError)
          (retry_loop fn attempts delayMs name remaining lastError).
Proof.
  intros Hfn. revert lastError.
  induction remaining as [|k IH]; intros lastError; cbn [retry_loop].
  - apply deaf_throw.
  - unfold sleep. deaf_auto.
Qed.

Lemma V4_check_deaf : deaf eq V4.check V4.check.
Proof.
  pose proof checkSL_deaf. pose proof evict_deaf.
  unfold V4.check, V4.checkPosition, shouldNotify, clearSymbol. deaf_auto.
Qed.

Lemma V3_check_deaf : deaf eq V3.check V3.check.
Proof.
  pose proof checkSL_deaf. pose proof evict_deaf.
  unfold V3.check, V3.checkPosition, shouldNotify, clearSymbol. deaf_auto.
Qed.

Lemma V4_tick_deaf : deaf eq V4.tick V4.tick.
Proof.
  pose proof roundQty_deaf.
  pose proof (λ pos, cancel_orders_deaf pos (mret ()) (deaf_ret ())).
  assert (∀ pos qty, deaf eq (V4.submit pos qty) (V4.submit pos qty)).
  { intros. unfold V4.submit, retry. apply retry_loop_deaf. unfold marketClose. deaf_auto. }
  unfold V4.tick, getPositions, V4.printPositions, V4.evaluate, V4.closePosition,
    V4.report, V4.failed.
  deaf_auto.
Qed.

Lemma V3_tick_deaf : deaf eq V3.tick V3.tick.
Proof.
  pose proof roundQty_deaf.
  pose proof (λ pos l m, cancel_orders_deaf pos (log l m) (deaf_log l l m m)).
  unfold V3.tick, getPositions, V3.printPositions, V3.evaluate, V3.closePosition,
    V3.submit, V3.report, V3.failed, marketClose, clearSymbol.
  deaf_auto.
Qed.

Lemma V4_iteration_deaf : deaf eq V4.iteration V4.iteration.
Proof. pose proof V4_tick_deaf. unfold V4.iteration, sleep. deaf_auto. Qed.

Lemma V3_iteration_deaf : deaf eq V3.iteration V3.iteration.
Proof. pose proof V3_tick_deaf. unfold V3.iteration, sleep. deaf_auto. Qed.

Lemma deaf_alike {A} (m : M A) env1 env2 st :
  deaf eq m m → same_market env1 env2 → alike (m env1 st) (m env2 st).
Proof.
  intros Hm H. destruct (Hm env1 env2 st H) as (H1 & H2 & H3).
  destruct (m env1 st) as [[r1 s1] ev1], (m env2 st) as [[r2 s2] ev2].
  cbn in *. split; [|done]. subst. by destruct r1, r2; cbn in *; subst.
Qed.

(** X20.  What Telegram answers does not steer the guardian.  In two
    environments with the same settings and the same answers of the
    exchange, a tick, a check and a turn of the loop return the same
    result, leave the same state and produce the same events but for
    console lines.  Both rewrites. *)
Theorem telegram_never_steers env1 env2 st :
  same_market env1 env2 →
  alike (V4.tick env1 st) (V4.tick env2 st)
  ∧ alike (V3.tick env1 st) (V3.tick env2 st)
  ∧ alike (V4.check env1 st) (V4.check env2 st)
  ∧ alike (V3.check env1 st) (V3.check env2 st)
  ∧ alike (V4.iteration env1 st) (V4.iteration env2 st)
  ∧ alike (V3.iteration env1 st) (V3.iteration env2 st).
Proof.
  intros H. split; [|split; [|split; [|split; [|split]]]]; apply deaf_alike; try done.
  - apply V4_tick_deaf.
  - apply V3_tick_deaf.
  - apply V4_check_deaf.
  - apply V3_check_deaf.
  - apply V4_iteration_deaf.
  - apply V3_iteration_deaf.
Qed.


(** ** The statements at sample inputs *)

Lemma shouldNotify_throttles_witness :
  telegramInterval (cfg (Sample.env Sample.calm)) = PInt 30000
  ∧ shouldNotify "BTCUSDT" (Sample.env Sample.calm) Sample.start
    = (Ok true, set_lastNotify (<["BTCUSDT" := now Sample.start]>) Sample.start, []).
Proof.
  split; [reflexivity|].
  apply (shouldNotify_throttles (Sample.env Sample.calm) Sample.start "BTCUSDT")
    with (i := 30000).
  - reflexivity.
  - vm_compute. discriminate.
  - intros (t & Ht & _). vm_compute in Ht. discriminate.
Defined.

(** No alert was ever recorded for BTCUSDT, and the interval is set above
    what the clock reads: the query is answered [false], and so is the
    query right after [clearSymbol].  With an interval that is no number
    the query is answered [false] as well. *)
Lemma unrecorded_symbol_not_notified :
  ¬ recently_notified Sample3.patient_env Sample.start "BTCUSDT"
  ∧ shouldNotify "BTCUSDT" Sample3.patient_env Sample.start = (Ok false, Sample.start, [])
  ∧ (shouldNotify "BTCUSDT" Sample3.patient_env
       (clearSymbol "BTCUSDT" Sample3.patient_env Sample.start).1.2).1.1 = Ok false
  ∧ ¬ recently_notified Sample3.nan_env Sample.start "BTCUSDT"
  ∧ shouldNotify "BTCUSDT" Sample3.nan_env Sample.start = (Ok false, Sample.start, [])
  ∧ (shouldNotify "BTCUSDT" Sample3.nan_env
       (clearSymbol "BTCUSDT" Sample3.nan_env Sample.start).1.2).1.1 = Ok false.
Proof.
  split; [intros (t & Ht & _); vm_compute in Ht; discriminate|].
  split; [vm_compute; reflexivity|]. split; [vm_compute; reflexivity|].
  split; [intros (t & Ht & _); vm_compute in Ht; discriminate|].
  split; vm_compute; reflexivity.
Qed.

Lemma close_only_when_triggered_witness :
  triggers Sample.settings Sample.btc_long = true
  ∧ In (EvClosePosition Sample.btc_long) (V4.tick (Sample.env Sample.calm) Sample.start).2.
Proof.
  split; [vm_compute; reflexivity|].
  apply (close_only_when_triggered (Sample.env Sample.calm) Sample.start).
  - vm_compute. reflexivity.
  - reflexivity.
  - vm_compute. left. reflexivity.
  - vm_compute. reflexivity.
Defined.

(** Guardian 4.0, paused: the tick runs to its end with a triggering
    position in its snapshot and does not enter the close protocol. *)
Lemma paused_tick_closes_nothing :
  (V4.tick (Sample.env Sample.calm) Sample2.paused_start).1.1 = Ok ()
  ∧ In Sample.btc_long (positions (V4.tick (Sample.env Sample.calm) Sample2.paused_start).1.2)
  ∧ JS.lt (pnl Sample.btc_long) JS.zero = true
  ∧ JS.ge (JS.Math_abs (pnl Sample.btc_long)) (maxLossUsd Sample.settings) = true
  ∧ ¬ In (EvClosePosition Sample.btc_long)
        (V4.tick (Sample.env Sample.calm) Sample2.paused_start).2.
Proof.
  split; [vm_compute; reflexivity|].
  split; [vm_compute; left; reflexivity|].
  split; [vm_compute; reflexivity|].
  split; [vm_compute; reflexivity|].
  vm_compute. intros [H|[H|[H|[]]]]; discriminate H.
Qed.

Lemma checkSL_failed_fetch_witness :
  (∃ e, algo_answer (Sample.env Sample.algo_down) Sample.start "BTCUSDT" = Failed e)
  ∧ detect (checkSL "Network error" "BTCUSDT" LONG
              (Sample.env Sample.algo_down) Sample.start).1.1 ≠ Unprotected.
Proof.
  split; [eexists; reflexivity|].
  apply (checkSL_failed_fetch "Network error" "BTCUSDT" LONG
           (Sample.env Sample.algo_down) Sample.start).
  left. eexists. reflexivity.
Defined.

(** The conditional orders cannot be fetched, the conventional orders hold
    a stop: the detection is Protected, not Unknown. *)
Lemma checkSL_protected_despite_failed_fetch :
  algo_answer (Sample.env Sample.algo_down) Sample.start "BTCUSDT"
  = Failed "HTTP 502: Bad Gateway"
  ∧ detect (checkSL "Network error" "BTCUSDT" LONG
              (Sample.env Sample.algo_down) Sample.start).1.1 = Protected
  ∧ detect (checkSL "Network error" "BTCUSDT" LONG
              (Sample.env Sample.algo_down) Sample.start).1.1 ≠ Unknown.
Proof. split; [reflexivity|]. split; [vm_compute; reflexivity|]. vm_compute. discriminate. Qed.

Lemma checkSL_protection_witness :
  algo_answer (Sample.env Sample.calm) Sample.start "BTCUSDT" = Body (Some [Sample.stop_algo])
  ∧ checkSL "Network error" "BTCUSDT" LONG (Sample.env Sample.calm) Sample.start
    = (Ok true, set_requests 1 Sample.start, [EvOpenAlgoOrders "BTCUSDT"]).
Proof.
  split; [reflexivity|].
  apply (checkSL_protection "Network error" "BTCUSDT" LONG (Sample.env Sample.calm)
           Sample.start) with (body := Some [Sample.stop_algo]) (o := Sample.stop_algo).
  - reflexivity.
  - apply list_elem_of_here.
  - unfold protects_spec. cbn. auto.
Defined.

Lemma protection_transitions_witness :
  (checkSL "Network error" (symbol Sample.btc_long) (side Sample.btc_long)
     (Sample.env Sample.orders_down) Sample.guarded).1.1
  = Throw (Error "Network error")
  ∧ protection (V4.checkPosition Sample.btc_long (Sample.env Sample.orders_down)
                  Sample.guarded).1.2 "BTCUSDT"
    = protection Sample.guarded "BTCUSDT".
Proof.
  split; [vm_compute; reflexivity|].
  pose proof (protection_transitions (Sample.env Sample.orders_down) Sample.guarded
                Sample.btc_long) as (_ & _ & H & _).
  apply (H (Error "Network error")). vm_compute. reflexivity.
Defined.

(** BTCUSDT was found protected; the next cycle cannot fetch either order
    list: the cache still says Protected, not Unknown. *)
Lemma stale_protection_survives_failed_check :
  detect (checkSL "Network error" "BTCUSDT" LONG
            (Sample.env Sample.orders_down) Sample.guarded).1.1 = Unknown
  ∧ protection (V4.check (Sample.env Sample.orders_down) Sample.guarded).1.2 "BTCUSDT"
    = Protected
  ∧ protection (V3.check (Sample.env Sample.orders_down) Sample.guarded).1.2 "BTCUSDT"
    ≠ Unknown.
Proof.
  split; [vm_compute; reflexivity|].
  split; [vm_compute; reflexivity|]. vm_compute. discriminate.
Qed.

Lemma paused_tick_skips_close_witness :
  paused Sample2.paused_start = true
  ∧ Forall (λ e, ¬ close_event e) (V4.tick (Sample.env Sample.calm) Sample2.paused_start).2.
Proof.
  split; [reflexivity|].
  apply (paused_tick_skips_close (Sample.env Sample.calm) Sample2.paused_start).
  reflexivity.
Defined.

Lemma close_submission_attempts_witness :
  dryRun (cfg (Sample.env Sample.orders_down)) = false
  ∧ (rounded Sample.btc_long (Sample.env Sample.orders_down) Sample.start).1.1
    = Ok Sample2.btc_qty
  ∧ (V4.closePosition Sample.btc_long (Sample.env Sample.orders_down) Sample.start).1.1
    = Ok ().
Proof.
  split; [reflexivity|]. split; [vm_compute; reflexivity|].
  apply (close_submission_attempts Sample.btc_long Sample2.btc_qty
           (Sample.env Sample.orders_down) Sample.start)
    with (m1 := "HTTP 503: Service Unavailable") (m2 := "HTTP 503: Service Unavailable")
         (m3 := "HTTP 503: Service Unavailable").
  - reflexivity.
  - vm_compute. reflexivity.
  - reflexivity.
  - reflexivity.
  - reflexivity.
Defined.

(** Guardian 3.0: the order is rejected and is not submitted again. *)
Lemma V3_rejected_order_not_retried :
  order_answer (Sample.env Sample.orders_down) Sample.btc_long Sample2.btc_qty
    (requests (V3_cancelled Sample.btc_long (Sample.env Sample.orders_down) Sample.start).1.2)
  = Failed "HTTP 503: Service Unavailable"
  ∧ submissions
      (V3.closePosition Sample.btc_long (Sample.env Sample.orders_down) Sample.start).2
    = 1%nat
  ∧ ¬ (∃ ms, In (EvSleep ms)
               (V3.closePosition Sample.btc_long (Sample.env Sample.orders_down)
                  Sample.start).2).
Proof.
  split; [reflexivity|]. split; [vm_compute; reflexivity|].
  intros [ms H]. vm_compute in H.
  repeat (destruct H as [H|H]; [discriminate H|]). destruct H.
Qed.

Lemma close_status_reported_witness :
  dryRun (cfg (Sample.env (Sample.answering "NEW"))) = false
  ∧ telegrams
      (V4.closePosition Sample.btc_long (Sample.env (Sample.answering "NEW")) Sample.start).2
    = [V4.partial_text Sample.btc_long {| orderId := 12345; result_status := "NEW" |}].
Proof.
  split; [reflexivity|].
  rewrite (proj1 (close_status_reported Sample.btc_long Sample2.btc_qty
                    {| orderId := 12345; result_status := "NEW" |}
                    (Sample.env (Sample.answering "NEW")) Sample.start)).
  - reflexivity.
  - reflexivity.
  - vm_compute. reflexivity.
  - vm_compute. reflexivity.
Defined.

(** Guardian 3.0: a filled order and an order left NEW are reported with
    the same Telegram text. *)
Lemma V3_status_not_reported :
  telegrams
    (V3.closePosition Sample.btc_long (Sample.env (Sample.answering "FILLED")) Sample.start).2
  = telegrams
      (V3.closePosition Sample.btc_long (Sample.env (Sample.answering "NEW")) Sample.start).2
  ∧ telegrams
      (V3.closePosition Sample.btc_long (Sample.env (Sample.answering "NEW")) Sample.start).2
    = [V3.closed_text Sample.settings Sample.btc_long Sample2.btc_qty
         {| orderId := 12345; result_status := "NEW" |}].
Proof. split; vm_compute; reflexivity. Qed.

Lemma zero_precision_rounds_to_six_witness :
  symbolInfo Sample2.loaded !! "SHIBUSDT" = Some 0%nat
  ∧ roundQty "SHIBUSDT" (JS.parseFloat "1.5") (Sample.env Sample.calm) Sample2.loaded
    = (Ok (JS.parseFloat (JS.toFixed (JS.parseFloat "1.5") 6)), Sample2.loaded, []).
Proof.
  split; [vm_compute; reflexivity|].
  apply (zero_precision_rounds_to_six "SHIBUSDT" (JS.parseFloat "1.5")
           (Sample.env Sample.calm) Sample2.loaded).
  vm_compute. reflexivity.
Defined.

Lemma roundQty_idempotent_witness :
  is_size (JS.Math_abs (amt Sample.btc_long)) = true
  ∧ ∃ r,
      roundQty "BTCUSDT" (JS.Math_abs (amt Sample.btc_long))
        (Sample.env Sample.calm) Sample2.loaded = (Ok r, Sample2.loaded, [])
      ∧ roundQty "BTCUSDT" r (Sample.env Sample.calm) Sample2.loaded
        = (Ok r, Sample2.loaded, []).
Proof.
  assert (Hq : is_size (JS.Math_abs (amt Sample.btc_long)) = true)
    by (vm_compute; reflexivity).
  split; [exact Hq|].
  destruct (roundQty_idempotent "BTCUSDT" _ (Sample.env Sample.calm) Sample2.loaded Hq)
    as (_ & Hrun & _).
  eexists. split; [vm_compute; reflexivity|].
  eapply Hrun; [vm_compute; reflexivity|].
  vm_compute. eauto.
Defined.

(** ** More statements at sample inputs *)


Lemma dry_run_never_trades_witness :
  dryRun (cfg Sample3.dry_env) = true
  ∧ Forall dry_event (V4.tick Sample3.dry_env Sample.start).2.
Proof.
  split; [reflexivity|].
  apply (dry_run_never_trades Sample3.dry_env Sample.start). reflexivity.
Defined.

Lemma close_needs_the_lot_step_witness :
  symbolInfo Sample.start !! symbol Sample.btc_long = None
  ∧ V4.closePosition Sample.btc_long (Sample.env Sample3.info_down) Sample.start
    = (Throw (Error "HTTP 500: Internal Server Error"), set_requests 1 Sample.start,
       [EvClosePosition Sample.btc_long; EvExchangeInfo]).
Proof.
  split; [vm_compute; reflexivity|].
  apply (close_needs_the_lot_step Sample.btc_long "HTTP 500: Internal Server Error"
           (Sample.env Sample3.info_down) Sample.start).
  - vm_compute. reflexivity.
  - reflexivity.
Defined.

Lemma close_order_always_sent_witness :
  (rounded Sample.btc_long (Sample.env Sample.orders_down) Sample.start).1.1
  = Ok Sample2.btc_qty
  ∧ submissions
      (V3.closePosition Sample.btc_long (Sample.env Sample.orders_down) Sample.start).2
    = 1%nat.
Proof.
  split; [vm_compute; reflexivity|].
  apply (close_order_always_sent Sample.btc_long Sample2.btc_qty
           (Sample.env Sample.orders_down) Sample.start).
  - reflexivity.
  - vm_compute. reflexivity.
Defined.

Lemma missing_stop_alert_is_throttled_witness :
  (checkSL "Network error" "BTCUSDT" LONG (Sample.env Sample3.bare) Sample.start).1.1
  = Ok false
  ∧ telegrams (V4.checkPosition Sample.btc_long (Sample.env Sample3.bare) Sample.start).2
    = [V4_alert Sample.btc_long].
Proof.
  assert (H : (checkSL "Network error" (symbol Sample.btc_long) (side Sample.btc_long)
                 (Sample.env Sample3.bare) Sample.start).1.1 = Ok false)
    by (vm_compute; reflexivity).
  split; [exact H|].
  apply (missing_stop_alert_is_throttled "Network error" Sample.btc_long
           (Sample.env Sample3.bare) Sample.start H).
Defined.

Lemma restored_stop_rearms_alert_witness :
  (checkSL "Network error" "BTCUSDT" LONG (Sample.env Sample.calm) Sample.guarded).1.1
  = Ok true
  ∧ telegrams (V4.checkPosition Sample.btc_long (Sample.env Sample.calm) Sample.guarded).2
    = [].
Proof.
  assert (H : (checkSL "Network error" (symbol Sample.btc_long) (side Sample.btc_long)
                 (Sample.env Sample.calm) Sample.guarded).1.1 = Ok true)
    by (vm_compute; reflexivity).
  split; [exact H|].
  apply (restored_stop_rearms_alert "Network error" Sample.btc_long
           (Sample.env Sample.calm) Sample.guarded H).
Defined.

Lemma vanished_symbol_forgets_alert_witness :
  lastNotify Sample3.departed !! "ETHUSDT" = Some 1699999990000
  ∧ lastNotify (V4.check (Sample.env Sample.calm) Sample3.departed).1.2 !! "ETHUSDT" = None.
Proof.
  split; [vm_compute; reflexivity|].
  etrans.
  - apply (vanished_symbol_forgets_alert (Sample.env Sample.calm) Sample3.departed "ETHUSDT").
    vm_compute. reflexivity.
  - vm_compute. reflexivity.
Defined.

Lemma retry_stops_at_first_success_witness :
  retry Sample3.btc_close 3 500 "close BTCUSDT" (Sample.env Sample.orders_down) Sample.start
  = (Throw (Error "HTTP 503: Service Unavailable"), retried 2 500 Sample.start,
     failed_attempts (EvMarketClose "BTCUSDT" "SELL" "0.1") "close BTCUSDT" 3 500 1 2
       ++ [EvMarketClose "BTCUSDT" "SELL" "0.1"]).
Proof.
  apply (retry_stops_at_first_success (EvMarketClose "BTCUSDT" "SELL" "0.1")
           (λ ex n, order ex n "BTCUSDT" "SELL" "0.1") 3 500 "close BTCUSDT"
           (Sample.env Sample.orders_down) Sample.start 2).
  - intros j _. eexists. reflexivity.
  - lia.
  - reflexivity.
  - reflexivity.
Defined.

Lemma order_quantity_text_exact_witness :
  is_size (JS.Math_abs (amt Sample.btc_long)) = true
  ∧ JS.parseFloat (JS.Number_toString Sample2.btc_qty) = Sample2.btc_qty.
Proof.
  split; [vm_compute; reflexivity|].
  apply (order_quantity_text_exact "BTCUSDT" (JS.Math_abs (amt Sample.btc_long))
           (Sample.env Sample.calm) Sample2.loaded Sample2.btc_qty Sample2.loaded []).
  - vm_compute. reflexivity.
  - vm_compute. reflexivity.
Defined.

Lemma fraction_digits_counts_witness :
  fraction_digits ("0" +:+ "." +:+ "001") = String.length "001".
Proof.
  apply (fraction_digits_counts "0" "001" ""); reflexivity.
Defined.

Lemma exchange_info_records_lot_steps_witness :
  symbolInfo Sample.start !! "BTCUSDT" = None
  ∧ (roundQty "SHIBUSDT" (JS.parseFloat "1.5") (Sample.env Sample.calm)
       (roundQty "BTCUSDT" Sample2.btc_qty (Sample.env Sample.calm) Sample.start).1.2).2
    = [].
Proof.
  split; [vm_compute; reflexivity|].
  apply (exchange_info_records_lot_steps "BTCUSDT" Sample2.btc_qty (Sample.env Sample.calm)
           Sample.start Sample.info).
  - vm_compute. reflexivity.
  - reflexivity.
  - vm_compute. eexists. reflexivity.
Defined.

Lemma outage_is_survived_witness :
  outage (Sample.env Sample3.closed_door)
  ∧ healthcheck
      (Some (true, (turns V3.iteration 10 (Sample.env Sample3.closed_door) Sample.start).1.2))
    = 503.
Proof.
  assert (H : outage (Sample.env Sample3.closed_door))
    by (intros k; eexists; reflexivity).
  split; [exact H|].
  apply (outage_is_survived (Sample.env Sample3.closed_door) Sample.start 10 H).
Defined.

Lemma telegram_never_steers_witness :
  same_market (Sample.env Sample.calm) (Sample.env Sample3.telegram_down)
  ∧ alike (V4.tick (Sample.env Sample.calm) Sample.start)
          (V4.tick (Sample.env Sample3.telegram_down) Sample.start).
Proof.
  assert (H : same_market (Sample.env Sample.calm) (Sample.env Sample3.telegram_down))
    by (repeat split; reflexivity).
  split; [exact H|].
  apply (telegram_never_steers _ _ Sample.start H).
Defined.

Lemma tick_keeps_last_snapshot_witness :
  V4.tick (Sample.env Sample3.closed_door) Sample.guarded
  = (Throw (Error "HTTP 503: Service Unavailable"), set_requests 1 Sample.guarded,
     [EvPositionRisk]).
Proof.
  apply (tick_keeps_last_snapshot (Sample.env Sample3.closed_door) Sample.guarded).
  reflexivity.
Defined.

Lemma close_cancels_active_orders_witness :
  active_ids [Sample3.algo 11 "NEW"; Sample3.algo 10 "CANCELED";
              Sample3.algo 12 "NEW"; Sample3.algo 13 "NEW"] = [11; 12; 13]
  ∧ algoOrder Sample3.stubborn 3 "BTCUSDT" 12 = Failed "HTTP 400: Bad Request"
  ∧ cancelled (cancel_orders Sample.btc_long (mret ()) (Sample.env Sample3.stubborn)
                 Sample.start).2 = [11; 12].
Proof.
  split; [reflexivity|]. split; [reflexivity|].
  etrans.
  - apply (close_cancels_active_orders Sample.btc_long (Sample.env Sample3.stubborn)
             Sample.start)
      with (body := Some [Sample3.algo 11 "NEW"; Sample3.algo 10 "CANCELED";
                          Sample3.algo 12 "NEW"; Sample3.algo 13 "NEW"])
           (k := 1%nat) (id := 12) (msg := "HTTP 400: Bad Request").
    + reflexivity.
    + reflexivity.
    + intros j idj Hj Hidj. destruct j as [|j]; [|lia].
      vm_compute in Hidj. injection Hidj as <-. reflexivity.
    + reflexivity.
  - reflexivity.
Defined.

Lemma health_follows_the_last_tick_witness :
  (V3.tick (Sample.env Sample.calm) Sample.start).1.1 = Ok ()
  ∧ healthcheck (Some (true, (V3.iteration (Sample.env Sample.calm) Sample.start).1.2)) = 200.
Proof.
  assert (H : (V3.tick (Sample.env Sample.calm) Sample.start).1.1 = Ok ())
    by (vm_compute; reflexivity).
  split; [exact H|].
  apply (health_follows_the_last_tick (Sample.env Sample.calm) Sample.start true). exact H.
Defined.

Lemma bot_obeys_owner_and_buttons_witness :
  paused Sample.start = false
  ∧ paused (Bot.handleUpdate "42" id Sample3.pause_button
              (Sample.env Sample.calm) Sample.start).1.2 = true.
Proof.
  split; [reflexivity|].
  apply (bot_obeys_owner_and_buttons "42" id Sample3.pause_button
           (Sample.env Sample.calm) Sample.start).
  reflexivity.
Defined.
